(** * GameOfLifePythonMultiproc: a shallow embedding and its properties

    The program runs a vegetation variant of the game of life on a toroidal
    grid, many times, and aggregates how the populations ended.  Python
    integers are [Z], Python floats are the kernel's binary64 floats, lists
    are Rocq lists indexed the way Python indexes them, and an exception is
    a value of [result]. *)

From Stdlib Require Import ZArith List Lia Bool Permutation.

From Stdlib Require Import Floats.

Import ListNotations.

Open Scope Z_scope.

(** ** Exceptions *)

Inductive exn : Type :=
| IndexError
| OverflowError
| ValueError
| ZeroDivisionError.

(** [OutOfFuel] is not an outcome of the program: it marks a run of the
    [while] loop that the fuel given to the model did not cover. *)
Inductive result (A : Type) : Type :=
| Ok (a : A)
| Raise (e : exn)
| OutOfFuel.

Arguments Ok {A} a.

Arguments Raise {A} e.

Arguments OutOfFuel {A}.

Definition bind {A B : Type} (m : result A) (f : A -> result B) : result B :=
  match m with
  | Ok a => f a
  | Raise e => Raise e
  | OutOfFuel => OutOfFuel
  end.

Notation "x <- m ;; k" := (bind m (fun x => k))
  (at level 61, m at next level, right associativity).

(** ** Python lists *)

(** An index [i] into a list of length [len]: negative indices count from
    the end, anything outside [-len, len) raises. *)
Definition index_of (len i : Z) : result nat :=
  if i <? - len then Raise IndexError
  else if i <? 0 then Ok (Z.to_nat (i + len))
  else if i <? len then Ok (Z.to_nat i)
  else Raise IndexError.

Fixpoint list_update {A : Type} (l : list A) (k : nat) (v : A) : list A :=
  match l, k with
  | [], _ => []
  | _ :: l', O => v :: l'
  | a :: l', S k' => a :: list_update l' k' v
  end.

Definition len {A : Type} (l : list A) : Z := Z.of_nat (length l).

Definition getitem {A : Type} (l : list A) (i : Z) : result A :=
  k <- index_of (len l) i ;;
  match nth_error l k with
  | Some a => Ok a
  | None => Raise IndexError
  end.

Definition setitem {A : Type} (l : list A) (i : Z) (v : A) : result (list A) :=
  k <- index_of (len l) i ;;
  Ok (list_update l k v).

(** [xrange(a, b)]: the integers from [a] up to [b - 1]. *)
Fixpoint count_from (n : nat) (a : Z) : list Z :=
  match n with
  | O => []
  | S n' => a :: count_from n' (a + 1)
  end.

Definition xrange (a b : Z) : list Z := count_from (Z.to_nat (b - a)) a.

(** [for k in ks: s = body(k, s)] *)
Fixpoint for_each {S : Type} (ks : list Z) (body : Z -> S -> result S) (s : S)
  : result S :=
  match ks with
  | [] => Ok s
  | k :: ks' => s' <- body k s ;; for_each ks' body s'
  end.

(** ** Grids *)

Definition grid : Type := list (list Z).

(** [g[i][j]] *)
Definition get2 (g : grid) (i j : Z) : result Z :=
  row <- getitem g i ;; getitem row j.

(** [g[i][j] = v]: the row object is looked up, then updated in place. *)
Definition set2 (g : grid) (i j : Z) (v : Z) : result grid :=
  row <- getitem g i ;;
  row' <- setitem row j v ;;
  setitem g i row'.

(** ** Constants *)

Definition MAX_X : Z := 500.

Definition MAX_Y : Z := 500.

Definition STEPS_MAX : Z := 200.

Definition UNCHANGED_MAX : Z := 10.

(** [[[0 for i in xrange(c)] for j in xrange(r)]] *)
Definition zeros (c r : Z) : grid :=
  map (fun _ => map (fun _ => 0) (xrange 0 c)) (xrange 0 r).

(** ** Floats *)

(** Conversion of a Python integer to a float: rounded to nearest even,
    [OverflowError] when the integer is too large. *)
Definition float_of_int (z : Z) : result float :=
  match binary_normalize prec emax z 0 false with
  | S754_infinity _ => Raise OverflowError
  | sf => Ok (SF2Prim sf)
  end.

(** [int(x)]: truncation toward zero. *)
Definition int_of_float (x : float) : result Z :=
  match Prim2SF x with
  | S754_zero _ => Ok 0
  | S754_infinity _ => Raise OverflowError
  | S754_nan => Raise ValueError
  | S754_finite s m e =>
      let v := if 0 <=? e then Z.pos m * 2 ^ e else Z.pos m / 2 ^ (- e) in
      Ok (if s then - v else v)
  end.

(** [x / y] on floats. *)
Definition fdiv (x y : float) : result float :=
  if (y =? 0)%float then Raise ZeroDivisionError else Ok (x / y)%float.

(** [a // b] on integers. *)
Definition floordiv (a b : Z) : result Z :=
  if b =? 0 then Raise ZeroDivisionError else Ok (a / b).

(** ** rand1 *)

Definition aa : float := 16807%float.

Definition mm : float := 2147483647%float.

(** One pass of the loop of [rand1]; the state is [(sseed, iseed)], and the
    first statement overwrites [sseed] with [iseed]. *)
Definition rand1_body (st : float * Z) : result (float * Z) :=
  let iseed := snd st in
  s <- float_of_int iseed ;;
  q <- fdiv (aa * s) mm ;;
  iseed1 <- int_of_float q ;;
  qf <- float_of_int iseed1 ;;
  let sseed := (aa * s - mm * qf)%float in
  iseed2 <- int_of_float sseed ;;
  Ok (sseed, iseed2).

Definition rand1 (iseed : Z) : result float :=
  st <- for_each (xrange 1 6) (fun _ st => rand1_body st) (0%float, iseed) ;;
  fdiv (fst st) mm.

(** ** initializeGrid *)

Definition init_cell (ny seed : Z) (prob : float) (i j : Z) (g : grid)
  : result grid :=
  let index := ny * i + j in
  let newSeed := seed + index in
  r <- rand1 newSeed ;;
  if (prob <? r)%float then set2 g i j 0 else set2 g i j 1.

Definition initializeGrid (g : grid) (nx ny seed : Z) (prob : float)
  : result grid :=
  for_each (xrange 1 (nx + 1))
    (fun i g => for_each (xrange 1 (ny + 1)) (init_cell ny seed prob i) g) g.

(** ** gameOfLife *)

(** Count the total amount of vegetation. *)
Definition count_vegies (g : grid) (nx ny : Z) : result Z :=
  for_each (xrange 1 (nx + 1))
    (fun i v =>
       for_each (xrange 1 (ny + 1))
         (fun j v => c <- get2 g i j ;; Ok (v + c)) v) 0.

(** Copy the sides of the grid to simulate edge wrapping. *)
Definition wrap_columns (g : grid) (nx ny : Z) : result grid :=
  for_each (xrange 1 (nx + 1))
    (fun i g =>
       a <- get2 g i ny ;;
       g <- set2 g i 0 a ;;
       b <- get2 g i 1 ;;
       set2 g i (ny + 1) b) g.

Definition wrap_rows (g : grid) (nx ny : Z) : result grid :=
  for_each (xrange 0 (ny + 2))
    (fun j g =>
       a <- get2 g nx j ;;
       g <- set2 g 0 j a ;;
       b <- get2 g 1 j ;;
       set2 g (nx + 1) j b) g.

Definition neighbors_at (g : grid) (i j : Z) : result Z :=
  a <- get2 g (i - 1) (j - 1) ;;
  b <- get2 g (i - 1) j ;;
  c <- get2 g (i - 1) (j + 1) ;;
  d <- get2 g i (j - 1) ;;
  e <- get2 g i (j + 1) ;;
  f <- get2 g (i + 1) (j - 1) ;;
  h <- get2 g (i + 1) j ;;
  k <- get2 g (i + 1) (j + 1) ;;
  Ok (a + b + c + d + e + f + h + k).

(** The body of the update loop at cell [(i, j)]: reads [g], writes [t]. *)
Definition update_cell (g : grid) (i j : Z) (t : grid) : result grid :=
  neighbors <- neighbors_at g i j ;;
  c <- get2 g i j ;;
  t <- set2 t i j c ;;
  if (25 <=? neighbors) || (neighbors <=? 3) then
    v <- get2 t i j ;;
    t <- set2 t i j (v - 1) ;;
    v <- get2 t i j ;;
    if v <? 0 then set2 t i j 0 else Ok t
  else if neighbors <=? 15 then
    v <- get2 t i j ;;
    t <- set2 t i j (v + 1) ;;
    v <- get2 t i j ;;
    if 10 <? v then set2 t i j 10 else Ok t
  else Ok t.

Definition update_all (g t : grid) (nx ny : Z) : result grid :=
  for_each (xrange 1 (nx + 1))
    (fun i t => for_each (xrange 1 (ny + 1)) (update_cell g i) t) t.

(** Copy tempGrid back to grid. *)
Definition copy_back (g t : grid) (nx ny : Z) : result grid :=
  for_each (xrange 1 (nx + 1))
    (fun i g =>
       for_each (xrange 1 (ny + 1))
         (fun j g => v <- get2 t i j ;; set2 g i j v) g) g.

(** One time step: the part of the loop body under [if (not converged)],
    on the pair [(grid, tempGrid)]. *)
Definition time_step (g t : grid) (nx ny : Z) : result (grid * grid) :=
  g <- wrap_columns g nx ny ;;
  g <- wrap_rows g nx ny ;;
  t <- update_all g t nx ny ;;
  g <- copy_back g t nx ny ;;
  Ok (g, t).

(** The local variables of [gameOfLife]. *)
Record life : Type := mkLife {
  steps : Z;
  converged : bool;
  nUnchanged : Z;
  oldVegies : Z;
  old2Vegies : Z;
  old3Vegies : Z;
  vegies : Z;
  the_grid : grid;
  tempGrid : grid
}.

Definition life_init (g : grid) : life :=
  mkLife 1 false 0 (-1) (-1) (-1) 1 g (zeros MAX_X MAX_Y).

(** [while (not converged and vegies > 0 and steps < maxSteps)] *)
Definition loop_cond (maxSteps : Z) (s : life) : bool :=
  negb (converged s) && (0 <? vegies s) && (steps s <? maxSteps).

(** The [if]/[else] on the three previous totals. *)
Definition streak (maxUnchanged : Z) (s : life) (v : Z) : Z * bool :=
  if (v =? oldVegies s) || (v =? old2Vegies s) || (v =? old3Vegies s) then
    let n := nUnchanged s + 1 in
    (n, if maxUnchanged <=? n then true else converged s)
  else (0, converged s).

Definition loop_body (nx ny maxUnchanged : Z) (s : life) : result life :=
  v <- count_vegies (the_grid s) nx ny ;;
  let '(n, conv) := streak maxUnchanged s v in
  let old3 := old2Vegies s in
  let old2 := oldVegies s in
  let old := v in
  if negb conv then
    gt <- time_step (the_grid s) (tempGrid s) nx ny ;;
    Ok (mkLife (steps s + 1) conv n old old2 old3 v (fst gt) (snd gt))
  else
    Ok (mkLife (steps s) conv n old old2 old3 v (the_grid s) (tempGrid s)).

Fixpoint life_loop (fuel : nat) (nx ny maxSteps maxUnchanged : Z) (s : life)
  : result life :=
  if loop_cond maxSteps s then
    match fuel with
    | O => OutOfFuel
    | S fuel' =>
        s' <- loop_body nx ny maxUnchanged s ;;
        life_loop fuel' nx ny maxSteps maxUnchanged s'
    end
  else Ok s.

(** [gameOfLife] returns [(steps, vegies)]; the grid it has mutated is
    returned with them, since the caller keeps using it. *)
Definition gameOfLife (g : grid) (nx ny maxSteps maxUnchanged : Z)
  : result (grid * (Z * Z)) :=
  s <- life_loop (Z.to_nat maxSteps) nx ny maxSteps maxUnchanged (life_init g) ;;
  Ok (the_grid s, (steps s, vegies s)).

(** ** worker *)

Definition trial (nx ny maxSteps maxUnchanged : Z) (prob : float)
  (seed0 mySims myProcess : Z) (i : Z) (g : grid) : result (grid * (Z * Z)) :=
  let seed := seed0 * ((myProcess * mySims) - i) in
  g <- initializeGrid g nx ny seed prob ;;
  gameOfLife g nx ny maxSteps maxUnchanged.

(** The loop of [worker] over the trial numbers [ks]: the queue holds what
    was put before the process ended, normally or by an exception. *)
Fixpoint worker_loop (run : Z -> grid -> result (grid * (Z * Z)))
  (ks : list Z) (g : grid) (queue : list (Z * Z))
  : list (Z * Z) * result unit :=
  match ks with
  | [] => (queue, Ok tt)
  | i :: ks' =>
      match run i g with
      | Ok (g', r) => worker_loop run ks' g' (queue ++ [r])
      | Raise e => (queue, Raise e)
      | OutOfFuel => (queue, OutOfFuel)
      end
  end.

Definition worker (nx ny maxSteps maxUnchanged : Z) (prob : float)
  (seed0 mySims myProcess : Z) : list (Z * Z) * result unit :=
  let g := zeros (MAX_X + 2) (MAX_Y + 2) in
  worker_loop (trial nx ny maxSteps maxUnchanged prob seed0 mySims myProcess)
    (xrange 0 mySims) g [].

(** ** main *)

Record stats : Type := mkStats {
  ndied : Z;
  nunsettled : Z;
  nstable : Z;
  totalStepsStable : float;
  totalVegiesStable : float
}.

Definition stats_init : stats := mkStats 0 0 0 0%float 0%float.

(** Record the results of one simulation. *)
Definition record_result (maxSteps : Z) (st : stats) (r : Z * Z) : result stats :=
  let stepsResult := fst r in
  let vegiesResult := snd r in
  if vegiesResult =? 0 then
    Ok (mkStats (ndied st + 1) (nunsettled st) (nstable st)
          (totalStepsStable st) (totalVegiesStable st))
  else if maxSteps <=? stepsResult then
    Ok (mkStats (ndied st) (nunsettled st + 1) (nstable st)
          (totalStepsStable st) (totalVegiesStable st))
  else
    fs <- float_of_int stepsResult ;;
    fv <- float_of_int vegiesResult ;;
    Ok (mkStats (ndied st) (nunsettled st) (nstable st + 1)
          (totalStepsStable st + fs)%float (totalVegiesStable st + fv)%float).

Fixpoint drain (maxSteps : Z) (queue : list (Z * Z)) (st : stats) : result stats :=
  match queue with
  | [] => Ok st
  | r :: queue' => st' <- record_result maxSteps st r ;; drain maxSteps queue' st'
  end.

(** How a run of [main] ends: with a result, or not at all. *)
Inductive ending (A : Type) : Type :=
| Ends (r : result A)
| Hangs.

Arguments Ends {A} r.

Arguments Hangs {A}.

(** The loop of [main] over the processes.  [processList[i].join()] comes
    before the queue of the process is read, and a process does not exit,
    whether [worker] returned or raised, before the results it has put are
    written to the pipe of its queue: once a worker has put more results
    than the pipe holds, nothing reads them and [join] does not return.
    [pipe] is the number of results that the pipe of a queue holds.  After
    [join] the queue is read until it is empty. *)
Fixpoint join_and_drain (pipe : nat) (maxSteps : Z)
  (workers : list (list (Z * Z) * result unit)) (st : stats) : ending stats :=
  match workers with
  | [] => Ends (Ok st)
  | w :: workers' =>
      if (pipe <? length (fst w))%nat then Hangs
      else
        match drain maxSteps (fst w) st with
        | Ok st' => join_and_drain pipe maxSteps workers' st'
        | Raise e => Ends (Raise e)
        | OutOfFuel => Ends OutOfFuel
        end
  end.

(** The stable averages, guarded by [if (nstable > 0)]. *)
Definition averages (st : stats) : result (float * float) :=
  if 0 <? nstable st then
    n <- float_of_int (nstable st) ;;
    a <- fdiv (totalStepsStable st) n ;;
    n <- float_of_int (nstable st) ;;
    b <- fdiv (totalVegiesStable st) n ;;
    Ok (a, b)
  else Ok (totalStepsStable st, totalVegiesStable st).

(** [100.0 * count / nsims] *)
Definition percent (count nsims : Z) : result float :=
  c <- float_of_int count ;;
  n <- float_of_int nsims ;;
  fdiv (100 * c) n.

(** What [main] prints at the end, with the counters behind it. *)
Record report : Type := mkReport {
  counters : stats;
  percentDied : float;
  percentUnsettled : float;
  percentStabilized : float;
  avgStepsStable : float;
  avgVegiesStable : float
}.

(** The queues of the worker processes, in the order they are drained. *)
Definition run_workers (nx ny : Z) (probability : float)
  (simsPerProcess seed0 numProcesses : Z) : list (list (Z * Z) * result unit) :=
  map (fun i => worker nx ny STEPS_MAX UNCHANGED_MAX probability seed0
                  simsPerProcess (i + 1))
      (xrange 0 numProcesses).

(** The end of [main]: the averages, then the percentages. *)
Definition report_of (st : stats) (nsims : Z) : result report :=
  avg <- averages st ;;
  pd <- percent (ndied st) nsims ;;
  pu <- percent (nunsettled st) nsims ;;
  ps <- percent (nstable st) nsims ;;
  Ok (mkReport st pd pu ps (fst avg) (snd avg)).

(** [main] after its parameters are read: [nx <= MAX_X] and [ny <= MAX_Y]
    are what the prompt loop lets through. *)
Definition main (pipe : nat) (nx ny : Z) (probability : float)
  (nsims seed0 numProcesses : Z) : ending report :=
  match floordiv nsims numProcesses with
  | Ok simsPerProcess =>
      let workers :=
        run_workers nx ny probability simsPerProcess seed0 numProcesses in
      match join_and_drain pipe STEPS_MAX workers stats_init with
      | Ends (Ok st) => Ends (report_of st nsims)
      | Ends (Raise e) => Ends (Raise e)
      | Ends OutOfFuel => Ends OutOfFuel
      | Hangs => Hangs
      end
  | Raise e => Ends (Raise e)
  | OutOfFuel => Ends OutOfFuel
  end.

(** ** The prompt for the dimensions *)

(** The prompt loop of [main] on the integers that the calls of
    [int(input())] return, entered with the dimensions [nx] and [ny]; the
    rest of the input is returned with the dimensions, and [None] is the
    end of the input inside the loop. *)
Fixpoint prompt_dims (inputs : list Z) (nx ny : Z) : option (Z * Z * list Z) :=
  if (MAX_X <? nx) || (MAX_Y <? ny) then
    match inputs with
    | a :: b :: rest => prompt_dims rest a b
    | _ => None
    end
  else Some (nx, ny, inputs).

(** [main] enters the loop with [nx = MAX_X + 1] and [ny = MAX_Y + 1]. *)
Definition read_dims (inputs : list Z) : option (Z * Z * list Z) :=
  prompt_dims inputs (MAX_X + 1) (MAX_Y + 1).

(** * The vocabulary of the properties *)

(** A grid of [R] rows of [C] cells each. *)
Definition wf (R C : Z) (g : grid) : Prop :=
  len g = R /\ Forall (fun row => len row = C) g.

(** The cell [(i, j)] of a grid, for [i] and [j] from 0. *)
Definition cell (g : grid) (i j : Z) : Z :=
  nth (Z.to_nat j) (nth (Z.to_nat i) g []) 0.

(** The grid after [g[i][j] = v]. *)
Definition upd (g : grid) (i j v : Z) : grid :=
  list_update g (Z.to_nat i) (list_update (nth (Z.to_nat i) g []) (Z.to_nat j) v).

(** [t'] is [t] with the cell [(i, j)] set to [v]. *)
Definition writes (R C : Z) (t t' : grid) (i j v : Z) : Prop :=
  wf R C t' /\
  forall i' j', 0 <= i' -> 0 <= j' ->
    cell t' i' j' = if (i' =? i) && (j' =? j) then v else cell t i' j'.

(** The cells [1..nx] x [1..ny]. *)
Definition interior (nx ny i j : Z) : bool :=
  (1 <=? i) && (i <=? nx) && (1 <=? j) && (j <=? ny).

(** The ghost index [k] of a side of length [n] stands for [wrap n k]. *)
Definition wrap (n k : Z) : Z :=
  if k =? 0 then n else if k =? n + 1 then 1 else k.

(** The same on a torus of circumference [n], for the indices [1..n]. *)
Definition torus (n k : Z) : Z := (k - 1) mod n + 1.

(** The rule applied to a cell of value [c] with [n] neighbouring
    vegetation. *)
Definition rule (c n : Z) : Z :=
  if (25 <=? n) || (n <=? 3) then Z.max (c - 1) 0
  else if n <=? 15 then Z.min (c + 1) 10
  else c.

(** The sum of the eight cells around [(i, j)], read as the grid lies. *)
Definition around (g : grid) (i j : Z) : Z :=
  cell g (i - 1) (j - 1) + cell g (i - 1) j + cell g (i - 1) (j + 1)
  + cell g i (j - 1) + cell g i (j + 1)
  + cell g (i + 1) (j - 1) + cell g (i + 1) j + cell g (i + 1) (j + 1).

(** The sum of the eight neighbours of [(i, j)] on the torus [nx] x [ny]. *)
Definition torus_neighbors (nx ny : Z) (g : grid) (i j : Z) : Z :=
  cell g (torus nx (i - 1)) (torus ny (j - 1))
  + cell g (torus nx (i - 1)) j
  + cell g (torus nx (i - 1)) (torus ny (j + 1))
  + cell g i (torus ny (j - 1))
  + cell g i (torus ny (j + 1))
  + cell g (torus nx (i + 1)) (torus ny (j - 1))
  + cell g (torus nx (i + 1)) j
  + cell g (torus nx (i + 1)) (torus ny (j + 1)).

(** The sum of a list of integers. *)
Definition zsum (l : list Z) : Z := fold_right Z.add 0 l.

(** The total of the interior cells. *)
Definition total (g : grid) (nx ny : Z) : Z :=
  zsum (map (fun i => zsum (map (cell g i) (xrange 1 (ny + 1))))
          (xrange 1 (nx + 1))).

(** Vegetation in every interior cell stays between 0 and 10. *)
Definition in_range (nx ny : Z) (g : grid) : Prop :=
  forall i j, 1 <= i <= nx -> 1 <= j <= ny -> 0 <= cell g i j <= 10.

(** Both grids of a run have the sizes they were allocated with. *)
Definition wf_life (R C Rt Ct : Z) (s : life) : Prop :=
  wf R C (the_grid s) /\ wf Rt Ct (tempGrid s).

(** The invariant of the loop of [gameOfLife]. *)
Definition run_inv (R C nx ny maxSteps : Z) (s : life) : Prop :=
  wf_life R C MAX_Y MAX_X s /\
  1 <= steps s <= Z.max 1 maxSteps /\
  0 <= vegies s <= Z.max 1 (10 * (nx * ny)) /\
  in_range nx ny (the_grid s).

(** A computation of the model that stands for an outcome of the program:
    a value or an exception. *)
Definition defined {A : Type} (m : result A) : Prop := m <> OutOfFuel.

(** A trial result as [gameOfLife] bounds it. *)
Definition bounded_result (nx ny maxSteps : Z) (r : Z * Z) : Prop :=
  1 <= fst r <= Z.max 1 maxSteps /\ 0 <= snd r <= Z.max 1 (10 * (nx * ny)).

(** The three outcomes of a trial, as [main] tells them apart. *)
Definition died (r : Z * Z) : bool := snd r =? 0.

Definition unsettled (maxSteps : Z) (r : Z * Z) : bool :=
  negb (died r) && (maxSteps <=? fst r).

Definition stabilized (maxSteps : Z) (r : Z * Z) : bool :=
  negb (died r) && negb (maxSteps <=? fst r).

(** [acc += z] for each [z] of a list, in order, on floats. *)
Fixpoint fsum (zs : list Z) (acc : float) : result float :=
  match zs with
  | [] => Ok acc
  | z :: zs' => f <- float_of_int z ;; fsum zs' (acc + f)%float
  end.

(** The number of results counted. *)
Definition counted (st : stats) : Z := ndied st + nunsettled st + nstable st.

(** The counters are natural numbers, and the sums are still the initial
    [0.0] as long as no population has stabilized. *)
Definition stats_ok (st : stats) : Prop :=
  0 <= ndied st /\ 0 <= nunsettled st /\ 0 <= nstable st /\
  (nstable st = 0 ->
   totalStepsStable st = 0%float /\ totalVegiesStable st = 0%float).

(** The queues and the report of the scenario nx = ny = 3, probability 0,
    seed0 = 1, nsims = 4, numProcesses = 2. *)
Definition scenario_workers : list (list (Z * Z) * result unit) :=
  run_workers 3 3 0%float (4 / 2) 1 2.

Definition scenario_report : report :=
  mkReport (mkStats 4 0 0 0%float 0%float) 100%float 0%float 0%float 0%float 0%float.

(** Every interior cell holds [c]. *)
Definition uniform (nx ny : Z) (g : grid) (c : Z) : Prop :=
  forall i j, 1 <= i <= nx -> 1 <= j <= ny -> cell g i j = c.

(** Two grids with the same interior. *)
Definition same_interior (nx ny : Z) (g1 g2 : grid) : Prop :=
  forall i j, 1 <= i <= nx -> 1 <= j <= ny -> cell g1 i j = cell g2 i j.

(** What the loop of [gameOfLife] keeps about the streak counter: it is
    behind the step counter, and [converged] is set only with a streak of
    [maxUnchanged]. *)
Definition exit_inv (maxUnchanged : Z) (s : life) : Prop :=
  (converged s = true ->
   maxUnchanged <= nUnchanged s /\ nUnchanged s <= steps s - 1) /\
  (converged s = false ->
   (steps s = 1 /\ nUnchanged s = 0 /\
    oldVegies s = -1 /\ old2Vegies s = -1 /\ old3Vegies s = -1) \/
   nUnchanged s <= steps s - 2).

(** Two states of the loop of [gameOfLife] that differ at most in the frame
    of the grid and in the scratch buffer. *)
Definition life_sim (nx ny : Z) (s1 s2 : life) : Prop :=
  steps s1 = steps s2 /\ converged s1 = converged s2 /\
  nUnchanged s1 = nUnchanged s2 /\ oldVegies s1 = oldVegies s2 /\
  old2Vegies s1 = old2Vegies s2 /\ old3Vegies s1 = old3Vegies s2 /\
  vegies s1 = vegies s2 /\
  same_interior nx ny (the_grid s1) (the_grid s2).

(** The seed of trial [i] of a worker: [seed0 * ((myProcess * mySims) - i)]. *)
Definition trial_seed (seed0 mySims myProcess i : Z) : Z :=
  seed0 * ((myProcess * mySims) - i).

(** The seeds of the trials of one worker, and of a whole run, in the order
    of the results. *)
Definition worker_seeds (seed0 mySims myProcess : Z) : list Z :=
  map (trial_seed seed0 mySims myProcess) (xrange 0 mySims).

Definition run_seeds (seed0 simsPerProcess numProcesses : Z) : list Z :=
  flat_map (fun i => worker_seeds seed0 simsPerProcess (i + 1))
    (xrange 0 numProcesses).

(** The trial numbers [myProcess * mySims - i] of a run, in the order of the
    results; the seed of a trial is [seed0] times its number. *)
Definition trial_numbers (mySims numProcesses : Z) : list Z :=
  flat_map (fun p => map (fun i => (p + 1) * mySims - i) (xrange 0 mySims))
    (xrange 0 numProcesses).

(** The result of the trial of number [k] on a grid as [worker] allocates
    it. *)
Definition fresh_result (nx ny maxSteps maxUnchanged : Z) (prob : float)
  (seed0 k : Z) : Z * Z :=
  match trial nx ny maxSteps maxUnchanged prob seed0 k 1 0
          (zeros (MAX_X + 2) (MAX_Y + 2)) with
  | Ok (_, r) => r
  | _ => (0, 0)
  end.

(** The inputs that a list of pairs of dimensions stands for, and the pairs
    that the prompt loop asks again for. *)
Definition typed (pairs : list (Z * Z)) : list Z :=
  flat_map (fun p => [fst p; snd p]) pairs.

Definition too_large (p : Z * Z) : Prop := MAX_X < fst p \/ MAX_Y < snd p.

(** [g'] differs from [g] at most in rows 0..nx+1 and columns 0..ny+1. *)
Definition confined (nx ny : Z) (g g' : grid) : Prop :=
  forall i j, 0 <= i -> 0 <= j -> nx + 1 < i \/ ny + 1 < j ->
    cell g' i j = cell g i j.

(** [t'] differs from [t] at most in rows 1..nx and columns 1..ny. *)
Definition confined_scratch (nx ny : Z) (t t' : grid) : Prop :=
  forall i j, 0 <= i -> 0 <= j -> nx < i \/ ny < j \/ i = 0 \/ j = 0 ->
    cell t' i j = cell t i j.

(** The results of a worker fit in the pipe of its queue. *)
Definition fits (pipe : nat) (w : list (Z * Z) * result unit) : Prop :=
  (length (fst w) <= pipe)%nat.



(** * Properties *)

(** ** The monad *)

Lemma bind_Ok {A B : Type} (m : result A) (f : A -> result B) (b : B) :
  bind m f = Ok b -> exists a, m = Ok a /\ f a = Ok b.
Proof.
  destruct m as [a | e |]; simpl; intros H; try discriminate.
  exists a; split; [reflexivity | exact H].
Qed.

Ltac inv_bind H :=
  let a := fresh "a" in
  let Ha := fresh "Ha" in
  apply bind_Ok in H; destruct H as (a & Ha & H).

(** ** Lists and indices *)

Lemma index_of_in (n i : Z) : 0 <= i < n -> index_of n i = Ok (Z.to_nat i).
Proof.
  intros H. unfold index_of.
  destruct (Z.ltb_spec i (- n)); [lia |].
  destruct (Z.ltb_spec i 0); [lia |].
  destruct (Z.ltb_spec i n); [reflexivity | lia].
Qed.

Lemma index_of_above (n i : Z) : 0 <= n <= i -> index_of n i = Raise IndexError.
Proof.
  intros H. unfold index_of.
  destruct (Z.ltb_spec i (- n)); [reflexivity |].
  destruct (Z.ltb_spec i 0); [lia |].
  destruct (Z.ltb_spec i n); [lia | reflexivity].
Qed.

Lemma length_list_update {A : Type} (l : list A) (k : nat) (v : A) :
  length (list_update l k v) = length l.
Proof.
  revert k; induction l as [| a l IH]; intros [| k]; simpl; auto.
Qed.

Lemma nth_list_update {A : Type} (l : list A) (k k' : nat) (v d : A) :
  (k < length l)%nat ->
  nth k' (list_update l k v) d = if Nat.eqb k' k then v else nth k' l d.
Proof.
  revert k k'; induction l as [| a l IH]; intros k k' Hk; simpl in Hk; [lia |].
  destruct k as [| k]; destruct k' as [| k']; simpl; try reflexivity.
  apply IH; lia.
Qed.

Lemma getitem_in {A : Type} (l : list A) (i : Z) (d : A) :
  0 <= i < len l -> getitem l i = Ok (nth (Z.to_nat i) l d).
Proof.
  intros H. unfold getitem. rewrite index_of_in by exact H. simpl.
  destruct (nth_error l (Z.to_nat i)) as [a |] eqn:E.
  - f_equal. symmetry. apply nth_error_nth. exact E.
  - apply nth_error_None in E. unfold len in H. lia.
Qed.

Lemma setitem_in {A : Type} (l : list A) (i : Z) (v : A) :
  0 <= i < len l -> setitem l i v = Ok (list_update l (Z.to_nat i) v).
Proof.
  intros H. unfold setitem. rewrite index_of_in by exact H. reflexivity.
Qed.

Lemma getitem_above {A : Type} (l : list A) (i : Z) :
  len l <= i -> getitem l i = Raise IndexError.
Proof.
  intros H. unfold getitem. rewrite index_of_above; [reflexivity |].
  unfold len in *. lia.
Qed.

Lemma setitem_above {A : Type} (l : list A) (i : Z) (v : A) :
  len l <= i -> setitem l i v = Raise IndexError.
Proof.
  intros H. unfold setitem. rewrite index_of_above; [reflexivity |].
  unfold len in *. lia.
Qed.

(** ** Ranges and loops *)

Lemma xrange_nil (a b : Z) : b <= a -> xrange a b = [].
Proof.
  intros H. unfold xrange. replace (Z.to_nat (b - a)) with 0%nat by lia.
  reflexivity.
Qed.

Lemma xrange_cons (a b : Z) : a < b -> xrange a b = a :: xrange (a + 1) b.
Proof.
  intros H. unfold xrange.
  replace (Z.to_nat (b - a)) with (S (Z.to_nat (b - (a + 1)))) by lia.
  reflexivity.
Qed.

Lemma length_count_from (n : nat) (a : Z) : length (count_from n a) = n.
Proof. revert a. induction n as [| n IH]; intros a; simpl; auto. Qed.

Lemma in_count_from (n : nat) (a k : Z) :
  In k (count_from n a) <-> a <= k < a + Z.of_nat n.
Proof.
  revert a. induction n as [| n IH]; intros a; simpl.
  - lia.
  - rewrite IH. lia.
Qed.

Lemma length_xrange (a b : Z) : length (xrange a b) = Z.to_nat (b - a).
Proof. apply length_count_from. Qed.

Lemma in_xrange (a b k : Z) : In k (xrange a b) <-> a <= k < b.
Proof. unfold xrange. rewrite in_count_from. lia. Qed.

Section Loops.

Context {S : Type}.

Variable body : Z -> S -> result S.

(** A loop over [xrange a b] whose body keeps an invariant indexed by the
    loop variable runs to the end and establishes the invariant at [b]. *)
Lemma for_range_inv (P : Z -> S -> Prop) (a b : Z) (s : S) :
  a <= b ->
  P a s ->
  (forall k s, a <= k < b -> P k s -> exists s', body k s = Ok s' /\ P (k + 1) s') ->
  exists s', for_each (xrange a b) body s = Ok s' /\ P b s'.
Proof.
  intros Hab. remember (Z.to_nat (b - a)) as n eqn:En.
  revert a s Hab En. induction n as [| n IH]; intros a s Hab En HP Hstep.
  - assert (a = b) by lia. subst b. rewrite xrange_nil by lia.
    exists s. split; [reflexivity | exact HP].
  - rewrite xrange_cons by lia. simpl.
    destruct (Hstep a s) as (s1 & E1 & P1); [lia | exact HP |].
    rewrite E1. simpl.
    apply IH; [lia | lia | exact P1 |].
    intros k s2 Hk. apply Hstep. lia.
Qed.

Lemma for_range_empty (a b : Z) (s : S) :
  b <= a -> for_each (xrange a b) body s = Ok s.
Proof. intros H. rewrite xrange_nil by exact H. reflexivity. Qed.

(** A loop whose body keeps the invariant up to [k] and raises at [k]. *)
Lemma for_range_raise (P : Z -> S -> Prop) (a k b : Z) (s : S) (e : exn) :
  a <= k < b ->
  P a s ->
  (forall i s, a <= i < k -> P i s -> exists s', body i s = Ok s' /\ P (i + 1) s') ->
  (forall s, P k s -> body k s = Raise e) ->
  for_each (xrange a b) body s = Raise e.
Proof.
  intros Hk. remember (Z.to_nat (k - a)) as n eqn:En.
  revert a s Hk En. induction n as [| n IH]; intros a s Hk En HP Hstep Hraise.
  - assert (a = k) by lia. subst a. rewrite xrange_cons by lia. simpl.
    rewrite Hraise by exact HP. reflexivity.
  - rewrite xrange_cons by lia. simpl.
    destruct (Hstep a s) as (s1 & E1 & P1); [lia | exact HP |].
    rewrite E1. simpl.
    apply IH; [lia | lia | exact P1 | | exact Hraise].
    intros i s2 Hi. apply Hstep. lia.
Qed.

End Loops.

(** ** Well-formed grids *)

Lemma Forall_list_update {A : Type} (P : A -> Prop) (l : list A) (k : nat) (v : A) :
  Forall P l -> P v -> Forall P (list_update l k v).
Proof.
  intros Hl Hv. revert k. induction Hl as [| a l Ha Hl IH]; intros [| k]; simpl;
    constructor; auto.
Qed.

Lemma wf_row (R C : Z) (g : grid) (i : Z) :
  wf R C g -> 0 <= i < R -> len (nth (Z.to_nat i) g []) = C.
Proof.
  intros [HR HC] Hi. rewrite Forall_forall in HC. apply HC.
  apply nth_In. unfold len in HR. lia.
Qed.

Lemma wf_upd (R C : Z) (g : grid) (i j v : Z) :
  wf R C g -> 0 <= i < R -> wf R C (upd g i j v).
Proof.
  intros Hwf Hi. pose proof (wf_row R C g i Hwf Hi) as Hrow.
  destruct Hwf as [HR HC]. unfold upd, wf, len in *. split.
  - rewrite length_list_update. exact HR.
  - apply Forall_list_update; [exact HC |].
    rewrite length_list_update. exact Hrow.
Qed.

Lemma get2_in (R C : Z) (g : grid) (i j : Z) :
  wf R C g -> 0 <= i < R -> 0 <= j < C -> get2 g i j = Ok (cell g i j).
Proof.
  intros Hwf Hi Hj. pose proof (wf_row R C g i Hwf Hi) as Hrow.
  destruct Hwf as [HR HC]. unfold get2, cell.
  rewrite (getitem_in g i []) by lia. simpl.
  apply getitem_in. lia.
Qed.

Lemma set2_in (R C : Z) (g : grid) (i j v : Z) :
  wf R C g -> 0 <= i < R -> 0 <= j < C -> set2 g i j v = Ok (upd g i j v).
Proof.
  intros Hwf Hi Hj. pose proof (wf_row R C g i Hwf Hi) as Hrow.
  destruct Hwf as [HR HC]. unfold set2, upd.
  rewrite (getitem_in g i []) by lia. simpl.
  rewrite setitem_in by lia. simpl.
  apply setitem_in. lia.
Qed.

Lemma cell_upd (R C : Z) (g : grid) (i j v i' j' : Z) :
  wf R C g -> 0 <= i < R -> 0 <= j < C -> 0 <= i' -> 0 <= j' ->
  cell (upd g i j v) i' j' = if (i' =? i) && (j' =? j) then v else cell g i' j'.
Proof.
  intros Hwf Hi Hj Hi' Hj'. pose proof (wf_row R C g i Hwf Hi) as Hrow.
  destruct Hwf as [HR HC]. unfold cell, upd, len in *.
  rewrite nth_list_update by lia.
  destruct (Z.eqb_spec i' i) as [-> | Hne].
  - rewrite Nat.eqb_refl. simpl. rewrite nth_list_update by lia.
    destruct (Z.eqb_spec j' j) as [-> | Hnj].
    + rewrite Nat.eqb_refl. reflexivity.
    + destruct (Nat.eqb_spec (Z.to_nat j') (Z.to_nat j)); [lia | reflexivity].
  - destruct (Nat.eqb_spec (Z.to_nat i') (Z.to_nat i)); [lia | reflexivity].
Qed.

Lemma cell_upd_same (R C : Z) (g : grid) (i j v : Z) :
  wf R C g -> 0 <= i < R -> 0 <= j < C -> cell (upd g i j v) i j = v.
Proof.
  intros. rewrite (cell_upd R C) by (assumption || lia).
  rewrite !Z.eqb_refl. reflexivity.
Qed.

Lemma cell_upd_other (R C : Z) (g : grid) (i j v i' j' : Z) :
  wf R C g -> 0 <= i < R -> 0 <= j < C -> 0 <= i' -> 0 <= j' ->
  i' <> i \/ j' <> j ->
  cell (upd g i j v) i' j' = cell g i' j'.
Proof.
  intros Hwf Hi Hj Hi' Hj' Hne. rewrite (cell_upd R C) by (assumption || lia).
  destruct (Z.eqb_spec i' i); destruct (Z.eqb_spec j' j); simpl; try reflexivity.
  lia.
Qed.

Lemma wf_zeros (c r : Z) : 0 <= c -> 0 <= r -> wf r c (zeros c r).
Proof.
  intros Hc Hr. unfold wf, zeros, len. split.
  - rewrite length_map, length_xrange. lia.
  - apply Forall_forall. intros row Hin. apply in_map_iff in Hin.
    destruct Hin as (k & <- & _). rewrite length_map, length_xrange. lia.
Qed.

(** ** Loops that write one cell per iteration *)

(** Case analysis on the integer comparisons of the goal. *)
Ltac cases_Z :=
  repeat (match goal with
          | |- context [Z.eqb ?a ?b] => destruct (Z.eqb_spec a b)
          | |- context [Z.leb ?a ?b] => destruct (Z.leb_spec a b)
          | |- context [Z.ltb ?a ?b] => destruct (Z.ltb_spec a b)
          end; try lia);
  simpl; subst; try reflexivity; try lia; try congruence.

Lemma writes_set2 (R C : Z) (t : grid) (i j v : Z) :
  wf R C t -> 0 <= i < R -> 0 <= j < C ->
  exists t', set2 t i j v = Ok t' /\ writes R C t t' i j v.
Proof.
  intros Hwf Hi Hj. exists (upd t i j v). split.
  - apply (set2_in R C); assumption.
  - split; [apply wf_upd; assumption |].
    intros i' j' Hi' Hj'. apply (cell_upd R C); assumption.
Qed.

Section Fill.

Variables (R C nx ny : Z).

Variable body : Z -> Z -> grid -> result grid.

Variable v : Z -> Z -> Z.

Hypothesis Hnx : 0 <= nx.

Hypothesis Hny : 0 <= ny.

Hypothesis Hbody : forall i j t,
  1 <= i <= nx -> 1 <= j <= ny -> wf R C t ->
  exists t', body i j t = Ok t' /\ writes R C t t' i j (v i j).

Lemma fill_row (i : Z) (t : grid) :
  1 <= i <= nx -> wf R C t ->
  exists t', for_each (xrange 1 (ny + 1)) (body i) t = Ok t' /\
    wf R C t' /\
    forall i' j', 0 <= i' -> 0 <= j' ->
      cell t' i' j' =
        if (i' =? i) && (1 <=? j') && (j' <=? ny) then v i j' else cell t i' j'.
Proof.
  intros Hi Hwf.
  destruct (for_range_inv (body i)
    (fun k t' => wf R C t' /\
       forall i' j', 0 <= i' -> 0 <= j' ->
         cell t' i' j' =
           if (i' =? i) && (1 <=? j') && (j' <? k) then v i j' else cell t i' j')
    1 (ny + 1) t) as (t' & E & Hwf' & Hc).
  - lia.
  - split; [exact Hwf |]. intros i' j' _ _. cases_Z.
  - intros k s Hk [Hs Hcs].
    destruct (Hbody i k s) as (s' & Es & Hws & Hwc); [lia | lia | exact Hs |].
    exists s'. split; [exact Es |]. split; [exact Hws |].
    intros i' j' Hi' Hj'. rewrite Hwc, Hcs by assumption. cases_Z.
  - exists t'. split; [exact E |]. split; [exact Hwf' |].
    intros i' j' Hi' Hj'. rewrite Hc by assumption. cases_Z.
Qed.

Lemma fill_all (t : grid) :
  wf R C t ->
  exists t',
    for_each (xrange 1 (nx + 1))
      (fun i t => for_each (xrange 1 (ny + 1)) (body i) t) t = Ok t' /\
    wf R C t' /\
    forall i j, 0 <= i -> 0 <= j ->
      cell t' i j = if interior nx ny i j then v i j else cell t i j.
Proof.
  intros Hwf.
  destruct (for_range_inv
    (fun i t => for_each (xrange 1 (ny + 1)) (body i) t)
    (fun k t' => wf R C t' /\
       forall i j, 0 <= i -> 0 <= j ->
         cell t' i j =
           if (1 <=? i) && (i <? k) && (1 <=? j) && (j <=? ny)
           then v i j else cell t i j)
    1 (nx + 1) t) as (t' & E & Hwf' & Hc).
  - lia.
  - split; [exact Hwf |]. intros i j _ _. cases_Z.
  - intros k s Hk [Hs Hcs].
    destruct (fill_row k s) as (s' & Es & Hws & Hwc); [lia | exact Hs |].
    exists s'. split; [exact Es |]. split; [exact Hws |].
    intros i j Hi Hj. rewrite Hwc, Hcs by assumption. cases_Z.
  - exists t'. split; [exact E |]. split; [exact Hwf' |].
    intros i j Hi Hj. rewrite Hc by assumption. unfold interior. cases_Z.
Qed.

End Fill.

(** ** Edge wrapping *)

Lemma wrap_torus (n k : Z) : 1 <= n -> 0 <= k <= n + 1 -> wrap n k = torus n k.
Proof.
  intros Hn Hk. unfold wrap, torus.
  destruct (Z.eqb_spec k 0) as [-> | H0].
  - replace (0 - 1) with ((n - 1) + (-1) * n) by lia.
    rewrite Z.mod_add by lia. rewrite Z.mod_small; lia.
  - destruct (Z.eqb_spec k (n + 1)) as [-> | H1].
    + replace (n + 1 - 1) with n by lia. rewrite Z.mod_same by lia. lia.
    + rewrite Z.mod_small; lia.
Qed.

Section Wrap.

Variables (R C nx ny : Z).

Hypothesis Hnx : 1 <= nx.

Hypothesis Hny : 1 <= ny.

Hypothesis HR : nx + 1 < R.

Hypothesis HC : ny + 1 < C.

Lemma wrap_columns_spec (g : grid) :
  wf R C g ->
  exists g1, wrap_columns g nx ny = Ok g1 /\ wf R C g1 /\
    forall i j, 0 <= i -> 0 <= j ->
      cell g1 i j =
        if (1 <=? i) && (i <=? nx) && ((j =? 0) || (j =? ny + 1))
        then cell g i (wrap ny j) else cell g i j.
Proof.
  intros Hwf. unfold wrap_columns.
  match goal with |- context [for_each _ ?b g] => set (body := b) end.
  destruct (for_range_inv body
    (fun k g1 => wf R C g1 /\
       forall i j, 0 <= i -> 0 <= j ->
         cell g1 i j =
           if (1 <=? i) && (i <? k) && ((j =? 0) || (j =? ny + 1))
           then cell g i (wrap ny j) else cell g i j)
    1 (nx + 1) g) as (g1 & E & Hwf1 & Hc).
  - lia.
  - split; [exact Hwf |]. intros i j _ _. cases_Z.
  - intros k s Hk [Hs Hcs]. unfold body.
    rewrite (get2_in R C) by (assumption || lia). simpl.
    rewrite (set2_in R C) by (assumption || lia). simpl.
    assert (Hs1 : wf R C (upd s k 0 (cell s k ny))) by (apply wf_upd; [assumption | lia]).
    rewrite (get2_in R C) by (assumption || lia). simpl.
    rewrite (set2_in R C) by (assumption || lia).
    eexists. split; [reflexivity |]. split; [apply wf_upd; [assumption | lia] |].
    intros i j Hi Hj.
    rewrite !(cell_upd R C) by (assumption || lia).
    rewrite !Hcs by lia. unfold wrap. cases_Z.
  - exists g1. split; [exact E |]. split; [exact Hwf1 |].
    intros i j Hi Hj. rewrite Hc by assumption. cases_Z.
Qed.

Lemma wrap_rows_spec (g : grid) :
  wf R C g ->
  exists g2, wrap_rows g nx ny = Ok g2 /\ wf R C g2 /\
    forall i j, 0 <= i -> 0 <= j ->
      cell g2 i j =
        if (j <=? ny + 1) && ((i =? 0) || (i =? nx + 1))
        then cell g (wrap nx i) j else cell g i j.
Proof.
  intros Hwf. unfold wrap_rows.
  match goal with |- context [for_each _ ?b g] => set (body := b) end.
  destruct (for_range_inv body
    (fun k g2 => wf R C g2 /\
       forall i j, 0 <= i -> 0 <= j ->
         cell g2 i j =
           if (j <? k) && ((i =? 0) || (i =? nx + 1))
           then cell g (wrap nx i) j else cell g i j)
    0 (ny + 2) g) as (g2 & E & Hwf2 & Hc).
  - lia.
  - split; [exact Hwf |]. intros i j Hi Hj. cases_Z.
  - intros k s Hk [Hs Hcs]. unfold body.
    rewrite (get2_in R C) by (assumption || lia). simpl.
    rewrite (set2_in R C) by (assumption || lia). simpl.
    assert (Hs1 : wf R C (upd s 0 k (cell s nx k))) by (apply wf_upd; [assumption | lia]).
    rewrite (get2_in R C) by (assumption || lia). simpl.
    rewrite (set2_in R C) by (assumption || lia).
    eexists. split; [reflexivity |]. split; [apply wf_upd; [assumption | lia] |].
    intros i j Hi Hj.
    rewrite !(cell_upd R C) by (assumption || lia).
    rewrite !Hcs by lia. unfold wrap. cases_Z.
  - exists g2. split; [exact E |]. split; [exact Hwf2 |].
    intros i j Hi Hj. rewrite Hc by assumption. cases_Z.
Qed.

(** After both copies, every cell of the frame [0..nx+1] x [0..ny+1]
    holds the value of the interior cell it stands for. *)
Lemma wrap_spec (g : grid) :
  wf R C g ->
  exists g1 g2, wrap_columns g nx ny = Ok g1 /\ wrap_rows g1 nx ny = Ok g2 /\
    wf R C g2 /\
    forall i j, 0 <= i -> 0 <= j ->
      cell g2 i j =
        if (i <=? nx + 1) && (j <=? ny + 1)
        then cell g (wrap nx i) (wrap ny j) else cell g i j.
Proof.
  intros Hwf.
  destruct (wrap_columns_spec g Hwf) as (g1 & E1 & Hwf1 & Hc1).
  destruct (wrap_rows_spec g1 Hwf1) as (g2 & E2 & Hwf2 & Hc2).
  exists g1, g2. split; [exact E1 |]. split; [exact E2 |].
  split; [exact Hwf2 |].
  intros i j Hi Hj. rewrite Hc2 by assumption.
  unfold wrap. cases_Z; rewrite Hc1 by lia; unfold wrap; cases_Z.
Qed.

End Wrap.

(** ** The update rule *)

Lemma neighbors_at_in (R C : Z) (g : grid) (i j : Z) :
  wf R C g -> 1 <= i -> i + 1 < R -> 1 <= j -> j + 1 < C ->
  neighbors_at g i j = Ok (around g i j).
Proof.
  intros Hwf Hi HiR Hj HjC. unfold neighbors_at.
  repeat (rewrite (get2_in R C) by (assumption || lia); simpl).
  reflexivity.
Qed.

Lemma update_cell_spec (R C Rt Ct : Z) (g t : grid) (i j : Z) :
  wf R C g -> wf Rt Ct t ->
  1 <= i -> i + 1 < R -> 1 <= j -> j + 1 < C -> i < Rt -> j < Ct ->
  exists t', update_cell g i j t = Ok t' /\
    writes Rt Ct t t' i j (rule (cell g i j) (around g i j)).
Proof.
  intros Hg Ht Hi HiR Hj HjC HiT HjT. unfold update_cell.
  rewrite (neighbors_at_in R C) by (assumption || lia). simpl.
  rewrite (get2_in R C) by (assumption || lia). simpl.
  rewrite (set2_in Rt Ct) by (assumption || lia). simpl.
  set (c := cell g i j). set (n := around g i j).
  assert (Ht1 : wf Rt Ct (upd t i j c)) by (apply wf_upd; [assumption | lia]).
  unfold rule, writes.
  destruct ((25 <=? n) || (n <=? 3)) eqn:Edecay.
  - rewrite (get2_in Rt Ct) by (assumption || lia). simpl.
    rewrite (cell_upd_same Rt Ct) by (assumption || lia).
    rewrite (set2_in Rt Ct) by (assumption || lia). simpl.
    assert (Ht2 : wf Rt Ct (upd (upd t i j c) i j (c - 1)))
      by (apply wf_upd; [assumption | lia]).
    rewrite (get2_in Rt Ct) by (assumption || lia). simpl.
    rewrite (cell_upd_same Rt Ct) by (assumption || lia).
    destruct (Z.ltb_spec (c - 1) 0).
    + rewrite (set2_in Rt Ct) by (assumption || lia).
      eexists. split; [reflexivity |]. split; [apply wf_upd; [assumption | lia] |].
      intros i' j' Hi' Hj'. rewrite !(cell_upd Rt Ct) by (assumption || lia).
      cases_Z.
    + eexists. split; [reflexivity |]. split; [assumption |].
      intros i' j' Hi' Hj'. rewrite !(cell_upd Rt Ct) by (assumption || lia).
      cases_Z.
  - destruct (n <=? 15) eqn:Egrow.
    + rewrite (get2_in Rt Ct) by (assumption || lia). simpl.
      rewrite (cell_upd_same Rt Ct) by (assumption || lia).
      rewrite (set2_in Rt Ct) by (assumption || lia). simpl.
      assert (Ht2 : wf Rt Ct (upd (upd t i j c) i j (c + 1)))
        by (apply wf_upd; [assumption | lia]).
      rewrite (get2_in Rt Ct) by (assumption || lia). simpl.
      rewrite (cell_upd_same Rt Ct) by (assumption || lia).
      destruct (Z.ltb_spec 10 (c + 1)).
      * rewrite (set2_in Rt Ct) by (assumption || lia).
        eexists. split; [reflexivity |]. split; [apply wf_upd; [assumption | lia] |].
        intros i' j' Hi' Hj'. rewrite !(cell_upd Rt Ct) by (assumption || lia).
        cases_Z.
      * eexists. split; [reflexivity |]. split; [assumption |].
        intros i' j' Hi' Hj'. rewrite !(cell_upd Rt Ct) by (assumption || lia).
        cases_Z.
    + eexists. split; [reflexivity |]. split; [assumption |].
      intros i' j' Hi' Hj'. rewrite !(cell_upd Rt Ct) by (assumption || lia).
      cases_Z.
Qed.

Section Step.

Variables (R C Rt Ct nx ny : Z).

Hypothesis Hnx : 1 <= nx.

Hypothesis Hny : 1 <= ny.

Hypothesis HR : nx + 1 < R.

Hypothesis HC : ny + 1 < C.

Hypothesis HRt : nx < Rt.

Hypothesis HCt : ny < Ct.

Lemma update_all_spec (g t : grid) :
  wf R C g -> wf Rt Ct t ->
  exists t', update_all g t nx ny = Ok t' /\ wf Rt Ct t' /\
    forall i j, 0 <= i -> 0 <= j ->
      cell t' i j =
        if interior nx ny i j then rule (cell g i j) (around g i j)
        else cell t i j.
Proof.
  intros Hg Ht. unfold update_all.
  apply (fill_all Rt Ct nx ny (update_cell g)
           (fun i j => rule (cell g i j) (around g i j))); try lia; [| exact Ht].
  intros i j s Hi Hj Hs. apply (update_cell_spec R C); assumption || lia.
Qed.

Lemma copy_back_spec (g t : grid) :
  wf R C g -> wf Rt Ct t ->
  exists g', copy_back g t nx ny = Ok g' /\ wf R C g' /\
    forall i j, 0 <= i -> 0 <= j ->
      cell g' i j = if interior nx ny i j then cell t i j else cell g i j.
Proof.
  intros Hg Ht. unfold copy_back.
  apply (fill_all R C nx ny
           (fun i j g => v <- get2 t i j ;; set2 g i j v)
           (fun i j => cell t i j)); try lia; [| exact Hg].
  intros i j s Hi Hj Hs.
  rewrite (get2_in Rt Ct) by (assumption || lia). simpl.
  apply writes_set2; assumption || lia.
Qed.

(** One time step succeeds, keeps both grids well formed, and gives every
    interior cell the value the rule assigns to it from the old grid and
    its neighbours on the torus. *)
Lemma time_step_spec (g t : grid) :
  wf R C g -> wf Rt Ct t ->
  exists g' t', time_step g t nx ny = Ok (g', t') /\
    wf R C g' /\ wf Rt Ct t' /\
    forall i j, 1 <= i <= nx -> 1 <= j <= ny ->
      cell g' i j = rule (cell g i j) (torus_neighbors nx ny g i j) /\
      cell t' i j = cell g' i j.
Proof.
  intros Hg Ht. unfold time_step.
  destruct (wrap_spec R C nx ny Hnx Hny HR HC g Hg)
    as (g1 & g2 & E1 & E2 & Hg2 & Hc2).
  rewrite E1. simpl. rewrite E2. simpl.
  destruct (update_all_spec g2 t Hg2 Ht) as (t' & Et & Ht' & Hct).
  rewrite Et. simpl.
  destruct (copy_back_spec g2 t' Hg2 Ht') as (g' & Eg & Hg' & Hcg).
  rewrite Eg. simpl.
  exists g', t'. split; [reflexivity |]. split; [exact Hg' |].
  split; [exact Ht' |].
  intros i j Hi Hj.
  assert (Hin : interior nx ny i j = true) by (unfold interior; cases_Z).
  split; [| rewrite Hcg, Hin by lia; reflexivity].
  rewrite Hcg, Hct by lia.
  rewrite Hin. unfold around, torus_neighbors.
  rewrite !Hc2 by lia.
  rewrite <- !wrap_torus by lia.
  replace (i <=? nx + 1) with true by (symmetry; apply Z.leb_le; lia).
  replace (i - 1 <=? nx + 1) with true by (symmetry; apply Z.leb_le; lia).
  replace (i + 1 <=? nx + 1) with true by (symmetry; apply Z.leb_le; lia).
  replace (j <=? ny + 1) with true by (symmetry; apply Z.leb_le; lia).
  replace (j - 1 <=? ny + 1) with true by (symmetry; apply Z.leb_le; lia).
  replace (j + 1 <=? ny + 1) with true by (symmetry; apply Z.leb_le; lia).
  simpl.
  assert (Wi : wrap nx i = i) by (unfold wrap; cases_Z).
  assert (Wj : wrap ny j = j) by (unfold wrap; cases_Z).
  rewrite !Wi, !Wj. reflexivity.
Qed.

End Step.

(** ** A scratch buffer that is too small *)

Lemma update_cell_overrun (R C Rt Ct : Z) (g t : grid) (i j : Z) :
  wf R C g -> wf Rt Ct t ->
  1 <= i -> i + 1 < R -> 1 <= j -> j + 1 < C -> Rt <= i \/ Ct <= j ->
  update_cell g i j t = Raise IndexError.
Proof.
  intros Hg Ht Hi HiR Hj HjC Hover. unfold update_cell.
  rewrite (neighbors_at_in R C) by (assumption || lia). simpl.
  rewrite (get2_in R C) by (assumption || lia). simpl.
  unfold set2. destruct (Z_lt_le_dec i Rt) as [Hlt | Hge].
  - rewrite (getitem_in t i []) by (destruct Ht as [Hl _]; lia). simpl.
    rewrite setitem_above; [reflexivity |].
    rewrite (wf_row Rt Ct t i Ht) by lia. lia.
  - rewrite getitem_above; [reflexivity |]. destruct Ht as [Hl _]. lia.
Qed.

Section Overrun.

Variables (R C Rt Ct nx ny : Z).

Hypothesis Hnx : 1 <= nx.

Hypothesis Hny : 1 <= ny.

Hypothesis HR : nx + 1 < R.

Hypothesis HC : ny + 1 < C.

Hypothesis Hover : Rt <= nx \/ Ct <= ny.

(** The row [i] of the update raises when the buffer has no row [i] or is
    narrower than [ny + 1]. *)
Lemma update_row_overrun (g t : grid) (i : Z) :
  wf R C g -> wf Rt Ct t -> 1 <= i <= nx -> Rt <= i \/ Ct <= ny ->
  for_each (xrange 1 (ny + 1)) (update_cell g i) t = Raise IndexError.
Proof.
  intros Hg Ht Hi Hrow.
  apply (for_range_raise (update_cell g i) (fun _ t' => wf Rt Ct t')
           1 (if Z_lt_le_dec i Rt then Z.max 1 Ct else 1)).
  - destruct (Z_lt_le_dec i Rt); lia.
  - exact Ht.
  - intros j s Hj Hs. destruct (Z_lt_le_dec i Rt); [| lia].
    destruct (update_cell_spec R C Rt Ct g s i j) as (s' & E & Hw & _);
      try (assumption || lia).
    exists s'. split; [exact E | exact Hw].
  - intros s Hs. apply (update_cell_overrun R C Rt Ct); try (assumption || lia);
      destruct (Z_lt_le_dec i Rt); lia.
Qed.

Lemma update_all_overrun (g t : grid) :
  wf R C g -> wf Rt Ct t -> update_all g t nx ny = Raise IndexError.
Proof.
  intros Hg Ht. unfold update_all.
  apply (for_range_raise
           (fun i t => for_each (xrange 1 (ny + 1)) (update_cell g i) t)
           (fun _ t' => wf Rt Ct t')
           1 (if Z_le_gt_dec Ct ny then 1 else Z.max 1 Rt)).
  - destruct (Z_le_gt_dec Ct ny); lia.
  - exact Ht.
  - intros i s Hi Hs. destruct (Z_le_gt_dec Ct ny); [lia |].
    destruct (fill_row Rt Ct (Rt - 1) ny (update_cell g)
                (fun i j => rule (cell g i j) (around g i j))) with (i := i) (t := s)
      as (s' & E & Hw & _); try (assumption || lia).
    + intros i' j' t' Hi' Hj' Ht'.
      apply (update_cell_spec R C); assumption || lia.
    + exists s'. split; [exact E | exact Hw].
  - intros s Hs. apply update_row_overrun; try assumption;
      destruct (Z_le_gt_dec Ct ny); lia.
Qed.

Lemma time_step_overrun (g t : grid) :
  wf R C g -> wf Rt Ct t -> time_step g t nx ny = Raise IndexError.
Proof.
  intros Hg Ht. unfold time_step.
  destruct (wrap_spec R C nx ny Hnx Hny HR HC g Hg)
    as (g1 & g2 & E1 & E2 & Hg2 & _).
  rewrite E1. simpl. rewrite E2. simpl.
  rewrite (update_all_overrun g2 t Hg2 Ht). reflexivity.
Qed.

End Overrun.

(** ** Counting the vegetation *)

Lemma for_each_sum (ks : list Z) (body : Z -> Z -> result Z) (h : Z -> Z) :
  (forall k v, In k ks -> body k v = Ok (v + h k)) ->
  forall v, for_each ks body v = Ok (v + zsum (map h ks)).
Proof.
  induction ks as [| k ks IH]; intros Hb v; simpl.
  - f_equal. lia.
  - rewrite Hb by (left; reflexivity). simpl.
    rewrite IH by (intros; apply Hb; right; assumption).
    f_equal. lia.
Qed.

Lemma count_vegies_spec (R C : Z) (g : grid) (nx ny : Z) :
  wf R C g -> nx < R -> ny < C ->
  count_vegies g nx ny = Ok (total g nx ny).
Proof.
  intros Hwf Hnx Hny. unfold count_vegies, total.
  rewrite (for_each_sum _ _
             (fun i => zsum (map (cell g i) (xrange 1 (ny + 1))))).
  - reflexivity.
  - intros i v Hi. apply in_xrange in Hi.
    apply for_each_sum. intros j w Hj. apply in_xrange in Hj.
    rewrite (get2_in R C) by (assumption || lia). reflexivity.
Qed.

Lemma zsum_bounds (l : list Z) (lo hi : Z) :
  (forall x, In x l -> lo <= x <= hi) ->
  lo * len l <= zsum l <= hi * len l.
Proof.
  unfold len. induction l as [| x l IH]; intros H; simpl zsum; simpl length.
  - lia.
  - assert (lo <= x <= hi) by (apply H; left; reflexivity).
    assert (lo * Z.of_nat (length l) <= zsum l <= hi * Z.of_nat (length l))
      by (apply IH; intros; apply H; right; assumption).
    lia.
Qed.

Lemma total_bounds (g : grid) (nx ny lo hi : Z) :
  0 <= nx -> 0 <= ny ->
  (forall i j, 1 <= i <= nx -> 1 <= j <= ny -> lo <= cell g i j <= hi) ->
  lo * (nx * ny) <= total g nx ny <= hi * (nx * ny).
Proof.
  intros Hnx Hny H. unfold total.
  pose proof (zsum_bounds
    (map (fun i => zsum (map (cell g i) (xrange 1 (ny + 1)))) (xrange 1 (nx + 1)))
    (lo * ny) (hi * ny)) as Hb.
  unfold len in Hb. rewrite length_map, length_xrange in Hb.
  replace (Z.of_nat (Z.to_nat (nx + 1 - 1))) with nx in Hb by lia.
  assert (Hrows : forall x,
    In x (map (fun i => zsum (map (cell g i) (xrange 1 (ny + 1)))) (xrange 1 (nx + 1))) ->
    lo * ny <= x <= hi * ny).
  { intros x Hx. apply in_map_iff in Hx. destruct Hx as (i & <- & Hi).
    apply in_xrange in Hi.
    pose proof (zsum_bounds (map (cell g i) (xrange 1 (ny + 1))) lo hi) as Hr.
    unfold len in Hr. rewrite length_map, length_xrange in Hr.
    replace (Z.of_nat (Z.to_nat (ny + 1 - 1))) with ny in Hr by lia.
    apply Hr. intros y Hy. apply in_map_iff in Hy. destruct Hy as (j & <- & Hj).
    apply in_xrange in Hj. apply H; lia. }
  specialize (Hb Hrows). lia.
Qed.

Lemma total_zero (g : grid) (nx ny : Z) :
  0 <= nx -> 0 <= ny ->
  (forall i j, 1 <= i <= nx -> 1 <= j <= ny -> cell g i j = 0) ->
  total g nx ny = 0.
Proof.
  intros Hnx Hny H.
  pose proof (total_bounds g nx ny 0 0 Hnx Hny) as Hb.
  assert (0 * (nx * ny) <= total g nx ny <= 0 * (nx * ny)).
  { apply Hb. intros i j Hi Hj. rewrite H by assumption. lia. }
  lia.
Qed.

(** ** The loop of gameOfLife *)

Lemma life_loop_exit (fuel : nat) (nx ny maxSteps maxUnchanged : Z) (s : life) :
  loop_cond maxSteps s = false ->
  life_loop fuel nx ny maxSteps maxUnchanged s = Ok s.
Proof. intros H. destruct fuel; simpl; rewrite H; reflexivity. Qed.

Lemma life_loop_step (fuel : nat) (nx ny maxSteps maxUnchanged : Z) (s : life) :
  loop_cond maxSteps s = true ->
  life_loop (S fuel) nx ny maxSteps maxUnchanged s =
    (s' <- loop_body nx ny maxUnchanged s ;;
     life_loop fuel nx ny maxSteps maxUnchanged s').
Proof. intros H. simpl. rewrite H. reflexivity. Qed.

(** The loop runs to its end, within the fuel [maxSteps - steps], when its
    body keeps an invariant and either converges or counts a step. *)
Lemma life_loop_inv (I : life -> Prop) (nx ny maxSteps maxUnchanged : Z) :
  (forall s, I s -> loop_cond maxSteps s = true ->
     exists s', loop_body nx ny maxUnchanged s = Ok s' /\ I s' /\
       (converged s' = true \/ steps s' = steps s + 1)) ->
  forall fuel s, I s -> (Z.to_nat (maxSteps - steps s) <= fuel)%nat ->
    exists s', life_loop fuel nx ny maxSteps maxUnchanged s = Ok s' /\ I s' /\
      loop_cond maxSteps s' = false.
Proof.
  intros Hbody. induction fuel as [| fuel IH]; intros s Hs Hfuel.
  - exists s. assert (E : loop_cond maxSteps s = false).
    { unfold loop_cond. destruct (Z.ltb_spec (steps s) maxSteps); [lia |].
      apply andb_false_r. }
    rewrite life_loop_exit by exact E. auto.
  - destruct (loop_cond maxSteps s) eqn:E.
    + rewrite life_loop_step by exact E.
      destruct (Hbody s Hs E) as (s1 & E1 & Hs1 & Hprog).
      rewrite E1. simpl.
      destruct Hprog as [Hconv | Hstep].
      * exists s1. assert (E' : loop_cond maxSteps s1 = false).
        { unfold loop_cond. rewrite Hconv. reflexivity. }
        rewrite life_loop_exit by exact E'. auto.
      * apply IH; [exact Hs1 |].
        unfold loop_cond in E. apply andb_prop in E. destruct E as [_ E].
        apply Z.ltb_lt in E. lia.
    + exists s. rewrite life_loop_exit by exact E. auto.
Qed.

Section Engine.

Variables (R C Rt Ct nx ny : Z).

Hypothesis Hnx : 1 <= nx.

Hypothesis Hny : 1 <= ny.

Hypothesis HR : nx + 1 < R.

Hypothesis HC : ny + 1 < C.

Hypothesis HRt : nx < Rt.

Hypothesis HCt : ny < Ct.

(** What one pass of the loop body does to the local variables. *)
Lemma loop_body_spec (maxUnchanged : Z) (s : life) :
  wf_life R C Rt Ct s ->
  exists s', loop_body nx ny maxUnchanged s = Ok s' /\ wf_life R C Rt Ct s' /\
    vegies s' = total (the_grid s) nx ny /\
    (nUnchanged s', converged s') = streak maxUnchanged s (vegies s') /\
    oldVegies s' = vegies s' /\
    old2Vegies s' = oldVegies s /\
    old3Vegies s' = old2Vegies s /\
    (if converged s' then
       steps s' = steps s /\ the_grid s' = the_grid s
     else
       steps s' = steps s + 1 /\
       forall i j, 1 <= i <= nx -> 1 <= j <= ny ->
         cell (the_grid s') i j =
           rule (cell (the_grid s) i j) (torus_neighbors nx ny (the_grid s) i j)).
Proof.
  intros [Hg Ht]. unfold loop_body.
  rewrite (count_vegies_spec R C) by (assumption || lia). simpl.
  destruct (streak maxUnchanged s (total (the_grid s) nx ny)) as [n conv] eqn:Es.
  destruct conv; simpl.
  - eexists. split; [reflexivity |].
    split; [split; simpl; assumption |]. simpl. rewrite Es.
    repeat (split; [reflexivity |]). reflexivity.
  - destruct (time_step_spec R C Rt Ct nx ny Hnx Hny HR HC HRt HCt
                (the_grid s) (tempGrid s) Hg Ht)
      as (g' & t' & E & Hg' & Ht' & Hcells).
    rewrite E. simpl.
    eexists. split; [reflexivity |].
    split; [split; simpl; assumption |]. simpl. rewrite Es.
    repeat (split; [reflexivity |]).
    intros i j Hi Hj. apply Hcells; assumption.
Qed.

End Engine.

Lemma rule_range (c n : Z) : 0 <= c <= 10 -> 0 <= rule c n <= 10.
Proof.
  intros H. unfold rule.
  destruct ((25 <=? n) || (n <=? 3)); [lia |].
  destruct (n <=? 15); lia.
Qed.

Lemma wf_tempGrid : wf MAX_Y MAX_X (zeros MAX_X MAX_Y).
Proof. apply wf_zeros; unfold MAX_X, MAX_Y; lia. Qed.

Lemma wf_worker_grid : wf (MAX_Y + 2) (MAX_X + 2) (zeros (MAX_X + 2) (MAX_Y + 2)).
Proof. apply wf_zeros; unfold MAX_X, MAX_Y; lia. Qed.

Section Run.

Variables (R C nx ny maxSteps maxUnchanged : Z).

Hypothesis Hnx : 1 <= nx < MAX_Y.

Hypothesis Hny : 1 <= ny < MAX_X.

Hypothesis HR : nx + 1 < R.

Hypothesis HC : ny + 1 < C.

Lemma run_inv_body (s : life) :
  run_inv R C nx ny maxSteps s -> loop_cond maxSteps s = true ->
  exists s', loop_body nx ny maxUnchanged s = Ok s' /\ run_inv R C nx ny maxSteps s' /\
    (converged s' = true \/ steps s' = steps s + 1).
Proof.
  intros (Hwf & Hsteps & Hveg & Hrange) Hcond.
  destruct (loop_body_spec R C MAX_Y MAX_X nx ny) with (maxUnchanged := maxUnchanged) (s := s)
    as (s' & E & Hwf' & Hv & _ & _ & _ & _ & Hif); try lia; [exact Hwf |].
  exists s'. split; [exact E |].
  unfold loop_cond in Hcond. apply andb_prop in Hcond. destruct Hcond as [_ Hlt].
  apply Z.ltb_lt in Hlt.
  assert (Hv' : 0 <= vegies s' <= Z.max 1 (10 * (nx * ny))).
  { rewrite Hv.
    pose proof (total_bounds (the_grid s) nx ny 0 10) as Hb.
    assert (0 * (nx * ny) <= total (the_grid s) nx ny <= 10 * (nx * ny))
      by (apply Hb; [lia | lia | exact Hrange]).
    lia. }
  destruct (converged s') eqn:Ec.
  - destruct Hif as [Hst Hgr]. split; [| left; reflexivity].
    split; [exact Hwf' | split; [lia | split; [exact Hv' |]]].
    intros i j Hi Hj. rewrite Hgr. apply Hrange; assumption.
  - destruct Hif as [Hst Hcells]. split; [| right; exact Hst].
    split; [exact Hwf' | split; [lia | split; [exact Hv' |]]].
    intros i j Hi Hj. rewrite Hcells by assumption.
    apply rule_range. apply Hrange; assumption.
Qed.

(** [gameOfLife] returns: no index leaves the grids, the loop ends within
    its fuel, and the result is bounded. *)
Lemma gameOfLife_returns (g : grid) :
  wf R C g -> in_range nx ny g ->
  exists g' st v, gameOfLife g nx ny maxSteps maxUnchanged = Ok (g', (st, v)) /\
    wf R C g' /\ in_range nx ny g' /\
    1 <= st <= Z.max 1 maxSteps /\
    0 <= v <= Z.max 1 (10 * (nx * ny)).
Proof.
  intros Hg Hrange. unfold gameOfLife.
  destruct (life_loop_inv (run_inv R C nx ny maxSteps) nx ny maxSteps maxUnchanged run_inv_body
              (Z.to_nat maxSteps) (life_init g))
    as (s' & E & (Hwf & Hsteps & Hveg & Hr) & _).
  - unfold run_inv, life_init, wf_life. simpl.
    split; [split; [exact Hg | apply wf_tempGrid] |].
    split; [lia | split; [lia | exact Hrange]].
  - simpl. lia.
  - rewrite E. simpl. exists (the_grid s'), (steps s'), (vegies s').
    split; [reflexivity |]. split; [apply Hwf |]. auto.
Qed.

(** A grid with no vegetation: one pass of the loop, which counts 0 and
    still runs its time step, then the loop ends. *)
Lemma gameOfLife_barren (g : grid) :
  wf R C g -> 2 <= maxSteps ->
  (forall i j, 1 <= i <= nx -> 1 <= j <= ny -> cell g i j = 0) ->
  exists g', gameOfLife g nx ny maxSteps maxUnchanged = Ok (g', (2, 0)).
Proof.
  intros Hg Hmax Hzero. unfold gameOfLife.
  destruct (Z.to_nat maxSteps) as [| fuel] eqn:Ef; [lia |].
  rewrite life_loop_step.
  2:{ unfold loop_cond, life_init. simpl.
      destruct (Z.ltb_spec 1 maxSteps); [reflexivity | lia]. }
  destruct (loop_body_spec R C MAX_Y MAX_X nx ny) with
    (maxUnchanged := maxUnchanged) (s := life_init g)
    as (s' & E & Hwf' & Hv & Hstreak & _ & _ & _ & Hif); try lia.
  { split; [exact Hg | apply wf_tempGrid]. }
  rewrite E. simpl.
  assert (Hv0 : vegies s' = 0).
  { rewrite Hv. apply total_zero; [lia | lia | exact Hzero]. }
  assert (Hc : converged s' = false).
  { rewrite Hv0 in Hstreak. unfold streak, life_init in Hstreak. simpl in Hstreak.
    congruence. }
  rewrite Hc in Hif. destruct Hif as [Hst _].
  rewrite life_loop_exit.
  2:{ unfold loop_cond. rewrite Hv0, Hc. reflexivity. }
  simpl. exists (the_grid s'). rewrite Hst, Hv0. reflexivity.
Qed.

End Run.

(** With a step cap of 1 or less the loop is never entered. *)
Lemma gameOfLife_capped (g : grid) (nx ny maxSteps maxUnchanged : Z) :
  maxSteps <= 1 ->
  gameOfLife g nx ny maxSteps maxUnchanged = Ok (g, (1, 1)).
Proof.
  intros H. unfold gameOfLife. rewrite life_loop_exit; [reflexivity |].
  unfold loop_cond, life_init. simpl.
  destruct (Z.ltb_spec 1 maxSteps); [lia | reflexivity].
Qed.

(** With a scratch buffer too small for [nx] or [ny], the first pass of the
    loop already raises. *)
Lemma gameOfLife_overrun (R C nx ny maxSteps maxUnchanged : Z) (g : grid) :
  1 <= nx -> 1 <= ny -> nx + 1 < R -> ny + 1 < C ->
  MAX_Y <= nx \/ MAX_X <= ny ->
  wf R C g -> in_range nx ny g -> 2 <= maxSteps ->
  gameOfLife g nx ny maxSteps maxUnchanged = Raise IndexError.
Proof.
  intros Hnx Hny HR HC Hover Hg Hrange Hmax. unfold gameOfLife.
  destruct (Z.to_nat maxSteps) as [| fuel] eqn:Ef; [lia |].
  rewrite life_loop_step.
  2:{ unfold loop_cond, life_init. simpl.
      destruct (Z.ltb_spec 1 maxSteps); [reflexivity | lia]. }
  unfold loop_body.
  rewrite (count_vegies_spec R C) by (simpl; assumption || lia). simpl.
  pose proof (total_bounds g nx ny 0 10 ltac:(lia) ltac:(lia) Hrange) as Hb.
  assert (Hpos : 0 <= total g nx ny) by lia.
  unfold streak, life_init. simpl.
  destruct (Z.eqb_spec (total g nx ny) (-1)); [lia |]. simpl.
  rewrite (time_step_overrun R C MAX_Y MAX_X nx ny);
    [reflexivity | assumption .. | apply wf_tempGrid].
Qed.

(** ** Floats: comparison and the sign of a quotient *)

















(** ** Floats: integers below 2^53 convert exactly *)

Lemma digits2_pos_bound (p : positive) (n : Z) :
  0 <= n -> Z.pos p < 2 ^ n -> Z.pos (digits2_pos p) <= n.
Proof.
  revert n. induction p as [p IH | p IH |]; intros n Hn H; simpl.
  - assert (1 <= n). { destruct (Z.eq_dec n 0) as [-> | ]; [simpl in H; lia | lia]. }
    assert (Z.pos p < 2 ^ (n - 1)).
    { replace n with (Z.succ (n - 1)) in H by lia. rewrite Z.pow_succ_r in H by lia. lia. }
    specialize (IH (n - 1)). lia.
  - assert (1 <= n). { destruct (Z.eq_dec n 0) as [-> | ]; [simpl in H; lia | lia]. }
    assert (Z.pos p < 2 ^ (n - 1)).
    { replace n with (Z.succ (n - 1)) in H by lia. rewrite Z.pow_succ_r in H by lia. lia. }
    specialize (IH (n - 1)). lia.
  - destruct (Z.eq_dec n 0) as [-> | ]; [simpl in H; lia | lia].
Qed.

Lemma digits2_pos_iter_xO (p k : positive) :
  Z.pos (digits2_pos (Pos.iter xO p k)) = Z.pos (digits2_pos p) + Z.pos k.
Proof.
  induction k as [| k IH] using Pos.peano_ind.
  - simpl. lia.
  - rewrite Pos.iter_succ. simpl. lia.
Qed.

Lemma shr_fexp_exact (m : positive) (e : Z) :
  fexp prec emax (Z.pos (digits2_pos m) + e) = e ->
  shr_fexp prec emax (Z.pos m) e loc_Exact = (Build_shr_record (Z.pos m) false false, e).
Proof.
  intros H. unfold shr_fexp.
  change (shr (shr_record_of_loc (Z.pos m) loc_Exact) e
            (fexp prec emax (Z.pos (digits2_pos m) + e) - e)
          = (Build_shr_record (Z.pos m) false false, e)).
  rewrite H, Z.sub_diag. reflexivity.
Qed.

Lemma binary_round_aux_exact (m : positive) (e : Z) :
  fexp prec emax (Z.pos (digits2_pos m) + e) = e -> e <= emax - prec ->
  binary_round_aux prec emax false (Z.pos m) e loc_Exact = S754_finite false m e.
Proof.
  intros H He. unfold binary_round_aux.
  rewrite (shr_fexp_exact m e H). simpl.
  rewrite (shr_fexp_exact m e H). simpl.
  match goal with
  | |- (if ?b then _ else _) = _ => replace b with true; [reflexivity |]
  end.
  symmetry. apply Z.leb_le. unfold emax, prec in He. lia.
Qed.

Lemma binary_normalize_small (p : positive) :
  Z.pos p < 2 ^ 53 ->
  exists m e, binary_normalize prec emax (Z.pos p) 0 false = S754_finite false m e /\
    valid_binary (S754_finite false m e) = true.
Proof.
  intros H. pose proof (digits2_pos_bound p 53 ltac:(lia) H) as Hd.
  assert (Hd1 : 1 <= Z.pos (digits2_pos p)) by lia.
  set (d := Z.pos (digits2_pos p)) in *.
  assert (Hf : forall x, x + (d - 53) = d -> fexp prec emax (x + (d - 53)) = d - 53).
  { intros x Hx. rewrite Hx. unfold fexp, emin, prec, emax. lia. }
  assert (Hal : exists mz, shl_align p 0 (d - 53) = (mz, d - 53) /\
                           Z.pos (digits2_pos mz) = 53).
  { unfold shl_align.
    change (IntDef.Z.sub (d - 53) 0) with (d - 53 - 0).
    destruct (d - 53 - 0) as [| k | k] eqn:Ek; try lia.
    - exists p. split; [f_equal; lia | fold d; lia].
    - exists (Pos.iter xO p k). split; [reflexivity |].
      rewrite digits2_pos_iter_xO. fold d. lia. }
  destruct Hal as (mz & Eal & Hmz).
  exists mz, (d - 53).
  assert (Hf2 : fexp prec emax (Z.pos (digits2_pos mz) + (d - 53)) = d - 53)
    by (apply Hf; lia).
  split.
  - unfold binary_normalize, binary_round.
    change (fexp prec emax (IntDef.Z.add (Z.pos (digits2_pos p)) 0))
      with (fexp prec emax (d + 0)).
    replace (fexp prec emax (d + 0)) with (d - 53)
      by (unfold fexp, emin, prec, emax; lia).
    rewrite Eal. apply binary_round_aux_exact; [exact Hf2 |].
    unfold emax, prec. lia.
  - unfold valid_binary, SpecFloat.valid_binary, bounded, canonical_mantissa.
    change (fexp prec emax (IntDef.Z.add (Z.pos (digits2_pos mz)) (d - 53)))
      with (fexp prec emax (Z.pos (digits2_pos mz) + (d - 53))).
    rewrite Hf2.
    change (IntDef.Z.eqb (d - 53) (d - 53)) with (d - 53 =? d - 53).
    rewrite Z.eqb_refl, andb_true_l.
    apply Z.leb_le. unfold emax, prec. lia.
Qed.

Lemma float_of_int_small (z : Z) :
  0 < z < 2 ^ 53 ->
  exists f, float_of_int z = Ok f /\ (f =? 0)%float = false.
Proof.
  intros Hz. destruct z as [| p | p]; try lia.
  destruct (binary_normalize_small p) as (m & e & E & Hv); [lia |].
  unfold float_of_int. rewrite E. eexists. split; [reflexivity |].
  rewrite eqb_spec. rewrite Prim2SF_SF2Prim by exact Hv. reflexivity.
Qed.

Lemma float_of_int_0 : float_of_int 0 = Ok 0%float.
Proof. reflexivity. Qed.

Lemma float_of_int_ok (z : Z) :
  0 <= z < 2 ^ 53 -> exists f, float_of_int z = Ok f.
Proof.
  intros H. destruct (Z.eq_dec z 0) as [-> | Hz].
  - exists 0%float. reflexivity.
  - destruct (float_of_int_small z) as (f & E & _); [lia |]. exists f. exact E.
Qed.

(** ** initializeGrid *)

Section PartialLoops.

Context {S : Type}.

Variable body : Z -> S -> result S.

(** The same invariant rule for a loop that is known to have returned. *)
Lemma for_range_inv_ok (P : Z -> S -> Prop) (a b : Z) (s s' : S) :
  a <= b ->
  P a s ->
  (forall k s s', a <= k < b -> P k s -> body k s = Ok s' -> P (k + 1) s') ->
  for_each (xrange a b) body s = Ok s' -> P b s'.
Proof.
  intros Hab. remember (Z.to_nat (b - a)) as n eqn:En.
  revert a s Hab En. induction n as [| n IH]; intros a s Hab En HP Hstep E.
  - assert (a = b) by lia. subst b. rewrite xrange_nil in E by lia.
    simpl in E. inversion E; subst. exact HP.
  - rewrite xrange_cons in E by lia. simpl in E. inv_bind E.
    apply (IH (a + 1) a0); try lia.
    + apply (Hstep a s); [lia | exact HP | exact Ha].
    + intros k s1 s2 Hk. apply Hstep. lia.
    + exact E.
Qed.

End PartialLoops.

Lemma init_cell_ok (R C : Z) (g g' : grid) (ny seed : Z) (prob : float) (i j : Z) :
  wf R C g -> 0 <= i < R -> 0 <= j < C ->
  init_cell ny seed prob i j g = Ok g' ->
  exists r, rand1 (seed + (ny * i + j)) = Ok r /\
    writes R C g g' i j (if (prob <? r)%float then 0 else 1).
Proof.
  intros Hwf Hi Hj. unfold init_cell. intros H. inv_bind H.
  exists a. split; [exact Ha |].
  destruct (prob <? a)%float;
    rewrite (set2_in R C) in H by assumption; inversion H; subst;
    (split; [apply wf_upd; assumption |]);
    intros i' j' Hi' Hj'; apply (cell_upd R C); assumption.
Qed.

Lemma initializeGrid_range (R C : Z) (g g' : grid) (nx ny seed : Z) (prob : float) :
  wf R C g -> in_range nx ny g -> 0 <= nx < R -> 0 <= ny < C ->
  initializeGrid g nx ny seed prob = Ok g' ->
  wf R C g' /\ in_range nx ny g'.
Proof.
  intros Hwf Hr Hnx Hny. unfold initializeGrid.
  apply (for_range_inv_ok _ (fun _ g => wf R C g /\ in_range nx ny g));
    [lia | split; assumption |].
  intros i s s' Hi [Hs Hrs].
  apply (for_range_inv_ok _ (fun _ g => wf R C g /\ in_range nx ny g));
    [lia | split; assumption |].
  intros j t t' Hj [Ht Hrt] E.
  apply (init_cell_ok R C) in E; [| assumption | lia | lia].
  destruct E as (r & _ & Hwf' & Hc). split; [exact Hwf' |].
  intros i' j' Hi' Hj'. rewrite Hc by lia.
  destruct ((i' =? i) && (j' =? j)); [| apply Hrt; assumption].
  destruct (prob <? r)%float; lia.
Qed.

(** The cells of the grid after [initializeGrid], when every draw returns. *)
Lemma initializeGrid_spec (R C : Z) (g : grid) (nx ny seed : Z) (prob : float)
  (draw : Z -> Z -> float) :
  wf R C g -> 0 <= nx < R -> 0 <= ny < C ->
  (forall i j, 1 <= i <= nx -> 1 <= j <= ny ->
     rand1 (seed + (ny * i + j)) = Ok (draw i j)) ->
  exists g', initializeGrid g nx ny seed prob = Ok g' /\ wf R C g' /\
    forall i j, 0 <= i -> 0 <= j ->
      cell g' i j =
        if interior nx ny i j
        then (if (prob <? draw i j)%float then 0 else 1)
        else cell g i j.
Proof.
  intros Hwf Hnx Hny Hdraw. unfold initializeGrid.
  apply (fill_all R C nx ny (init_cell ny seed prob)
           (fun i j => if (prob <? draw i j)%float then 0 else 1));
    try lia; [| exact Hwf].
  intros i j t Hi Hj Ht. unfold init_cell.
  rewrite Hdraw by assumption. simpl.
  destruct (prob <? draw i j)%float; apply writes_set2; assumption || lia.
Qed.

Lemma cell_zeros (c r i j : Z) : cell (zeros c r) i j = 0.
Proof.
  unfold cell, zeros.
  destruct (nth_in_or_default (Z.to_nat i)
              (map (fun _ : Z => map (fun _ : Z => 0) (xrange 0 c)) (xrange 0 r)) [])
    as [Hin | ->].
  - apply in_map_iff in Hin. destruct Hin as (k & <- & _).
    destruct (nth_in_or_default (Z.to_nat j) (map (fun _ : Z => 0) (xrange 0 c)) 0)
      as [Hin | ->]; [| reflexivity].
    apply in_map_iff in Hin. destruct Hin as (k' & <- & _). reflexivity.
  - destruct (Z.to_nat j); reflexivity.
Qed.

(** ** The fuel of the loop is enough *)

Lemma defined_Ok {A : Type} (a : A) : defined (Ok a).
Proof. discriminate. Qed.

Lemma defined_Raise {A : Type} (e : exn) : defined (@Raise A e).
Proof. discriminate. Qed.

Lemma defined_bind {A B : Type} (m : result A) (f : A -> result B) :
  defined m -> (forall a, defined (f a)) -> defined (bind m f).
Proof.
  intros Hm Hf. destruct m as [a | e |]; simpl.
  - apply Hf.
  - discriminate.
  - exfalso. apply Hm. reflexivity.
Qed.

Lemma defined_for_each {S : Type} (ks : list Z) (body : Z -> S -> result S) (s : S) :
  (forall k s, defined (body k s)) -> defined (for_each ks body s).
Proof.
  intros Hb. revert s. induction ks as [| k ks IH]; intros s; simpl.
  - apply defined_Ok.
  - apply defined_bind; [apply Hb | exact IH].
Qed.

Lemma defined_index_of (n i : Z) : defined (index_of n i).
Proof.
  unfold index_of. destruct (i <? - n); [discriminate |].
  destruct (i <? 0); [discriminate |]. destruct (i <? n); discriminate.
Qed.

Lemma defined_getitem {A : Type} (l : list A) (i : Z) : defined (getitem l i).
Proof.
  unfold getitem. apply defined_bind; [apply defined_index_of |].
  intros k. destruct (nth_error l k); discriminate.
Qed.

Lemma defined_setitem {A : Type} (l : list A) (i : Z) (v : A) :
  defined (setitem l i v).
Proof.
  unfold setitem. apply defined_bind; [apply defined_index_of |].
  intros k. discriminate.
Qed.

Lemma defined_get2 (g : grid) (i j : Z) : defined (get2 g i j).
Proof.
  unfold get2. apply defined_bind; [apply defined_getitem |].
  intros row. apply defined_getitem.
Qed.

Lemma defined_set2 (g : grid) (i j v : Z) : defined (set2 g i j v).
Proof.
  unfold set2. apply defined_bind; [apply defined_getitem |].
  intros row. apply defined_bind; [apply defined_setitem |].
  intros row'. apply defined_setitem.
Qed.

Create HintDb outcome.

#[local] Hint Resolve defined_Ok defined_Raise defined_get2 defined_set2
  defined_getitem defined_setitem : outcome.

(** Goals [defined m] for a computation built from binds, loops and
    conditionals over the operations above. *)
Ltac outcome :=
  repeat first
    [ solve [auto with outcome]
    | apply defined_bind; [| intros]
    | apply defined_for_each; intros
    | match goal with
      | |- defined (if ?b then _ else _) => destruct b
      | |- defined (let '(_, _) := ?p in _) => destruct p
      end ].

Lemma defined_time_step (g t : grid) (nx ny : Z) : defined (time_step g t nx ny).
Proof.
  unfold time_step, wrap_columns, wrap_rows, update_all, copy_back,
    update_cell, neighbors_at.
  outcome.
Qed.

Lemma defined_loop_body (nx ny maxUnchanged : Z) (s : life) :
  defined (loop_body nx ny maxUnchanged s).
Proof.
  unfold loop_body, count_vegies. pose proof defined_time_step. outcome.
Qed.

Lemma loop_body_progress (nx ny maxUnchanged : Z) (s s' : life) :
  loop_body nx ny maxUnchanged s = Ok s' ->
  converged s' = true \/ steps s' = steps s + 1.
Proof.
  unfold loop_body. intros H. inv_bind H.
  destruct (streak maxUnchanged s a) as [n conv].
  destruct conv; simpl in H.
  - inversion H; subst. left. reflexivity.
  - inv_bind H. inversion H; subst. right. reflexivity.
Qed.

Lemma life_loop_fuel (nx ny maxSteps maxUnchanged : Z) (fuel : nat) (s : life) :
  (Z.to_nat (maxSteps - steps s) <= fuel)%nat ->
  defined (life_loop fuel nx ny maxSteps maxUnchanged s).
Proof.
  revert s. induction fuel as [| fuel IH]; intros s Hfuel.
  - rewrite life_loop_exit; [apply defined_Ok |].
    unfold loop_cond. destruct (Z.ltb_spec (steps s) maxSteps); [lia |].
    apply andb_false_r.
  - destruct (loop_cond maxSteps s) eqn:E.
    + rewrite life_loop_step by exact E.
      destruct (loop_body nx ny maxUnchanged s) as [s1 | e |] eqn:E1; simpl.
      * destruct (loop_body_progress _ _ _ _ _ E1) as [Hconv | Hstep].
        -- rewrite life_loop_exit; [apply defined_Ok |].
           unfold loop_cond. rewrite Hconv. reflexivity.
        -- apply IH. unfold loop_cond in E. apply andb_prop in E.
           destruct E as [_ E]. apply Z.ltb_lt in E. lia.
      * apply defined_Raise.
      * exfalso. apply (defined_loop_body nx ny maxUnchanged s). exact E1.
    + rewrite life_loop_exit by exact E. apply defined_Ok.
Qed.

(** [gameOfLife] never runs out of fuel: on every input it returns or
    raises. *)
Lemma defined_gameOfLife (g : grid) (nx ny maxSteps maxUnchanged : Z) :
  defined (gameOfLife g nx ny maxSteps maxUnchanged).
Proof.
  unfold gameOfLife. apply defined_bind.
  - apply life_loop_fuel. simpl. lia.
  - intros s. apply defined_Ok.
Qed.

Lemma defined_float_of_int (z : Z) : defined (float_of_int z).
Proof.
  unfold float_of_int.
  destruct (binary_normalize prec emax z 0 false); discriminate.
Qed.

Lemma defined_int_of_float (x : float) : defined (int_of_float x).
Proof. unfold int_of_float. destruct (Prim2SF x); discriminate. Qed.

Lemma defined_fdiv (x y : float) : defined (fdiv x y).
Proof. unfold fdiv. destruct (y =? 0)%float; discriminate. Qed.

#[local] Hint Resolve defined_float_of_int defined_int_of_float defined_fdiv
  : outcome.

Lemma defined_rand1 (iseed : Z) : defined (rand1 iseed).
Proof. unfold rand1, rand1_body. outcome. Qed.

Lemma defined_initializeGrid (g : grid) (nx ny seed : Z) (prob : float) :
  defined (initializeGrid g nx ny seed prob).
Proof.
  unfold initializeGrid, init_cell. pose proof defined_rand1. outcome.
Qed.

Lemma defined_trial (nx ny maxSteps maxUnchanged : Z) (prob : float)
  (seed0 mySims myProcess i : Z) (g : grid) :
  defined (trial nx ny maxSteps maxUnchanged prob seed0 mySims myProcess i g).
Proof.
  unfold trial. apply defined_bind; [apply defined_initializeGrid |].
  intros g'. apply defined_gameOfLife.
Qed.

(** A worker process ends normally or by an exception. *)
Lemma defined_worker (nx ny maxSteps maxUnchanged : Z) (prob : float)
  (seed0 mySims myProcess : Z) :
  defined (snd (worker nx ny maxSteps maxUnchanged prob seed0 mySims myProcess)).
Proof.
  unfold worker.
  generalize (zeros (MAX_X + 2) (MAX_Y + 2)) as g. generalize (@nil (Z * Z)) as q.
  induction (xrange 0 mySims) as [| k ks IH]; intros q g; simpl.
  - apply defined_Ok.
  - pose proof (defined_trial nx ny maxSteps maxUnchanged prob seed0 mySims
                  myProcess k g) as Hd.
    destruct (trial nx ny maxSteps maxUnchanged prob seed0 mySims myProcess k g)
      as [[g' r] | e |]; simpl.
    + apply IH.
    + apply defined_Raise.
    + exfalso. apply Hd. reflexivity.
Qed.

(** ** worker *)

Section WorkerLoop.

Variable run : Z -> grid -> result (grid * (Z * Z)).

Variable I : grid -> Prop.

Variable Q : Z * Z -> Prop.

Hypothesis Hrun : forall i g g' r, I g -> run i g = Ok (g', r) -> I g' /\ Q r.

Lemma worker_loop_spec (ks : list Z) (g : grid) (queue : list (Z * Z)) :
  I g -> Forall Q queue ->
  Forall Q (fst (worker_loop run ks g queue)) /\
  (length (fst (worker_loop run ks g queue)) <= length queue + length ks)%nat /\
  (snd (worker_loop run ks g queue) = Ok tt ->
   length (fst (worker_loop run ks g queue)) = (length queue + length ks)%nat).
Proof.
  revert g queue. induction ks as [| k ks IH]; intros g queue Hg Hq; simpl.
  - split; [exact Hq |]. split; lia.
  - destruct (run k g) as [[g' r] | e |] eqn:E; simpl.
    + destruct (Hrun k g g' r Hg E) as [Hg' Hr].
      destruct (IH g' (queue ++ [r]) Hg') as (H1 & H2 & H3).
      { apply Forall_app. split; [exact Hq | constructor; [exact Hr | constructor]]. }
      rewrite length_app in H2, H3. simpl in H2, H3.
      split; [exact H1 |]. split; [lia |]. intros Hok. rewrite H3 by exact Hok. lia.
    + split; [exact Hq |]. split; [lia | discriminate].
    + split; [exact Hq |]. split; [lia | discriminate].
Qed.

End WorkerLoop.

Lemma trial_spec (nx ny maxSteps maxUnchanged : Z) (prob : float)
  (seed0 mySims myProcess i : Z) (g g' : grid) (r : Z * Z) :
  1 <= nx < MAX_Y -> 1 <= ny < MAX_X ->
  wf (MAX_Y + 2) (MAX_X + 2) g /\ in_range nx ny g ->
  trial nx ny maxSteps maxUnchanged prob seed0 mySims myProcess i g = Ok (g', r) ->
  (wf (MAX_Y + 2) (MAX_X + 2) g' /\ in_range nx ny g') /\
  bounded_result nx ny maxSteps r.
Proof.
  intros Hnx Hny [Hwf Hr] H. unfold trial in H. inv_bind H.
  apply (initializeGrid_range (MAX_Y + 2) (MAX_X + 2)) in Ha;
    [| assumption | assumption | lia | lia].
  destruct Ha as [Hwf1 Hr1].
  destruct (gameOfLife_returns (MAX_Y + 2) (MAX_X + 2) nx ny maxSteps maxUnchanged
              Hnx Hny ltac:(lia) ltac:(lia) a Hwf1 Hr1)
    as (g2 & st & v & E & Hwf2 & Hr2 & Hst & Hv).
  rewrite E in H. inversion H; subst.
  split; [split; assumption |]. split; assumption.
Qed.

(** What the queue of a worker holds, and how many results when the worker
    ran all its trials. *)
Lemma worker_spec (nx ny maxSteps maxUnchanged : Z) (prob : float)
  (seed0 mySims myProcess : Z) :
  1 <= nx < MAX_Y -> 1 <= ny < MAX_X ->
  let w := worker nx ny maxSteps maxUnchanged prob seed0 mySims myProcess in
  Forall (bounded_result nx ny maxSteps) (fst w) /\
  len (fst w) <= Z.max 0 mySims /\
  (snd w = Ok tt -> len (fst w) = Z.max 0 mySims).
Proof.
  intros Hnx Hny w. unfold w, worker.
  destruct (worker_loop_spec
              (trial nx ny maxSteps maxUnchanged prob seed0 mySims myProcess)
              (fun g => wf (MAX_Y + 2) (MAX_X + 2) g /\ in_range nx ny g)
              (bounded_result nx ny maxSteps)) with
    (ks := xrange 0 mySims) (g := zeros (MAX_X + 2) (MAX_Y + 2)) (queue := @nil (Z * Z))
    as (H1 & H2 & H3).
  - intros i g g' r. apply trial_spec; assumption.
  - split; [apply wf_worker_grid |]. intros i j _ _. rewrite cell_zeros. lia.
  - constructor.
  - rewrite length_xrange, Z.sub_0_r in H2, H3.
    change (length (@nil (Z * Z))) with 0%nat in H2, H3. unfold len.
    split; [exact H1 |]. split; [lia |].
    intros Hok. rewrite H3 by exact Hok. lia.
Qed.

(** The length of the queue does not depend on the grid sizes: a worker that
    ran all its trials has put one result per trial. *)
Lemma worker_done_length (nx ny maxSteps maxUnchanged : Z) (prob : float)
  (seed0 mySims myProcess : Z) :
  let w := worker nx ny maxSteps maxUnchanged prob seed0 mySims myProcess in
  snd w = Ok tt -> len (fst w) = Z.max 0 mySims.
Proof.
  intros w. unfold w, worker.
  destruct (worker_loop_spec
              (trial nx ny maxSteps maxUnchanged prob seed0 mySims myProcess)
              (fun _ => True) (fun _ => True)) with
    (ks := xrange 0 mySims) (g := zeros (MAX_X + 2) (MAX_Y + 2)) (queue := @nil (Z * Z))
    as (_ & _ & H3); auto.
  rewrite length_xrange, Z.sub_0_r in H3.
  change (length (@nil (Z * Z))) with 0%nat in H3. unfold len.
  intros Hok. rewrite H3 by exact Hok. lia.
Qed.

(** ** The aggregation *)

Lemma stats_ok_init : stats_ok stats_init.
Proof. unfold stats_ok, stats_init. simpl. repeat split; lia. Qed.

Lemma record_result_spec (maxSteps : Z) (st st' : stats) (r : Z * Z) :
  record_result maxSteps st r = Ok st' ->
  counted st' = counted st + 1 /\ (stats_ok st -> stats_ok st').
Proof.
  unfold record_result, counted, stats_ok. intros H.
  destruct (snd r =? 0).
  - inversion H; subst; simpl. split; [lia |].
    intros (H1 & H2 & H3 & H4). repeat split; try lia; apply H4; assumption.
  - destruct (maxSteps <=? fst r).
    + inversion H; subst; simpl. split; [lia |].
      intros (H1 & H2 & H3 & H4). repeat split; try lia; apply H4; assumption.
    + inv_bind H. inv_bind H. inversion H; subst; simpl. split; [lia |].
      intros (H1 & H2 & H3 & H4). repeat split; try lia.
Qed.

Lemma record_result_returns (maxSteps : Z) (st : stats) (r : Z * Z) :
  0 <= fst r < 2 ^ 53 -> 0 <= snd r < 2 ^ 53 ->
  exists st', record_result maxSteps st r = Ok st'.
Proof.
  intros Hs Hv. unfold record_result.
  destruct (snd r =? 0); [eexists; reflexivity |].
  destruct (maxSteps <=? fst r); [eexists; reflexivity |].
  destruct (float_of_int_ok (fst r) Hs) as (fs & ->).
  destruct (float_of_int_ok (snd r) Hv) as (fv & ->).
  simpl. eexists. reflexivity.
Qed.

Lemma drain_spec (maxSteps : Z) (queue : list (Z * Z)) (st st' : stats) :
  drain maxSteps queue st = Ok st' ->
  counted st' = counted st + len queue /\ (stats_ok st -> stats_ok st').
Proof.
  unfold len. revert st. induction queue as [| r queue IH]; intros st H; simpl in H.
  - inversion H; subst. simpl. split; [lia | auto].
  - inv_bind H. apply record_result_spec in Ha. apply IH in H.
    simpl length. destruct Ha as [Hc Hok], H as [Hc' Hok'].
    split; [lia | auto].
Qed.

Lemma drain_returns (maxSteps : Z) (queue : list (Z * Z)) (st : stats) :
  Forall (fun r => 0 <= fst r < 2 ^ 53 /\ 0 <= snd r < 2 ^ 53) queue ->
  exists st', drain maxSteps queue st = Ok st'.
Proof.
  intros H. revert st. induction H as [| r queue [Hs Hv] _ IH]; intros st; simpl.
  - exists st. reflexivity.
  - destruct (record_result_returns maxSteps st r Hs Hv) as (st1 & ->). simpl.
    apply IH.
Qed.

Lemma drain_app (maxSteps : Z) (q1 q2 : list (Z * Z)) (st : stats) :
  drain maxSteps (q1 ++ q2) st =
  (st' <- drain maxSteps q1 st ;; drain maxSteps q2 st').
Proof.
  revert st. induction q1 as [| r q1 IH]; intros st; simpl; [reflexivity |].
  destruct (record_result maxSteps st r); simpl; auto.
Qed.

(** When the results of every worker fit in the pipe of its queue, the loop
    of [main] drains the queues in worker order. *)
Lemma join_and_drain_fits (pipe : nat) (maxSteps : Z)
  (workers : list (list (Z * Z) * result unit)) (st : stats) :
  Forall (fits pipe) workers ->
  join_and_drain pipe maxSteps workers st =
  Ends (drain maxSteps (concat (map fst workers)) st).
Proof.
  intros H. revert st. induction H as [| w ws Hw _ IH]; intros st; [reflexivity |].
  cbn [join_and_drain map concat]. unfold fits in Hw.
  destruct (Nat.ltb_spec pipe (length (fst w))) as [Hlt | _]; [lia |].
  rewrite drain_app. destruct (drain maxSteps (fst w) st); cbn [bind]; auto.
Qed.

(** The loop of [main] ends with counters only when the results of every
    worker fit. *)
Lemma join_and_drain_Ok (pipe : nat) (maxSteps : Z)
  (workers : list (list (Z * Z) * result unit)) (st st' : stats) :
  join_and_drain pipe maxSteps workers st = Ends (Ok st') ->
  Forall (fits pipe) workers /\
  drain maxSteps (concat (map fst workers)) st = Ok st'.
Proof.
  revert st. induction workers as [| w ws IH]; intros st H.
  - cbn in H. inversion H; subst. split; [constructor | reflexivity].
  - cbn [join_and_drain] in H.
    destruct (Nat.ltb_spec pipe (length (fst w))) as [Hlt | Hle]; [discriminate |].
    destruct (drain maxSteps (fst w) st) as [st1 | e |] eqn:E; try discriminate.
    destruct (IH _ H) as [Hf Hd]. split.
    + constructor; [exact Hle | exact Hf].
    + cbn [map concat]. rewrite drain_app, E. exact Hd.
Qed.

(** [main] waits forever in [join] for the first worker whose results do
    not fit, when the queues before it were drained. *)
Lemma join_and_drain_hangs (pipe : nat) (maxSteps : Z)
  (workers : list (list (Z * Z) * result unit)) (st : stats) :
  Forall (fun r => 0 <= fst r < 2 ^ 53 /\ 0 <= snd r < 2 ^ 53)
    (concat (map fst workers)) ->
  Exists (fun w => ~ fits pipe w) workers ->
  join_and_drain pipe maxSteps workers st = Hangs.
Proof.
  intros Hs Hex. revert st Hs.
  induction workers as [| w ws IH]; intros st Hs; [inversion Hex |].
  cbn [join_and_drain]. cbn [map concat] in Hs. apply Forall_app in Hs.
  destruct Hs as [Hs1 Hs2].
  destruct (Nat.ltb_spec pipe (length (fst w))) as [Hlt | Hle]; [reflexivity |].
  destruct (drain_returns maxSteps _ st Hs1) as (st1 & ->).
  apply IH; [| exact Hs2].
  inversion Hex as [? ? H | ? ? H]; subst; [| exact H].
  exfalso. apply H. exact Hle.
Qed.

(** What the counters and the sums hold after a queue is drained. *)
Lemma drain_classes (maxSteps : Z) (queue : list (Z * Z)) (st st' : stats) :
  drain maxSteps queue st = Ok st' ->
  ndied st' = ndied st + len (filter died queue) /\
  nunsettled st' = nunsettled st + len (filter (unsettled maxSteps) queue) /\
  nstable st' = nstable st + len (filter (stabilized maxSteps) queue) /\
  fsum (map fst (filter (stabilized maxSteps) queue)) (totalStepsStable st)
    = Ok (totalStepsStable st') /\
  fsum (map snd (filter (stabilized maxSteps) queue)) (totalVegiesStable st)
    = Ok (totalVegiesStable st').
Proof.
  unfold len. revert st. induction queue as [| r queue IH]; intros st H; simpl in H.
  - inversion H; subst. simpl. repeat split; lia.
  - inv_bind H. apply IH in H. destruct H as (Hd & Hu & Hs & Hfs & Hfv).
    unfold record_result in Ha. simpl filter.
    unfold unsettled, stabilized, died in *.
    destruct (snd r =? 0); simpl.
    + inversion Ha; subst; simpl in *.
      repeat split; try assumption; lia.
    + destruct (maxSteps <=? fst r); simpl.
      * inversion Ha; subst; simpl in *.
        repeat split; try assumption; lia.
      * inv_bind Ha. inv_bind Ha. inversion Ha; subst; simpl in *.
        rewrite Ha0, Ha1. simpl.
        repeat split; try assumption; lia.
Qed.

(** ** main *)

Lemma len_concat_const {A : Type} (l : list (list A)) (c : Z) :
  Forall (fun q => len q = c) l -> len (concat l) = len l * c.
Proof.
  unfold len. induction 1 as [| q l Hq _ IH]; [simpl; lia |].
  cbn [concat length]. rewrite length_app, Nat2Z.inj_add, Nat2Z.inj_succ. lia.
Qed.

Lemma len_concat_le {A : Type} (l : list (list A)) (c : Z) :
  Forall (fun q => len q <= c) l -> len (concat l) <= len l * c.
Proof.
  unfold len. induction 1 as [| q l Hq _ IH]; [simpl; lia |].
  cbn [concat length]. rewrite length_app, Nat2Z.inj_add, Nat2Z.inj_succ. lia.
Qed.

Lemma len_run_workers (nx ny : Z) (prob : float) (sims seed0 numProcesses : Z) :
  len (run_workers nx ny prob sims seed0 numProcesses) = Z.max 0 numProcesses.
Proof.
  unfold run_workers, len. rewrite length_map, length_xrange. lia.
Qed.

(** The number of results the orchestrator drains when every worker ran all
    its trials. *)
Lemma dispatched_total (nx ny : Z) (prob : float) (sims seed0 numProcesses : Z) :
  Forall (fun w => snd w = Ok tt) (run_workers nx ny prob sims seed0 numProcesses) ->
  Forall (fun w => len (fst w) = Z.max 0 sims)
    (run_workers nx ny prob sims seed0 numProcesses) /\
  len (concat (map fst (run_workers nx ny prob sims seed0 numProcesses))) =
    Z.max 0 numProcesses * Z.max 0 sims.
Proof.
  intros Hall.
  assert (Hlen : Forall (fun w => len (fst w) = Z.max 0 sims)
                   (run_workers nx ny prob sims seed0 numProcesses)).
  { rewrite Forall_forall in *. intros w Hin. pose proof (Hall w Hin) as Hok.
    unfold run_workers in Hin. apply in_map_iff in Hin.
    destruct Hin as (i & <- & _). apply worker_done_length. exact Hok. }
  split; [exact Hlen |].
  rewrite (len_concat_const _ (Z.max 0 sims)).
  - unfold len at 1. rewrite length_map. fold (len (run_workers nx ny prob sims seed0 numProcesses)).
    rewrite len_run_workers. reflexivity.
  - apply Forall_map. exact Hlen.
Qed.

Lemma percent_returns (count nsims : Z) :
  0 <= count < 2 ^ 53 -> 0 < nsims < 2 ^ 53 ->
  exists p, percent count nsims = Ok p.
Proof.
  intros Hc Hn. unfold percent.
  destruct (float_of_int_ok count Hc) as (c & ->).
  destruct (float_of_int_small nsims Hn) as (n & -> & Hz). simpl.
  unfold fdiv. rewrite Hz. eexists. reflexivity.
Qed.

(** The averages: the guard keeps the initial [0.0] when no population
    stabilized, and the division is by the stabilized count otherwise. *)
Lemma averages_spec (st : stats) :
  stats_ok st -> nstable st < 2 ^ 53 ->
  (nstable st = 0 -> averages st = Ok (0%float, 0%float)) /\
  (0 < nstable st ->
   exists n, float_of_int (nstable st) = Ok n /\ (n =? 0)%float = false /\
     averages st = Ok ((totalStepsStable st / n)%float, (totalVegiesStable st / n)%float)).
Proof.
  intros (_ & _ & H0 & Hzero) Hlt. unfold averages. split.
  - intros E. rewrite E. simpl. destruct (Hzero E) as [-> ->]. reflexivity.
  - intros Hpos. destruct (Z.ltb_spec 0 (nstable st)); [| lia].
    destruct (float_of_int_small (nstable st)) as (n & En & Hz); [lia |].
    exists n. split; [exact En |]. split; [exact Hz |].
    rewrite En. simpl. unfold fdiv. rewrite Hz. reflexivity.
Qed.

Lemma bounded_result_small (nx ny : Z) (r : Z * Z) :
  1 <= nx < MAX_Y -> 1 <= ny < MAX_X ->
  bounded_result nx ny STEPS_MAX r ->
  0 <= fst r < 2 ^ 53 /\ 0 <= snd r < 2 ^ 53.
Proof.
  unfold MAX_X, MAX_Y, STEPS_MAX, bounded_result. intros Hnx Hny [Hs Hv].
  assert (nx * ny <= 499 * 499) by (apply Z.mul_le_mono_nonneg; lia).
  assert (2 ^ 53 = 9007199254740992) by reflexivity.
  lia.
Qed.

(** A worker puts at most one result per trial. *)
Lemma worker_length (nx ny maxSteps maxUnchanged : Z) (prob : float)
  (seed0 mySims myProcess : Z) :
  len (fst (worker nx ny maxSteps maxUnchanged prob seed0 mySims myProcess))
    <= Z.max 0 mySims.
Proof.
  unfold worker.
  destruct (worker_loop_spec
              (trial nx ny maxSteps maxUnchanged prob seed0 mySims myProcess)
              (fun _ => True) (fun _ => True)) with
    (ks := xrange 0 mySims) (g := zeros (MAX_X + 2) (MAX_Y + 2)) (queue := @nil (Z * Z))
    as (_ & H2 & _); auto.
  rewrite length_xrange, Z.sub_0_r in H2.
  change (length (@nil (Z * Z))) with 0%nat in H2. unfold len. lia.
Qed.

(** The first process of a run. *)
Lemma first_worker (nx ny : Z) (probability : float)
  (simsPerProcess seed0 numProcesses : Z) :
  1 <= numProcesses ->
  In (worker nx ny STEPS_MAX UNCHANGED_MAX probability seed0 simsPerProcess 1)
    (run_workers nx ny probability simsPerProcess seed0 numProcesses).
Proof.
  intros H. unfold run_workers. apply in_map_iff. exists 0.
  split; [reflexivity |]. apply in_xrange. lia.
Qed.

(** A pipe that holds the results of [simsPerProcess] trials holds those
    of every worker. *)
Lemma fits_run_workers (pipe : nat) (nx ny : Z) (probability : float)
  (simsPerProcess seed0 numProcesses : Z) :
  simsPerProcess <= Z.of_nat pipe ->
  Forall (fits pipe)
    (run_workers nx ny probability simsPerProcess seed0 numProcesses).
Proof.
  intros H. unfold run_workers. rewrite Forall_map. apply Forall_forall.
  intros i _. unfold fits.
  pose proof (worker_length nx ny STEPS_MAX UNCHANGED_MAX probability seed0
                simsPerProcess (i + 1)) as Hl.
  unfold len in Hl. lia.
Qed.

(** The fields of a report, from the counters. *)
Lemma report_of_fields (st : stats) (nsims : Z) (r : report) :
  report_of st nsims = Ok r ->
  counters r = st /\
  averages st = Ok (avgStepsStable r, avgVegiesStable r) /\
  percent (ndied st) nsims = Ok (percentDied r) /\
  percent (nunsettled st) nsims = Ok (percentUnsettled r) /\
  percent (nstable st) nsims = Ok (percentStabilized r).
Proof.
  unfold report_of. intros H.
  inv_bind H. inv_bind H. inv_bind H. inv_bind H. inversion H; subst r.
  cbn. destruct a. auto.
Qed.

(** The report of [main] is computed from the counters of the queues
    drained in worker order, and [main] reports only when the results of
    every worker fit in the pipe of its queue. *)
Lemma main_Ok (pipe : nat) (nx ny : Z) (probability : float)
  (nsims seed0 numProcesses : Z) (r : report) :
  main pipe nx ny probability nsims seed0 numProcesses = Ends (Ok r) ->
  numProcesses <> 0 /\
  Forall (fits pipe)
    (run_workers nx ny probability (nsims / numProcesses) seed0 numProcesses) /\
  drain STEPS_MAX
    (concat (map fst (run_workers nx ny probability (nsims / numProcesses)
                        seed0 numProcesses))) stats_init
    = Ok (counters r) /\
  report_of (counters r) nsims = Ok r.
Proof.
  unfold main, floordiv. intros H.
  destruct (Z.eqb_spec numProcesses 0) as [| Hne]; [discriminate |].
  split; [exact Hne |].
  destruct (join_and_drain pipe STEPS_MAX _ stats_init) as [[st | e |] |] eqn:E;
    try discriminate.
  apply join_and_drain_Ok in E. destruct E as [Hf Hd].
  split; [exact Hf |].
  inversion H as [Hr]. destruct (report_of_fields _ _ _ Hr) as [Hc _].
  rewrite Hc. split; [exact Hd | congruence].
Qed.

Lemma main_counters (pipe : nat) (nx ny : Z) (probability : float)
  (nsims seed0 numProcesses : Z) (r : report) :
  main pipe nx ny probability nsims seed0 numProcesses = Ends (Ok r) ->
  drain STEPS_MAX
    (concat (map fst (run_workers nx ny probability (nsims / numProcesses)
                        seed0 numProcesses))) stats_init
    = Ok (counters r).
Proof. intros H. apply main_Ok in H. tauto. Qed.

Section Main.

Variables (nx ny : Z) (probability : float) (nsims seed0 numProcesses : Z).

Hypothesis Hnx : 1 <= nx < MAX_Y.

Hypothesis Hny : 1 <= ny < MAX_X.

Hypothesis Hnsims : 1 <= nsims < 2 ^ 53.

Hypothesis Hprocs : 1 <= numProcesses.

Lemma run_workers_small :
  Forall (fun r => 0 <= fst r < 2 ^ 53 /\ 0 <= snd r < 2 ^ 53)
    (concat (map fst (run_workers nx ny probability (nsims / numProcesses)
                        seed0 numProcesses))).
Proof.
  apply Forall_concat. apply Forall_map. unfold run_workers.
  rewrite Forall_map. apply Forall_forall. intros i _.
  destruct (worker_spec nx ny STEPS_MAX UNCHANGED_MAX probability seed0
              (nsims / numProcesses) (i + 1) Hnx Hny) as (H1 & _).
  eapply Forall_impl; [| exact H1]. intros r. apply bounded_result_small; assumption.
Qed.

Lemma run_workers_total :
  len (concat (map fst (run_workers nx ny probability (nsims / numProcesses)
                          seed0 numProcesses))) <= nsims.
Proof.
  set (workers := run_workers nx ny probability (nsims / numProcesses)
                    seed0 numProcesses).
  pose proof (len_concat_le (map fst workers) (Z.max 0 (nsims / numProcesses))) as Hle.
  assert (Hq : Forall (fun q => len q <= Z.max 0 (nsims / numProcesses))
                 (map fst workers)).
  { apply Forall_map. unfold workers, run_workers. rewrite Forall_map.
    apply Forall_forall. intros i _. apply worker_length. }
  specialize (Hle Hq). unfold len at 2 in Hle. rewrite length_map in Hle.
  fold (len workers) in Hle. unfold workers in Hle at 2.
  rewrite len_run_workers in Hle.
  pose proof (Z.mul_div_le nsims numProcesses ltac:(lia)).
  assert (0 <= nsims / numProcesses) by (apply Z.div_pos; lia).
  replace (Z.max 0 numProcesses) with numProcesses in Hle by lia.
  replace (Z.max 0 (nsims / numProcesses)) with (nsims / numProcesses) in Hle by lia.
  lia.
Qed.

(** The counters of the drained queues give a report. *)
Lemma report_returns (st : stats) :
  drain STEPS_MAX
    (concat (map fst (run_workers nx ny probability (nsims / numProcesses)
                        seed0 numProcesses))) stats_init = Ok st ->
  stats_ok st /\
  counted st =
    len (concat (map fst (run_workers nx ny probability
                            (nsims / numProcesses) seed0 numProcesses))) /\
  exists r, report_of st nsims = Ok r.
Proof.
  intros Est.
  destruct (drain_spec _ _ _ _ Est) as [Hcount Hok].
  specialize (Hok stats_ok_init).
  assert (Hc : counted st =
               len (concat (map fst (run_workers nx ny probability
                                       (nsims / numProcesses) seed0 numProcesses)))).
  { rewrite Hcount. unfold counted, stats_init. simpl. lia. }
  split; [exact Hok |]. split; [exact Hc |].
  pose proof run_workers_total as Hlen.
  pose proof Hok as (Hd & Hu & Hs & _).
  assert (Hcs : counted st <= nsims) by lia.
  unfold counted in Hcs.
  destruct (averages_spec st Hok ltac:(lia)) as [Havg0 Havg1].
  assert (Havg : exists avg, averages st = Ok avg).
  { destruct (Z.eq_dec (nstable st) 0) as [E0 | E0].
    - eexists. apply Havg0. exact E0.
    - destruct Havg1 as (n & _ & _ & E1); [lia |]. eexists. exact E1. }
  destruct Havg as (avg & Eavg).
  destruct (percent_returns (ndied st) nsims) as (pd & Epd); [lia | lia |].
  destruct (percent_returns (nunsettled st) nsims) as (pu & Epu); [lia | lia |].
  destruct (percent_returns (nstable st) nsims) as (ps & Eps); [lia | lia |].
  unfold report_of. rewrite Eavg. cbn [bind]. rewrite Epd, Epu, Eps. cbn [bind].
  eexists. reflexivity.
Qed.

(** [main] reports, or it waits forever in a [join]. *)
Lemma main_cases (pipe : nat) :
  main pipe nx ny probability nsims seed0 numProcesses = Hangs \/
  exists r, main pipe nx ny probability nsims seed0 numProcesses = Ends (Ok r).
Proof.
  unfold main, floordiv.
  destruct (Z.eqb_spec numProcesses 0) as [E | _]; [lia |].
  cbv zeta.
  destruct (Forall_Exists_dec (fits pipe)
              (fun w => le_dec (length (fst w)) pipe)
              (run_workers nx ny probability (nsims / numProcesses) seed0
                 numProcesses)) as [Hf | Hex].
  - right. rewrite (join_and_drain_fits _ _ _ _ Hf).
    destruct (drain_returns STEPS_MAX _ stats_init run_workers_small) as (st & Est).
    rewrite Est. destruct (report_returns st Est) as (_ & _ & r & Er).
    exists r. rewrite Er. reflexivity.
  - left. rewrite (join_and_drain_hangs _ _ _ _ run_workers_small Hex). reflexivity.
Qed.

(** [main] returns a report when the results of every worker fit in the
    pipe of its queue, and the report is what the code computes from the
    counters. *)
Lemma main_returns (pipe : nat) :
  Forall (fits pipe)
    (run_workers nx ny probability (nsims / numProcesses) seed0 numProcesses) ->
  exists r, main pipe nx ny probability nsims seed0 numProcesses = Ends (Ok r) /\
    stats_ok (counters r) /\
    counted (counters r) =
      len (concat (map fst (run_workers nx ny probability
                              (nsims / numProcesses) seed0 numProcesses))) /\
    counted (counters r) <= nsims /\
    averages (counters r) = Ok (avgStepsStable r, avgVegiesStable r) /\
    percent (ndied (counters r)) nsims = Ok (percentDied r) /\
    percent (nunsettled (counters r)) nsims = Ok (percentUnsettled r) /\
    percent (nstable (counters r)) nsims = Ok (percentStabilized r).
Proof.
  intros Hf.
  destruct (drain_returns STEPS_MAX _ stats_init run_workers_small) as (st & Est).
  destruct (report_returns st Est) as (Hok & Hc & r & Er).
  destruct (report_of_fields _ _ _ Er) as (Hcr & Havg & Hpd & Hpu & Hps).
  exists r. split.
  - unfold main, floordiv.
    destruct (Z.eqb_spec numProcesses 0) as [E | _]; [lia |].
    cbv zeta. rewrite (join_and_drain_fits _ _ _ _ Hf), Est, Er. reflexivity.
  - rewrite Hcr. pose proof run_workers_total.
    split; [exact Hok |]. split; [exact Hc |]. split; [lia |]. auto.
Qed.

(** [main] waits forever when the results of a worker do not fit. *)
Lemma main_hangs (pipe : nat) :
  Exists (fun w => ~ fits pipe w)
    (run_workers nx ny probability (nsims / numProcesses) seed0 numProcesses) ->
  main pipe nx ny probability nsims seed0 numProcesses = Hangs.
Proof.
  intros Hex. unfold main, floordiv.
  destruct (Z.eqb_spec numProcesses 0) as [E | _]; [lia |].
  cbv zeta. rewrite (join_and_drain_hangs _ _ _ _ run_workers_small Hex). reflexivity.
Qed.

End Main.

(** ** Floats: shifting a mantissa *)




Lemma even_mul_pow2 (m n : Z) : 0 < n -> Z.even (m * 2 ^ n) = true.
Proof.
  intros H. replace n with (Z.succ (n - 1)) by lia.
  rewrite Z.pow_succ_r by lia. rewrite Z.mul_assoc, (Z.mul_comm m 2), <- Z.mul_assoc.
  rewrite Z.even_mul. reflexivity.
Qed.



(** ** Floats: the number of digits *)





(** ** Floats: rounding what needs no rounding *)



(** ** Floats: integers of at most 53 digits *)


Section Canon.

Variable p : positive.

Hypothesis Hp : Z.pos p < 2 ^ 53.






End Canon.





(** ** Floats: the conversions between integers and floats *)




(** ** Floats: exact products and differences *)









(** ** Floats: what rounding can change *)










(** ** Floats: the quotient by mm *)




(** ** rand1 on seeds below 2^38 *)







(** ** Uniform grids and grids with the same interior *)

Lemma torus_range (n k : Z) : 1 <= n -> 1 <= torus n k <= n.
Proof.
  intros Hn. unfold torus. pose proof (Z.mod_pos_bound (k - 1) n ltac:(lia)). lia.
Qed.

Lemma torus_neighbors_ext (nx ny : Z) (g1 g2 : grid) (i j : Z) :
  1 <= nx -> 1 <= ny -> same_interior nx ny g1 g2 ->
  1 <= i <= nx -> 1 <= j <= ny ->
  torus_neighbors nx ny g1 i j = torus_neighbors nx ny g2 i j.
Proof.
  intros Hnx Hny H Hi Hj. unfold torus_neighbors.
  pose proof (torus_range nx (i - 1) Hnx). pose proof (torus_range nx (i + 1) Hnx).
  pose proof (torus_range ny (j - 1) Hny). pose proof (torus_range ny (j + 1) Hny).
  rewrite !(H _ _) by assumption. reflexivity.
Qed.

Lemma torus_neighbors_uniform (nx ny : Z) (g : grid) (c i j : Z) :
  1 <= nx -> 1 <= ny -> uniform nx ny g c ->
  1 <= i <= nx -> 1 <= j <= ny ->
  torus_neighbors nx ny g i j = 8 * c.
Proof.
  intros Hnx Hny H Hi Hj. unfold torus_neighbors.
  pose proof (torus_range nx (i - 1) Hnx). pose proof (torus_range nx (i + 1) Hnx).
  pose proof (torus_range ny (j - 1) Hny). pose proof (torus_range ny (j + 1) Hny).
  rewrite !(H _ _) by assumption. lia.
Qed.

Lemma zsum_map_ext (f h : Z -> Z) (l : list Z) :
  (forall k, In k l -> f k = h k) -> zsum (map f l) = zsum (map h l).
Proof.
  induction l as [| k l IH]; intros H; simpl; [reflexivity |].
  rewrite H by (left; reflexivity). rewrite IH; [reflexivity |].
  intros k' Hk'. apply H. right. exact Hk'.
Qed.

Lemma total_ext (nx ny : Z) (g1 g2 : grid) :
  same_interior nx ny g1 g2 -> total g1 nx ny = total g2 nx ny.
Proof.
  intros H. unfold total. apply zsum_map_ext. intros i Hi. apply in_xrange in Hi.
  apply zsum_map_ext. intros j Hj. apply in_xrange in Hj. apply H; lia.
Qed.

Lemma total_uniform (nx ny : Z) (g : grid) (c : Z) :
  0 <= nx -> 0 <= ny -> uniform nx ny g c -> total g nx ny = c * (nx * ny).
Proof.
  intros Hnx Hny H.
  pose proof (total_bounds g nx ny c c Hnx Hny) as Hb.
  assert (c * (nx * ny) <= total g nx ny <= c * (nx * ny)).
  { apply Hb. intros i j Hi Hj. rewrite (H i j Hi Hj). lia. }
  lia.
Qed.

(** ** How the loop of gameOfLife ends *)

Lemma exit_inv_body (R C nx ny maxSteps maxUnchanged : Z) (s : life) :
  1 <= nx < MAX_Y -> 1 <= ny < MAX_X -> nx + 1 < R -> ny + 1 < C ->
  run_inv R C nx ny maxSteps s /\ exit_inv maxUnchanged s ->
  loop_cond maxSteps s = true ->
  exists s', loop_body nx ny maxUnchanged s = Ok s' /\
    (run_inv R C nx ny maxSteps s' /\ exit_inv maxUnchanged s') /\
    (converged s' = true \/ steps s' = steps s + 1).
Proof.
  intros Hnx Hny HR HC [Hinv [_ Hopen]] Hcond.
  destruct (run_inv_body R C nx ny maxSteps maxUnchanged Hnx Hny HR HC s Hinv Hcond)
    as (s' & E & Hinv' & Hprog).
  exists s'. split; [exact E |]. split; [| exact Hprog]. split; [exact Hinv' |].
  destruct (loop_body_spec R C MAX_Y MAX_X nx ny) with (maxUnchanged := maxUnchanged) (s := s)
    as (s'' & E' & _ & Hv & Hstreak & _ & _ & _ & Hif); try lia; [apply Hinv |].
  rewrite E in E'. inversion E'; subst s''. clear E'.
  unfold loop_cond in Hcond. apply andb_prop in Hcond. destruct Hcond as [Hc _].
  apply andb_prop in Hc. destruct Hc as [Hc _]. apply negb_true_iff in Hc.
  specialize (Hopen Hc).
  assert (Hv0 : 0 <= vegies s').
  { destruct Hinv as (_ & _ & _ & Hr).
    pose proof (total_bounds (the_grid s) nx ny 0 10 ltac:(lia) ltac:(lia) Hr). lia. }
  assert (Hst : 1 <= steps s) by apply Hinv.
  unfold streak in Hstreak. rewrite Hc in Hstreak.
  destruct ((vegies s' =? oldVegies s) || (vegies s' =? old2Vegies s)
            || (vegies s' =? old3Vegies s)) eqn:Ehit.
  - assert (Hn : nUnchanged s <= steps s - 2).
    { destruct Hopen as [(_ & _ & H1 & H2 & H3) | H]; [| exact H].
      rewrite H1, H2, H3 in Ehit.
      destruct (Z.eqb_spec (vegies s') (-1)); [lia | discriminate]. }
    cbn [fst snd] in Hstreak. injection Hstreak as Hn' Hcv.
    destruct (Z.leb_spec maxUnchanged (nUnchanged s + 1)).
    + rewrite Hcv in Hif. destruct Hif as [Hs' _]. split.
      * intros _. lia.
      * rewrite Hcv. discriminate.
    + rewrite Hcv in Hif. destruct Hif as [Hs' _]. split.
      * rewrite Hcv. discriminate.
      * intros _. right. lia.
  - injection Hstreak as Hn' Hcv. rewrite Hcv in Hif. destruct Hif as [Hs' _]. split.
    + rewrite Hcv. discriminate.
    + intros _. right. lia.
Qed.

(** ** A full grid *)

Lemma loop_body_uniform (R C nx ny maxUnchanged : Z) (s : life) (c : Z) :
  1 <= nx < MAX_Y -> 1 <= ny < MAX_X -> nx + 1 < R -> ny + 1 < C ->
  wf_life R C MAX_Y MAX_X s -> uniform nx ny (the_grid s) c ->
  exists s', loop_body nx ny maxUnchanged s = Ok s' /\
    wf_life R C MAX_Y MAX_X s' /\
    vegies s' = c * (nx * ny) /\
    (nUnchanged s', converged s') = streak maxUnchanged s (c * (nx * ny)) /\
    oldVegies s' = c * (nx * ny) /\
    old2Vegies s' = oldVegies s /\
    old3Vegies s' = old2Vegies s /\
    (if converged s' then steps s' = steps s /\ uniform nx ny (the_grid s') c
     else steps s' = steps s + 1 /\ uniform nx ny (the_grid s') (rule c (8 * c))).
Proof.
  intros Hnx Hny HR HC Hwf Hu.
  destruct (loop_body_spec R C MAX_Y MAX_X nx ny) with (maxUnchanged := maxUnchanged) (s := s)
    as (s' & E & Hwf' & Hv & Hstreak & Ho1 & Ho2 & Ho3 & Hif); try lia; [exact Hwf |].
  rewrite (total_uniform _ _ _ c) in Hv by (lia || assumption).
  rewrite Hv in Hstreak, Ho1.
  exists s'. repeat (split; [assumption |]).
  destruct (converged s').
  - destruct Hif as [Hst Hg]. split; [exact Hst |]. rewrite Hg. exact Hu.
  - destruct Hif as [Hst Hcells]. split; [exact Hst |].
    intros i j Hi Hj. rewrite Hcells by assumption.
    rewrite (Hu i j Hi Hj).
    rewrite (torus_neighbors_uniform nx ny _ c) by (lia || assumption). reflexivity.
Qed.

Lemma plateau_loop (R C nx ny maxSteps m c : Z) :
  1 <= nx < MAX_Y -> 1 <= ny < MAX_X -> nx + 1 < R -> ny + 1 < C ->
  1 <= c -> rule c (8 * c) = c ->
  forall (d fuel : nat) (s : life),
    wf_life R C MAX_Y MAX_X s -> uniform nx ny (the_grid s) c ->
    converged s = false -> 0 < vegies s -> oldVegies s = c * (nx * ny) ->
    m = nUnchanged s + 1 + Z.of_nat d ->
    steps s + Z.of_nat d < maxSteps -> (d < fuel)%nat ->
    exists s', life_loop fuel nx ny maxSteps m s = Ok s' /\
      steps s' = steps s + Z.of_nat d /\ vegies s' = c * (nx * ny) /\
      converged s' = true /\ uniform nx ny (the_grid s') c.
Proof.
  intros Hnx Hny HR HC Hc Hfix.
  induction d as [| d IH]; intros fuel s Hwf Hu Hconv Hveg Hold Hm Hsteps Hfuel;
    (destruct fuel as [| fuel]; [lia |]);
    (rewrite life_loop_step;
     [| unfold loop_cond; rewrite Hconv; simpl;
        destruct (Z.ltb_spec 0 (vegies s)); [| lia];
        destruct (Z.ltb_spec (steps s) maxSteps); [reflexivity | lia]]);
    destruct (loop_body_uniform R C nx ny m s c Hnx Hny HR HC Hwf Hu)
      as (s' & E & Hwf' & Hv & Hstreak & Ho1 & _ & _ & Hif);
    rewrite E; simpl;
    unfold streak in Hstreak; rewrite Hold, Z.eqb_refl in Hstreak; simpl in Hstreak;
    injection Hstreak as Hn Hcv.
  - destruct (Z.leb_spec m (nUnchanged s + 1)); [| lia].
    rewrite Hcv in Hif. destruct Hif as [Hst Hu'].
    rewrite life_loop_exit by (unfold loop_cond; rewrite Hcv; reflexivity).
    exists s'. repeat split; try assumption. lia.
  - destruct (Z.leb_spec m (nUnchanged s + 1)); [lia |].
    rewrite Hconv in Hcv. rewrite Hcv in Hif. destruct Hif as [Hst Hu'].
    rewrite Hfix in Hu'.
    assert (Hpos : 0 < vegies s') by (rewrite Hv; nia).
    destruct (IH fuel s') as (s2 & E2 & Hst2 & Hv2 & Hc2 & Hu2);
      try assumption; try lia.
    exists s2. repeat split; try assumption. lia.
Qed.

(** ** The grid that worker reuses *)

Section Simulation.

Variables (R C Rt Ct nx ny maxSteps maxUnchanged : Z).

Hypothesis Hnx : 1 <= nx.

Hypothesis Hny : 1 <= ny.

Hypothesis HR : nx + 1 < R.

Hypothesis HC : ny + 1 < C.

Hypothesis HRt : nx < Rt.

Hypothesis HCt : ny < Ct.

Lemma loop_body_sim (s1 s2 s1' : life) :
  wf_life R C Rt Ct s1 -> wf_life R C Rt Ct s2 -> life_sim nx ny s1 s2 ->
  loop_body nx ny maxUnchanged s1 = Ok s1' ->
  exists s2', loop_body nx ny maxUnchanged s2 = Ok s2' /\
    wf_life R C Rt Ct s1' /\ wf_life R C Rt Ct s2' /\ life_sim nx ny s1' s2'.
Proof.
  intros Hwf1 Hwf2 (Hst & Hcv & Hn & Ho1 & Ho2 & Ho3 & Hv & Hg) E1.
  destruct (loop_body_spec R C Rt Ct nx ny Hnx Hny HR HC HRt HCt maxUnchanged s1 Hwf1)
    as (t1 & F1 & Hwt1 & Hv1 & Hs1 & Ha1 & Hb1 & Hc1 & Hif1).
  rewrite E1 in F1. inversion F1; subst t1. clear F1.
  destruct (loop_body_spec R C Rt Ct nx ny Hnx Hny HR HC HRt HCt maxUnchanged s2 Hwf2)
    as (s2' & E2 & Hwt2 & Hv2 & Hs2 & Ha2 & Hb2 & Hc2 & Hif2).
  exists s2'. split; [exact E2 |]. split; [exact Hwt1 |]. split; [exact Hwt2 |].
  assert (Hvv : vegies s1' = vegies s2').
  { rewrite Hv1, Hv2. apply total_ext. exact Hg. }
  assert (Hss : streak maxUnchanged s1 (vegies s1') = streak maxUnchanged s2 (vegies s2')).
  { unfold streak. rewrite Hvv, Ho1, Ho2, Ho3, Hn, Hcv. reflexivity. }
  rewrite Hss, <- Hs2 in Hs1. injection Hs1 as Hn' Hcv'.
  unfold life_sim. rewrite Hcv' in Hif1.
  destruct (converged s2').
  - destruct Hif1 as [Hst1 Hg1], Hif2 as [Hst2 Hg2].
    repeat split; try congruence. rewrite Hg1, Hg2. exact Hg.
  - destruct Hif1 as [Hst1 Hg1], Hif2 as [Hst2 Hg2].
    repeat split; try congruence; try lia.
    intros i j Hi Hj. rewrite Hg1, Hg2 by assumption.
    rewrite (Hg i j Hi Hj).
    rewrite (torus_neighbors_ext nx ny _ _ i j Hnx Hny Hg Hi Hj). reflexivity.
Qed.

Lemma life_loop_sim (fuel : nat) (s1 s2 s1' : life) :
  wf_life R C Rt Ct s1 -> wf_life R C Rt Ct s2 -> life_sim nx ny s1 s2 ->
  life_loop fuel nx ny maxSteps maxUnchanged s1 = Ok s1' ->
  exists s2', life_loop fuel nx ny maxSteps maxUnchanged s2 = Ok s2' /\
    wf_life R C Rt Ct s1' /\ wf_life R C Rt Ct s2' /\ life_sim nx ny s1' s2'.
Proof.
  revert s1 s2. induction fuel as [| fuel IH]; intros s1 s2 Hwf1 Hwf2 Hsim E.
  - assert (Hc : loop_cond maxSteps s2 = loop_cond maxSteps s1).
    { destruct Hsim as (Hst & Hcv & _ & _ & _ & _ & Hv & _).
      unfold loop_cond. rewrite Hst, Hcv, Hv. reflexivity. }
    simpl in *. rewrite Hc. destruct (loop_cond maxSteps s1); [discriminate |].
    inversion E; subst. exists s2. auto.
  - assert (Hc : loop_cond maxSteps s2 = loop_cond maxSteps s1).
    { destruct Hsim as (Hst & Hcv & _ & _ & _ & _ & Hv & _).
      unfold loop_cond. rewrite Hst, Hcv, Hv. reflexivity. }
    destruct (loop_cond maxSteps s1) eqn:Ec.
    + rewrite life_loop_step in E by exact Ec.
      rewrite life_loop_step by (rewrite Hc; reflexivity).
      inv_bind E.
      destruct (loop_body_sim s1 s2 a Hwf1 Hwf2 Hsim Ha) as (b & Eb & Hwa & Hwb & Hab).
      rewrite Eb. cbn [bind]. apply (IH a b); assumption.
    + rewrite life_loop_exit in E by exact Ec. inversion E; subst.
      rewrite life_loop_exit by (rewrite Hc; reflexivity).
      exists s2. auto.
Qed.

End Simulation.

(** [gameOfLife] reads nothing but the interior of the grid it is given. *)
Lemma gameOfLife_ext (R C nx ny maxSteps maxUnchanged : Z) (g1 g2 g1' : grid)
  (r : Z * Z) :
  1 <= nx < MAX_Y -> 1 <= ny < MAX_X -> nx + 1 < R -> ny + 1 < C ->
  wf R C g1 -> wf R C g2 -> same_interior nx ny g1 g2 ->
  gameOfLife g1 nx ny maxSteps maxUnchanged = Ok (g1', r) ->
  exists g2', gameOfLife g2 nx ny maxSteps maxUnchanged = Ok (g2', r) /\
    wf R C g1' /\ wf R C g2' /\ same_interior nx ny g1' g2'.
Proof.
  intros Hnx Hny HR HC Hg1 Hg2 Hsame E. unfold gameOfLife in *.
  inv_bind E. inversion E; subst. clear E.
  destruct (life_loop_sim R C MAX_Y MAX_X nx ny maxSteps maxUnchanged)
    with (fuel := Z.to_nat maxSteps) (s1 := life_init g1) (s2 := life_init g2) (s1' := a)
    as (b & Eb & Hwa & Hwb & Hab); try lia.
  - split; [exact Hg1 | apply wf_tempGrid].
  - split; [exact Hg2 | apply wf_tempGrid].
  - unfold life_sim, life_init. simpl. repeat split; try reflexivity. exact Hsame.
  - exact Ha.
  - rewrite Eb. cbn [bind]. exists (the_grid b).
    destruct Hab as (Hst & _ & _ & _ & _ & _ & Hv & Hg).
    rewrite Hst, Hv. split; [reflexivity |].
    split; [apply Hwa |]. split; [apply Hwb | exact Hg].
Qed.

(** Every draw of a run of [initializeGrid] that returned has returned. *)
Lemma initializeGrid_draws (R C : Z) (g g' : grid) (nx ny seed : Z) (prob : float) :
  wf R C g -> 0 <= nx < R -> 0 <= ny < C ->
  initializeGrid g nx ny seed prob = Ok g' ->
  forall i j, 1 <= i <= nx -> 1 <= j <= ny ->
    exists r, rand1 (seed + (ny * i + j)) = Ok r.
Proof.
  intros Hwf Hnx Hny E.
  assert (H : wf R C g' /\
              forall i j, 1 <= i < nx + 1 -> 1 <= j <= ny ->
                exists r, rand1 (seed + (ny * i + j)) = Ok r).
  { revert E. unfold initializeGrid.
    apply (for_range_inv_ok _
             (fun k g => wf R C g /\
                forall i j, 1 <= i < k -> 1 <= j <= ny ->
                  exists r, rand1 (seed + (ny * i + j)) = Ok r)); [lia | |].
    - split; [exact Hwf |]. intros; lia.
    - intros i s s' Hi [Hs Hd] Erow.
      assert (Hrow : wf R C s' /\
                     forall j, 1 <= j < ny + 1 ->
                       exists r, rand1 (seed + (ny * i + j)) = Ok r).
      { revert Erow.
        apply (for_range_inv_ok _
                 (fun k g => wf R C g /\
                    forall j, 1 <= j < k ->
                      exists r, rand1 (seed + (ny * i + j)) = Ok r)); [lia | |].
        - split; [exact Hs |]. intros; lia.
        - intros j t t' Hj [Ht Hdj] Ecell.
          apply (init_cell_ok R C) in Ecell; [| assumption | lia | lia].
          destruct Ecell as (r & Er & Hw & _). split; [exact Hw |].
          intros j' Hj'. destruct (Z.eq_dec j' j) as [-> | Hne].
          + exists r. exact Er.
          + apply Hdj. lia. }
      destruct Hrow as [Hs' Hdrow]. split; [exact Hs' |].
      intros i' j Hi' Hj. destruct (Z.eq_dec i' i) as [-> | Hne].
      + apply Hdrow. lia.
      + apply Hd; lia. }
  intros i j Hi Hj. apply H; lia.
Qed.

Lemma trial_ext (R C nx ny maxSteps maxUnchanged : Z) (prob : float)
  (seed0 mySims myProcess k : Z) (g1 g2 g1' : grid) (r : Z * Z) :
  1 <= nx < MAX_Y -> 1 <= ny < MAX_X -> nx + 1 < R -> ny + 1 < C ->
  wf R C g1 -> wf R C g2 ->
  trial nx ny maxSteps maxUnchanged prob seed0 mySims myProcess k g1 = Ok (g1', r) ->
  exists g2',
    trial nx ny maxSteps maxUnchanged prob seed0 mySims myProcess k g2 = Ok (g2', r) /\
    wf R C g1' /\ wf R C g2' /\ same_interior nx ny g1' g2'.
Proof.
  intros Hnx Hny HR HC Hg1 Hg2 E. unfold trial in *. inv_bind E.
  set (seed := seed0 * (myProcess * mySims - k)) in *.
  pose proof (initializeGrid_draws R C g1 a nx ny seed prob Hg1
                ltac:(lia) ltac:(lia) Ha) as Hdraws.
  set (draw := fun i j => match rand1 (seed + (ny * i + j)) with
                          | Ok x => x
                          | _ => 0%float
                          end).
  assert (Hdraw : forall i j, 1 <= i <= nx -> 1 <= j <= ny ->
                    rand1 (seed + (ny * i + j)) = Ok (draw i j)).
  { intros i j Hi Hj. destruct (Hdraws i j Hi Hj) as (x & Ex).
    unfold draw. rewrite Ex. reflexivity. }
  destruct (initializeGrid_spec R C g1 nx ny seed prob draw Hg1
              ltac:(lia) ltac:(lia) Hdraw) as (a1 & Ea1 & Hwa1 & Hc1).
  rewrite Ha in Ea1. inversion Ea1; subst a1. clear Ea1.
  destruct (initializeGrid_spec R C g2 nx ny seed prob draw Hg2
              ltac:(lia) ltac:(lia) Hdraw) as (a2 & Ea2 & Hwa2 & Hc2).
  rewrite Ea2. cbn [bind].
  apply (gameOfLife_ext R C nx ny maxSteps maxUnchanged a a2 g1' r); try assumption.
  intros i j Hi Hj. rewrite Hc1, Hc2 by lia.
  assert (Hin : interior nx ny i j = true).
  { unfold interior. destruct (Z.leb_spec 1 i); [| lia].
    destruct (Z.leb_spec i nx); [| lia]. destruct (Z.leb_spec 1 j); [| lia].
    destruct (Z.leb_spec j ny); [reflexivity | lia]. }
  rewrite Hin. reflexivity.
Qed.

(** ** The trials of a run, by number *)

Lemma NoDup_count_from (n : nat) (a : Z) : NoDup (count_from n a).
Proof.
  revert a. induction n as [| n IH]; intros a; simpl; constructor.
  - rewrite in_count_from. lia.
  - apply IH.
Qed.

Lemma NoDup_xrange (a b : Z) : NoDup (xrange a b).
Proof. apply NoDup_count_from. Qed.

Lemma NoDup_map_in {A B : Type} (f : A -> B) (l : list A) :
  (forall x y, In x l -> In y l -> f x = f y -> x = y) ->
  NoDup l -> NoDup (map f l).
Proof.
  intros Hinj Hl. induction Hl as [| a l Ha Hl IH]; simpl; constructor.
  - rewrite in_map_iff. intros (y & E & Hy).
    apply Hinj in E; [subst; contradiction | right; exact Hy | left; reflexivity].
  - apply IH. intros x y Hx Hy. apply Hinj; right; assumption.
Qed.

Lemma in_trial_numbers (q P k : Z) :
  0 <= q -> 0 <= P ->
  In k (trial_numbers q P) <-> 1 <= k <= P * q.
Proof.
  intros Hq HP. unfold trial_numbers. rewrite in_flat_map. split.
  - intros (p & Hp & Hk). apply in_xrange in Hp. apply in_map_iff in Hk.
    destruct Hk as (i & <- & Hi). apply in_xrange in Hi. nia.
  - intros Hk. assert (Hq1 : 1 <= q) by nia. exists ((k - 1) / q).
    pose proof (Z.div_mod (k - 1) q ltac:(lia)) as Hdm.
    pose proof (Z.mod_pos_bound (k - 1) q ltac:(lia)) as Hmod.
    assert (Hp0 : 0 <= (k - 1) / q) by (apply Z.div_pos; lia).
    assert (HpP : (k - 1) / q < P) by (apply Z.div_lt_upper_bound; nia).
    split; [apply in_xrange; lia |].
    apply in_map_iff. exists (((k - 1) / q + 1) * q - k).
    split; [lia |]. apply in_xrange. nia.
Qed.

Lemma NoDup_trial_numbers (q P : Z) : 0 <= q -> NoDup (trial_numbers q P).
Proof.
  intros Hq. unfold trial_numbers, xrange at 2. generalize (Z.to_nat (P - 0)) as n.
  assert (H : forall n a, 0 <= a ->
            NoDup (flat_map (fun p => map (fun i => (p + 1) * q - i) (xrange 0 q))
                     (count_from n a)) /\
            forall k, In k (flat_map (fun p => map (fun i => (p + 1) * q - i) (xrange 0 q))
                              (count_from n a)) -> a * q < k).
  { induction n as [| n IH]; intros a Ha; simpl.
    - split; [constructor | intros k []].
    - destruct (IH (a + 1) ltac:(lia)) as [Hnd Hlow]. split.
      + apply NoDup_app.
        * apply NoDup_map_in; [| apply NoDup_xrange]. intros x y _ _ E. lia.
        * exact Hnd.
        * intros k Hk Hk'. apply Hlow in Hk'. apply in_map_iff in Hk.
          destruct Hk as (i & <- & Hi). apply in_xrange in Hi. nia.
      + intros k Hk. apply in_app_or in Hk. destruct Hk as [Hk | Hk].
        * apply in_map_iff in Hk. destruct Hk as (i & <- & Hi).
          apply in_xrange in Hi. nia.
        * apply Hlow in Hk. nia. }
  intros n. apply (H n 0). lia.
Qed.

(** The trial numbers of a run on [P] processes are those of the run of the
    same trials on one process, in another order. *)
Lemma trial_numbers_perm (q P : Z) :
  1 <= q -> 0 <= P ->
  Permutation (trial_numbers q P) (trial_numbers (P * q) 1).
Proof.
  intros Hq HP. apply NoDup_Permutation; try (apply NoDup_trial_numbers; nia).
  intros k. rewrite !in_trial_numbers by nia. lia.
Qed.

Lemma Permutation_filter {A : Type} (f : A -> bool) (l l' : list A) :
  Permutation l l' -> Permutation (filter f l) (filter f l').
Proof.
  induction 1 as [| x l l' _ IH | x y l | l l' l'' _ IH1 _ IH2]; simpl.
  - constructor.
  - destruct (f x); [constructor |]; exact IH.
  - destruct (f x), (f y); try apply Permutation_refl. constructor.
  - eapply Permutation_trans; eassumption.
Qed.

Lemma trial_number_eq (nx ny maxSteps maxUnchanged : Z) (prob : float)
  (seed0 mySims myProcess i k : Z) (g : grid) :
  k = myProcess * mySims - i ->
  trial nx ny maxSteps maxUnchanged prob seed0 mySims myProcess i g =
  trial nx ny maxSteps maxUnchanged prob seed0 k 1 0 g.
Proof.
  intros ->. unfold trial.
  replace (1 * (myProcess * mySims - i) - 0) with (myProcess * mySims - i) by lia.
  reflexivity.
Qed.

Section WorkerQueue.

Variables (nx ny maxSteps maxUnchanged : Z) (prob : float).

Variables (seed0 mySims myProcess : Z).

Hypothesis Hnx : 1 <= nx < MAX_Y.

Hypothesis Hny : 1 <= ny < MAX_X.

Lemma worker_loop_queue (ks : list Z) (g : grid) (queue : list (Z * Z)) :
  wf (MAX_Y + 2) (MAX_X + 2) g ->
  snd (worker_loop (trial nx ny maxSteps maxUnchanged prob seed0 mySims myProcess)
         ks g queue) = Ok tt ->
  fst (worker_loop (trial nx ny maxSteps maxUnchanged prob seed0 mySims myProcess)
         ks g queue) =
    queue ++ map (fun i => fresh_result nx ny maxSteps maxUnchanged prob seed0
                             (myProcess * mySims - i)) ks /\
  forall i, In i ks ->
    exists g' r, trial nx ny maxSteps maxUnchanged prob seed0
                   (myProcess * mySims - i) 1 0 (zeros (MAX_X + 2) (MAX_Y + 2))
                 = Ok (g', r).
Proof.
  revert g queue. induction ks as [| i ks IH]; intros g queue Hg Hok;
    cbn [worker_loop map] in *.
  - split; [rewrite app_nil_r; reflexivity | intros i []].
  - destruct (trial nx ny maxSteps maxUnchanged prob seed0 mySims myProcess i g)
      as [[g' r] | e |] eqn:E; cbn [snd] in Hok; try discriminate.
    rewrite (trial_number_eq _ _ _ _ _ _ _ _ _ (myProcess * mySims - i)) in E
      by reflexivity.
    destruct (trial_ext (MAX_Y + 2) (MAX_X + 2) nx ny maxSteps maxUnchanged prob
                seed0 (myProcess * mySims - i) 1 0 g (zeros (MAX_X + 2) (MAX_Y + 2))
                g' r) as (f' & Ef & Hg' & _);
      try (assumption || lia); [apply wf_worker_grid |].
    destruct (IH g' (queue ++ [r]) Hg' Hok) as [Hq Hall].
    split.
    + rewrite Hq, <- app_assoc. cbn [app]. unfold fresh_result at 2.
      rewrite Ef. reflexivity.
    + intros j [<- | Hj]; [exists f', r; exact Ef | apply Hall; exact Hj].
Qed.

Lemma worker_loop_finishes (ks : list Z) (g : grid) (queue : list (Z * Z)) :
  wf (MAX_Y + 2) (MAX_X + 2) g ->
  (forall i, In i ks ->
     exists g' r, trial nx ny maxSteps maxUnchanged prob seed0
                    (myProcess * mySims - i) 1 0 (zeros (MAX_X + 2) (MAX_Y + 2))
                  = Ok (g', r)) ->
  snd (worker_loop (trial nx ny maxSteps maxUnchanged prob seed0 mySims myProcess)
         ks g queue) = Ok tt.
Proof.
  revert g queue. induction ks as [| i ks IH]; intros g queue Hg Hall;
    cbn [worker_loop].
  - reflexivity.
  - destruct (Hall i (or_introl eq_refl)) as (f' & r & Ef).
    destruct (trial_ext (MAX_Y + 2) (MAX_X + 2) nx ny maxSteps maxUnchanged prob
                seed0 (myProcess * mySims - i) 1 0 (zeros (MAX_X + 2) (MAX_Y + 2))
                g f' r) as (g' & Eg & _ & Hg' & _);
      try (assumption || lia); [apply wf_worker_grid |].
    rewrite <- (trial_number_eq _ _ _ _ _ _ mySims myProcess i
                  (myProcess * mySims - i)) in Eg by reflexivity.
    rewrite Eg. apply IH; [exact Hg' |].
    intros j Hj. apply Hall. right. exact Hj.
Qed.

End WorkerQueue.

Lemma worker_queue (nx ny maxSteps maxUnchanged : Z) (prob : float)
  (seed0 mySims myProcess : Z) :
  1 <= nx < MAX_Y -> 1 <= ny < MAX_X ->
  snd (worker nx ny maxSteps maxUnchanged prob seed0 mySims myProcess) = Ok tt ->
  fst (worker nx ny maxSteps maxUnchanged prob seed0 mySims myProcess) =
    map (fun i => fresh_result nx ny maxSteps maxUnchanged prob seed0
                    (myProcess * mySims - i)) (xrange 0 mySims) /\
  forall i, 0 <= i < mySims ->
    exists g' r, trial nx ny maxSteps maxUnchanged prob seed0
                   (myProcess * mySims - i) 1 0 (zeros (MAX_X + 2) (MAX_Y + 2))
                 = Ok (g', r).
Proof.
  intros Hnx Hny Hok. unfold worker in *.
  destruct (worker_loop_queue nx ny maxSteps maxUnchanged prob seed0 mySims myProcess
              Hnx Hny (xrange 0 mySims) (zeros (MAX_X + 2) (MAX_Y + 2)) []
              wf_worker_grid Hok) as [Hq Hall].
  split; [exact Hq |]. intros i Hi. apply Hall. apply in_xrange. lia.
Qed.

Lemma worker_finishes (nx ny maxSteps maxUnchanged : Z) (prob : float)
  (seed0 mySims myProcess : Z) :
  1 <= nx < MAX_Y -> 1 <= ny < MAX_X ->
  (forall i, 0 <= i < mySims ->
     exists g' r, trial nx ny maxSteps maxUnchanged prob seed0
                    (myProcess * mySims - i) 1 0 (zeros (MAX_X + 2) (MAX_Y + 2))
                  = Ok (g', r)) ->
  snd (worker nx ny maxSteps maxUnchanged prob seed0 mySims myProcess) = Ok tt.
Proof.
  intros Hnx Hny Hall. unfold worker.
  apply (worker_loop_finishes nx ny maxSteps maxUnchanged prob seed0 mySims myProcess
           Hnx Hny); [apply wf_worker_grid |].
  intros i Hi. apply in_xrange in Hi. apply Hall. lia.
Qed.

(** The results drained from a run whose workers all finished, by trial
    number. *)
Lemma run_workers_results (nx ny : Z) (prob : float) (q seed0 P : Z) :
  1 <= nx < MAX_Y -> 1 <= ny < MAX_X ->
  Forall (fun w => snd w = Ok tt) (run_workers nx ny prob q seed0 P) ->
  concat (map fst (run_workers nx ny prob q seed0 P)) =
    map (fresh_result nx ny STEPS_MAX UNCHANGED_MAX prob seed0) (trial_numbers q P) /\
  forall k, In k (trial_numbers q P) ->
    exists g' r, trial nx ny STEPS_MAX UNCHANGED_MAX prob seed0 k 1 0
                   (zeros (MAX_X + 2) (MAX_Y + 2)) = Ok (g', r).
Proof.
  intros Hnx Hny Hall. unfold run_workers, trial_numbers in *.
  rewrite Forall_map in Hall. rewrite Forall_forall in Hall.
  split.
  - rewrite map_map, flat_map_concat_map, concat_map, map_map. f_equal.
    apply map_ext_in. intros p Hp. rewrite map_map.
    apply (worker_queue nx ny STEPS_MAX UNCHANGED_MAX prob seed0 q (p + 1) Hnx Hny).
    apply Hall. exact Hp.
  - intros k Hk. apply in_flat_map in Hk. destruct Hk as (p & Hp & Hk).
    apply in_map_iff in Hk. destruct Hk as (i & <- & Hi). apply in_xrange in Hi.
    apply (worker_queue nx ny STEPS_MAX UNCHANGED_MAX prob seed0 q (p + 1) Hnx Hny);
      [apply Hall; exact Hp | lia].
Qed.

Lemma run_workers_finish (nx ny : Z) (prob : float) (q seed0 P : Z) :
  1 <= nx < MAX_Y -> 1 <= ny < MAX_X ->
  (forall k, In k (trial_numbers q P) ->
     exists g' r, trial nx ny STEPS_MAX UNCHANGED_MAX prob seed0 k 1 0
                    (zeros (MAX_X + 2) (MAX_Y + 2)) = Ok (g', r)) ->
  Forall (fun w => snd w = Ok tt) (run_workers nx ny prob q seed0 P).
Proof.
  intros Hnx Hny Hall. unfold run_workers. rewrite Forall_map. apply Forall_forall.
  intros p Hp. apply worker_finishes; try assumption.
  intros i Hi. apply Hall. unfold trial_numbers. apply in_flat_map.
  exists p. split; [exact Hp |]. apply in_map_iff. exists i.
  split; [reflexivity | apply in_xrange; lia].
Qed.

Lemma stats_init_counters :
  ndied stats_init = 0 /\ nunsettled stats_init = 0 /\ nstable stats_init = 0.
Proof. repeat split. Qed.

Lemma drain_perm_counters (maxSteps : Z) (q1 q2 : list (Z * Z)) (st st1 st2 : stats) :
  Permutation q1 q2 ->
  drain maxSteps q1 st = Ok st1 -> drain maxSteps q2 st = Ok st2 ->
  ndied st1 = ndied st2 /\ nunsettled st1 = nunsettled st2 /\ nstable st1 = nstable st2.
Proof.
  intros Hp H1 H2.
  apply drain_classes in H1. apply drain_classes in H2.
  destruct H1 as (Hd1 & Hu1 & Hs1 & _), H2 as (Hd2 & Hu2 & Hs2 & _).
  unfold len in *.
  pose proof (Permutation_length (Permutation_filter died _ _ Hp)).
  pose proof (Permutation_length (Permutation_filter (unsettled maxSteps) _ _ Hp)).
  pose proof (Permutation_length (Permutation_filter (stabilized maxSteps) _ _ Hp)).
  lia.
Qed.

(** ** What a worker computes *)

Lemma Forall2_map_r {A B : Type} (R : A -> B -> Prop) (f : A -> B) (l : list A) :
  (forall x, In x l -> R x (f x)) -> Forall2 R l (map f l).
Proof.
  induction l as [| x l IH]; intros H; simpl; constructor.
  - apply H. left. reflexivity.
  - apply IH. intros y Hy. apply H. right. exact Hy.
Qed.

Lemma run_seeds_numbers (seed0 q P : Z) :
  run_seeds seed0 q P = map (fun k => seed0 * k) (trial_numbers q P).
Proof.
  unfold run_seeds, trial_numbers, worker_seeds.
  rewrite !flat_map_concat_map, concat_map, map_map. f_equal.
  apply map_ext. intros p. rewrite map_map. apply map_ext. intros i.
  unfold trial_seed. f_equal; lia.
Qed.

(** ** The prompt for the dimensions *)

Lemma prompt_dims_eq (inputs : list Z) (nx ny : Z) :
  prompt_dims inputs nx ny =
  if (MAX_X <? nx) || (MAX_Y <? ny) then
    match inputs with
    | a :: b :: rest => prompt_dims rest a b
    | _ => None
    end
  else Some (nx, ny, inputs).
Proof. destruct inputs; reflexivity. Qed.

Lemma too_large_test (a b : Z) :
  (MAX_X <? a) || (MAX_Y <? b) = true <-> too_large (a, b).
Proof.
  unfold too_large. simpl. rewrite orb_true_iff, !Z.ltb_lt. reflexivity.
Qed.

Lemma prompt_dims_accepts (n : nat) :
  forall (inputs : list Z) (a b nx ny : Z) (rest : list Z),
    (length inputs <= n)%nat ->
    prompt_dims inputs a b = Some (nx, ny, rest) ->
    exists rejected,
      a :: b :: inputs = typed rejected ++ nx :: ny :: rest /\
      Forall too_large rejected /\ nx <= MAX_X /\ ny <= MAX_Y.
Proof.
  induction n as [| n IH]; intros inputs a b nx ny rest Hlen H;
    rewrite prompt_dims_eq in H;
    destruct ((MAX_X <? a) || (MAX_Y <? b)) eqn:Et.
  - destruct inputs as [| x [| y l]]; simpl in Hlen; try discriminate; lia.
  - inversion H; subst. exists []. split; [reflexivity |]. split; [constructor |].
    apply orb_false_iff in Et. rewrite !Z.ltb_ge in Et. exact Et.
  - destruct inputs as [| x [| y l]]; try discriminate.
    apply IH in H; [| simpl in Hlen; lia].
    destruct H as (rej & E & Hrej & Hb).
    exists ((a, b) :: rej). split; [simpl; rewrite E; reflexivity |].
    split; [| exact Hb]. constructor; [| exact Hrej].
    apply too_large_test. exact Et.
  - inversion H; subst. exists []. split; [reflexivity |]. split; [constructor |].
    apply orb_false_iff in Et. rewrite !Z.ltb_ge in Et. exact Et.
Qed.

Lemma prompt_dims_skips (rejected : list (Z * Z)) (a b nx ny : Z) (rest : list Z) :
  Forall too_large rejected -> nx <= MAX_X -> ny <= MAX_Y ->
  too_large (a, b) ->
  prompt_dims (typed rejected ++ nx :: ny :: rest) a b = Some (nx, ny, rest).
Proof.
  intros Hrej Hx Hy. revert a b.
  induction Hrej as [| [c d] rej Hc _ IH]; intros a b Hab;
    rewrite prompt_dims_eq; apply too_large_test in Hab; rewrite Hab; simpl.
  - rewrite prompt_dims_eq.
    destruct (Z.ltb_spec MAX_X nx); [lia |]. destruct (Z.ltb_spec MAX_Y ny); [lia |].
    reflexivity.
  - apply IH. exact Hc.
Qed.

(** ** The report without a trial *)

Lemma run_workers_idle (nx ny : Z) (prob : float) (q seed0 P : Z) :
  q <= 0 -> concat (map fst (run_workers nx ny prob q seed0 P)) = [].
Proof.
  intros Hq. unfold run_workers. rewrite map_map.
  induction (xrange 0 P) as [| p l IH]; [reflexivity |].
  cbn [map concat]. rewrite IH. unfold worker. rewrite xrange_nil by lia.
  reflexivity.
Qed.

Lemma percent_zero (nsims : Z) :
  0 < nsims < 2 ^ 53 -> percent 0 nsims = Ok 0%float.
Proof.
  intros Hn. unfold percent. rewrite float_of_int_0. cbn [bind].
  destruct nsims as [| p | p]; try lia.
  destruct (binary_normalize_small p) as (m & e & E & Hv); [lia |].
  unfold float_of_int. rewrite E. cbn [bind]. unfold fdiv.
  assert (Hz : (SF2Prim (S754_finite false m e) =? 0)%float = false).
  { rewrite eqb_spec, Prim2SF_SF2Prim by exact Hv. reflexivity. }
  rewrite Hz. f_equal. apply Prim2SF_inj.
  rewrite div_spec, Prim2SF_SF2Prim by exact Hv. reflexivity.
Qed.

(** ** Indices from the end *)

Lemma index_of_valid (n i : Z) :
  - n <= i < n -> exists k, index_of n i = Ok k /\ (k < Z.to_nat n)%nat.
Proof.
  intros H. unfold index_of.
  destruct (Z.ltb_spec i (- n)); [lia |].
  destruct (Z.ltb_spec i 0).
  - exists (Z.to_nat (i + n)). split; [reflexivity | lia].
  - destruct (Z.ltb_spec i n); [| lia].
    exists (Z.to_nat i). split; [reflexivity | lia].
Qed.

Lemma getitem_valid {A : Type} (l : list A) (i : Z) :
  - len l <= i < len l -> exists a, getitem l i = Ok a /\ In a l.
Proof.
  intros H. unfold getitem.
  destruct (index_of_valid (len l) i H) as (k & -> & Hk). cbn [bind].
  unfold len in Hk. rewrite Nat2Z.id in Hk.
  destruct (nth_error l k) as [a |] eqn:E.
  - exists a. split; [reflexivity |]. apply nth_error_In in E. exact E.
  - apply nth_error_None in E. lia.
Qed.

Lemma setitem_valid {A : Type} (P : A -> Prop) (l : list A) (i : Z) (v : A) :
  - len l <= i < len l -> Forall P l -> P v ->
  exists l', setitem l i v = Ok l' /\ len l' = len l /\ Forall P l'.
Proof.
  intros H Hl Hv. unfold setitem.
  destruct (index_of_valid (len l) i H) as (k & -> & _). cbn [bind].
  eexists. split; [reflexivity |]. split.
  - unfold len. rewrite length_list_update. reflexivity.
  - apply Forall_list_update; assumption.
Qed.

Lemma get2_valid (R C : Z) (g : grid) (i j : Z) :
  wf R C g -> - R <= i < R -> - C <= j < C -> exists v, get2 g i j = Ok v.
Proof.
  intros [HR HC] Hi Hj. unfold get2.
  destruct (getitem_valid g i) as (row & -> & Hin); [lia |]. cbn [bind].
  rewrite Forall_forall in HC. specialize (HC row Hin).
  destruct (getitem_valid row j) as (v & -> & _); [lia |].
  exists v. reflexivity.
Qed.

Lemma set2_valid (R C : Z) (g : grid) (i j v : Z) :
  wf R C g -> - R <= i < R -> - C <= j < C ->
  exists g', set2 g i j v = Ok g' /\ wf R C g'.
Proof.
  intros [HR HC] Hi Hj. unfold set2.
  destruct (getitem_valid g i) as (row & -> & Hin); [lia |]. cbn [bind].
  pose proof HC as HC'. rewrite Forall_forall in HC'. specialize (HC' row Hin).
  destruct (setitem_valid (fun _ => True) row j v) as (row' & -> & Hlen & _);
    [lia | apply Forall_forall; auto | exact I |]. cbn [bind].
  destruct (setitem_valid (fun r => len r = C) g i row') as (g' & -> & Hlen' & HF);
    [lia | exact HC | lia |].
  exists g'. split; [reflexivity |]. split; [lia | exact HF].
Qed.

(** ** Loops without an iteration *)

Lemma nested_empty {S : Type} (body : Z -> Z -> S -> result S) (nx ny : Z) (s : S) :
  nx <= 0 \/ ny <= 0 ->
  for_each (xrange 1 (nx + 1))
    (fun i s => for_each (xrange 1 (ny + 1)) (body i) s) s = Ok s.
Proof.
  intros [H | H].
  - rewrite xrange_nil by lia. reflexivity.
  - rewrite (xrange_nil 1 (ny + 1)) by lia.
    induction (xrange 1 (nx + 1)) as [| k ks IH]; [reflexivity | exact IH].
Qed.

Section Degenerate.

Variables (R C nx ny : Z).

Hypothesis Hdeg : nx <= 0 \/ ny <= 0.

Hypothesis HR : 2 <= R.

Hypothesis HC : 2 <= C.

Hypothesis Hnx : - R <= nx.

Hypothesis Hnx' : nx + 1 < R.

Hypothesis Hny : - C <= ny.

Hypothesis Hny' : ny + 1 < C.

Lemma wrap_columns_valid (g : grid) :
  wf R C g -> exists g', wrap_columns g nx ny = Ok g' /\ wf R C g'.
Proof.
  intros Hg. unfold wrap_columns.
  destruct (Z.le_gt_cases nx 0) as [H0 | H0].
  - rewrite xrange_nil by lia. exists g. split; [reflexivity | exact Hg].
  - apply (for_range_inv _ (fun _ g => wf R C g)); [lia | exact Hg |].
    intros i s Hi Hs.
    destruct (get2_valid R C s i ny Hs) as (a & ->); try lia. cbn [bind].
    destruct (set2_valid R C s i 0 a Hs) as (s1 & -> & Hs1); try lia. cbn [bind].
    destruct (get2_valid R C s1 i 1 Hs1) as (b & ->); try lia. cbn [bind].
    destruct (set2_valid R C s1 i (ny + 1) b Hs1) as (s2 & -> & Hs2); try lia.
    exists s2. split; [reflexivity | exact Hs2].
Qed.

Lemma wrap_rows_valid (g : grid) :
  wf R C g -> exists g', wrap_rows g nx ny = Ok g' /\ wf R C g'.
Proof.
  intros Hg. unfold wrap_rows.
  destruct (Z.le_gt_cases (ny + 2) 0) as [H0 | H0].
  - rewrite xrange_nil by lia. exists g. split; [reflexivity | exact Hg].
  - apply (for_range_inv _ (fun _ g => wf R C g)); [lia | exact Hg |].
    intros j s Hj Hs.
    destruct (get2_valid R C s nx j Hs) as (a & ->); try lia. cbn [bind].
    destruct (set2_valid R C s 0 j a Hs) as (s1 & -> & Hs1); try lia. cbn [bind].
    destruct (get2_valid R C s1 1 j Hs1) as (b & ->); try lia. cbn [bind].
    destruct (set2_valid R C s1 (nx + 1) j b Hs1) as (s2 & -> & Hs2); try lia.
    exists s2. split; [reflexivity | exact Hs2].
Qed.

Lemma time_step_degenerate (g t : grid) :
  wf R C g -> exists g', time_step g t nx ny = Ok (g', t) /\ wf R C g'.
Proof.
  intros Hg. unfold time_step.
  destruct (wrap_columns_valid g Hg) as (g1 & -> & Hg1). cbn [bind].
  destruct (wrap_rows_valid g1 Hg1) as (g2 & -> & Hg2). cbn [bind].
  unfold update_all. rewrite (nested_empty (update_cell g2)) by exact Hdeg.
  cbn [bind]. unfold copy_back.
  rewrite (nested_empty (fun i j g => v <- get2 t i j ;; set2 g i j v))
    by exact Hdeg.
  exists g2. split; [reflexivity | exact Hg2].
Qed.

Lemma gameOfLife_degenerate (g : grid) (maxSteps maxUnchanged : Z) :
  wf R C g -> 2 <= maxSteps ->
  exists g', gameOfLife g nx ny maxSteps maxUnchanged = Ok (g', (2, 0)) /\ wf R C g'.
Proof.
  intros Hg Hmax. unfold gameOfLife.
  destruct (Z.to_nat maxSteps) as [| fuel] eqn:Ef; [lia |].
  rewrite life_loop_step.
  2:{ unfold loop_cond, life_init. simpl.
      destruct (Z.ltb_spec 1 maxSteps); [reflexivity | lia]. }
  unfold loop_body, count_vegies.
  rewrite (nested_empty (fun i j v => c <- get2 (the_grid (life_init g)) i j ;; Ok (v + c)))
    by exact Hdeg.
  cbn [bind]. unfold streak, life_init.
  cbn [oldVegies old2Vegies old3Vegies converged nUnchanged the_grid tempGrid steps vegies].
  change ((0 =? -1) || (0 =? -1) || (0 =? -1)) with false. cbn [negb].
  destruct (time_step_degenerate g (zeros MAX_X MAX_Y) Hg) as (g' & -> & Hg').
  cbn [bind fst snd]. rewrite life_loop_exit by reflexivity.
  cbn [bind the_grid steps vegies]. exists g'. split; [reflexivity | exact Hg'].
Qed.

Lemma initializeGrid_degenerate (g : grid) (seed : Z) (prob : float) :
  initializeGrid g nx ny seed prob = Ok g.
Proof.
  unfold initializeGrid. apply (nested_empty (init_cell ny seed prob)). exact Hdeg.
Qed.

End Degenerate.

(** ** Dimensions at the size of the scratch buffer *)

Lemma trial_overrun (nx ny maxSteps maxUnchanged : Z) (prob : float)
  (seed0 mySims myProcess i : Z) (g : grid) :
  1 <= nx <= MAX_X -> 1 <= ny <= MAX_Y -> MAX_Y <= nx \/ MAX_X <= ny ->
  2 <= maxSteps ->
  wf (MAX_Y + 2) (MAX_X + 2) g -> in_range nx ny g ->
  exists e,
    trial nx ny maxSteps maxUnchanged prob seed0 mySims myProcess i g = Raise e /\
    (e = IndexError \/
     initializeGrid g nx ny (trial_seed seed0 mySims myProcess i) prob = Raise e).
Proof.
  intros Hnx Hny Hover Hmax Hg Hr. unfold trial.
  fold (trial_seed seed0 mySims myProcess i).
  pose proof (defined_initializeGrid g nx ny (trial_seed seed0 mySims myProcess i) prob)
    as Hd.
  destruct (initializeGrid g nx ny (trial_seed seed0 mySims myProcess i) prob)
    as [g1 | e |] eqn:E.
  - apply (initializeGrid_range (MAX_Y + 2) (MAX_X + 2)) in E;
      try assumption; try (unfold MAX_X, MAX_Y in *; lia).
    destruct E as [Hg1 Hr1]. exists IndexError. split; [| left; reflexivity].
    cbn [bind]. apply (gameOfLife_overrun (MAX_Y + 2) (MAX_X + 2));
      try assumption; unfold MAX_X, MAX_Y in *; lia.
  - exists e. split; [reflexivity | right; reflexivity].
  - exfalso. apply Hd. reflexivity.
Qed.

(** ** The cells that gameOfLife writes *)

Lemma time_step_confined (R C Rt Ct nx ny : Z) (g t : grid) :
  1 <= nx -> 1 <= ny -> nx + 1 < R -> ny + 1 < C -> nx < Rt -> ny < Ct ->
  wf R C g -> wf Rt Ct t ->
  exists g' t', time_step g t nx ny = Ok (g', t') /\
    wf R C g' /\ wf Rt Ct t' /\
    (forall i j, 0 <= i -> 0 <= j -> nx + 1 < i \/ ny + 1 < j ->
       cell g' i j = cell g i j) /\
    (forall i j, 0 <= i -> 0 <= j -> nx < i \/ ny < j \/ i = 0 \/ j = 0 ->
       cell t' i j = cell t i j).
Proof.
  intros Hnx Hny HR HC HRt HCt Hg Ht. unfold time_step.
  destruct (wrap_spec R C nx ny Hnx Hny HR HC g Hg)
    as (g1 & g2 & E1 & E2 & Hg2 & Hc2).
  rewrite E1. cbn [bind]. rewrite E2. cbn [bind].
  destruct (update_all_spec R C Rt Ct nx ny Hnx Hny HR HC HRt HCt g2 t Hg2 Ht)
    as (t' & Et & Ht' & Hct).
  rewrite Et. cbn [bind].
  destruct (copy_back_spec R C Rt Ct nx ny Hnx Hny HR HC HRt HCt g2 t' Hg2 Ht')
    as (g' & Eg & Hg' & Hcg).
  rewrite Eg. cbn [bind]. exists g', t'. split; [reflexivity |].
  split; [exact Hg' |]. split; [exact Ht' |]. split.
  - intros i j Hi Hj Hout. rewrite Hcg, Hc2 by assumption.
    assert (Hint : interior nx ny i j = false).
    { unfold interior. destruct (Z.leb_spec i nx); destruct (Z.leb_spec j ny);
        rewrite ?andb_false_r; try reflexivity; lia. }
    rewrite Hint.
    destruct (Z.leb_spec i (nx + 1)); destruct (Z.leb_spec j (ny + 1));
      try reflexivity; lia.
  - intros i j Hi Hj Hout. rewrite Hct by assumption.
    assert (Hint : interior nx ny i j = false).
    { unfold interior.
      destruct (Z.leb_spec 1 i); destruct (Z.leb_spec i nx);
        destruct (Z.leb_spec 1 j); destruct (Z.leb_spec j ny);
        try reflexivity; lia. }
    rewrite Hint. reflexivity.
Qed.

Lemma loop_body_confined (R C nx ny maxSteps maxUnchanged : Z) (g : grid) (s : life) :
  1 <= nx < MAX_Y -> 1 <= ny < MAX_X -> nx + 1 < R -> ny + 1 < C ->
  wf_life R C MAX_Y MAX_X s /\ confined nx ny g (the_grid s) /\
    confined_scratch nx ny (zeros MAX_X MAX_Y) (tempGrid s) ->
  loop_cond maxSteps s = true ->
  exists s', loop_body nx ny maxUnchanged s = Ok s' /\
    (wf_life R C MAX_Y MAX_X s' /\ confined nx ny g (the_grid s') /\
       confined_scratch nx ny (zeros MAX_X MAX_Y) (tempGrid s')) /\
    (converged s' = true \/ steps s' = steps s + 1).
Proof.
  intros Hnx Hny HR HC ([Hg Ht] & Hcg & Hct) _. unfold loop_body.
  rewrite (count_vegies_spec R C) by (assumption || lia). cbn [bind].
  destruct (streak maxUnchanged s (total (the_grid s) nx ny)) as [n conv].
  destruct conv; cbn [negb].
  - eexists. split; [reflexivity |]. split; [| left; reflexivity].
    split; [split; assumption |]. split; assumption.
  - destruct (time_step_confined R C MAX_Y MAX_X nx ny (the_grid s) (tempGrid s))
      as (g' & t' & E & Hg' & Ht' & Hcg' & Hct'); try (assumption || lia).
    rewrite E. cbn [bind fst snd].
    eexists. split; [reflexivity |]. split; [| right; reflexivity].
    split; [split; assumption |]. cbn [the_grid tempGrid]. split.
    + intros i j Hi Hj Hout. rewrite Hcg' by assumption. apply Hcg; assumption.
    + intros i j Hi Hj Hout. rewrite Hct' by assumption. apply Hct; assumption.
Qed.

(** ** Trials that return *)





(** * The claims *)

(** ** C1 *)

(** A trial at probability 0 whose draws are all positive. *)
Lemma trial_barren (R C nx ny maxSteps maxUnchanged seed0 mySims myProcess k : Z)
  (g : grid) (draw : Z -> Z -> float) :
  1 <= nx < MAX_Y -> 1 <= ny < MAX_X -> nx + 1 < R -> ny + 1 < C ->
  2 <= maxSteps ->
  wf R C g ->
  (forall i j, 1 <= i <= nx -> 1 <= j <= ny ->
     rand1 (seed0 * (myProcess * mySims - k) + (ny * i + j)) = Ok (draw i j) /\
     (0 <? draw i j)%float = true) ->
  exists g', trial nx ny maxSteps maxUnchanged 0%float seed0 mySims myProcess k g
             = Ok (g', (2, 0)).
Proof.
  intros Hnx Hny HR HC Hmax Hwf Hdraw. unfold trial.
  destruct (initializeGrid_spec R C g nx ny
              (seed0 * (myProcess * mySims - k)) 0%float draw Hwf)
    as (g1 & E1 & Hwf1 & Hc1); [lia | lia | |].
  { intros i j Hi Hj. apply Hdraw; assumption. }
  rewrite E1. simpl.
  apply (gameOfLife_barren R C); try assumption.
  intros i j Hi Hj. rewrite Hc1 by lia.
  assert (Hin : interior nx ny i j = true) by (unfold interior; cases_Z).
  rewrite Hin. destruct (Hdraw i j Hi Hj) as [_ ->]. reflexivity.
Qed.

(** C1 (as the code has it): a trial at probability 0 whose draws are all
    positive starts from a grid with no vegetation; [gameOfLife] then runs
    one pass of its loop, time step included, and returns
    [finalVegetation = 0] with [steps = 2], not 1.  In the scenario
    nx = ny = 3, probability 0, seed0 = 1, nsims = 4, numProcesses = 2 each
    of the two workers puts [(2, 0)] twice, and [main], with pipes that
    hold the two results of a worker, reports 4 died, 100% died,
    0% unsettled and 0% stabilized. *)
Theorem C1_barren_trial (R C nx ny maxSteps maxUnchanged seed0 mySims myProcess k : Z)
  (g : grid) (draw : Z -> Z -> float) :
  1 <= nx < MAX_Y -> 1 <= ny < MAX_X -> nx + 1 < R -> ny + 1 < C ->
  2 <= maxSteps ->
  wf R C g ->
  (forall i j, 1 <= i <= nx -> 1 <= j <= ny ->
     rand1 (seed0 * (myProcess * mySims - k) + (ny * i + j)) = Ok (draw i j) /\
     (0 <? draw i j)%float = true) ->
  (exists g', trial nx ny maxSteps maxUnchanged 0%float seed0 mySims myProcess k g
              = Ok (g', (2, 0))) /\
  map fst scenario_workers = [[(2, 0); (2, 0)]; [(2, 0); (2, 0)]] /\
  forall pipe, (2 <= pipe)%nat ->
    main pipe 3 3 0%float 4 1 2 = Ends (Ok scenario_report).
Proof.
  intros Hnx Hny HR HC Hmax Hwf Hdraw. split.
  - apply (trial_barren R C nx ny maxSteps maxUnchanged seed0 mySims myProcess k g draw);
      assumption.
  - assert (Hw : map fst scenario_workers = [[(2, 0); (2, 0)]; [(2, 0); (2, 0)]])
      by (vm_compute; reflexivity).
    split; [exact Hw |]. intros pipe Hpipe.
    unfold main. change (floordiv 4 2) with (@Ok Z 2). cbv beta iota zeta.
    change (run_workers 3 3 0%float 2 1 2) with scenario_workers.
    rewrite join_and_drain_fits.
    + rewrite Hw. vm_compute. reflexivity.
    + apply Forall_forall. intros w Hin. unfold fits.
      apply (in_map fst) in Hin. rewrite Hw in Hin.
      destruct Hin as [<- | [<- | []]]; simpl; lia.
Qed.

Lemma C1_barren_trial_witness :
  (exists g', trial 1 1 200 10 0%float 1 1 1 0 (zeros 3 3) = Ok (g', (2, 0))) /\
  map fst scenario_workers = [[(2, 0); (2, 0)]; [(2, 0); (2, 0)]] /\
  forall pipe, (2 <= pipe)%nat ->
    main pipe 3 3 0%float 4 1 2 = Ends (Ok scenario_report).
Proof.
  apply (C1_barren_trial 3 3 1 1 200 10 1 1 1 0 (zeros 3 3)
           (fun i j => match rand1 (1 * (1 * 1 - 0) + (1 * i + j)) with
                       | Ok r => r
                       | _ => 0%float
                       end)).
  - unfold MAX_Y. lia.
  - unfold MAX_X. lia.
  - lia.
  - lia.
  - lia.
  - apply wf_zeros; lia.
  - intros i j Hi Hj. assert (i = 1) by lia. assert (j = 1) by lia. subst.
    split; vm_compute; reflexivity.
Defined.

(** On the barren grid a worker starts from, [gameOfLife] returns 2 steps:
    no statement with [steps = 1] holds of it. *)
Lemma C1_counterexample :
  ~ (forall g g' st v,
       wf (MAX_Y + 2) (MAX_X + 2) g ->
       (forall i j, 1 <= i <= 3 -> 1 <= j <= 3 -> cell g i j = 0) ->
       gameOfLife g 3 3 STEPS_MAX UNCHANGED_MAX = Ok (g', (st, v)) ->
       st = 1 /\ v = 0).
Proof.
  intros H.
  destruct (gameOfLife_barren (MAX_Y + 2) (MAX_X + 2) 3 3 STEPS_MAX UNCHANGED_MAX)
    with (g := zeros (MAX_X + 2) (MAX_Y + 2)) as (g' & E);
    try (unfold MAX_X, MAX_Y, STEPS_MAX; lia).
  - apply wf_worker_grid.
  - intros i j _ _. apply cell_zeros.
  - apply H in E.
    + destruct E as [E _]. discriminate.
    + apply wf_worker_grid.
    + intros i j _ _. apply cell_zeros.
Qed.

(** ** C2 *)

(** C2 (as the code has it): whenever [main] returns its report, the three
    counters add up to the number of results the queues held; when every
    worker ran all its trials that is the number of trials dispatched,
    [numProcesses * (nsims // numProcesses)], which is [nsims] exactly when
    [numProcesses] divides [nsims].  [main] returns a report only when the
    results of every worker fit in the pipe of its queue: it waits in
    [join] otherwise. *)
Theorem C2_counters_sum (pipe : nat) (nx ny : Z) (probability : float)
  (nsims seed0 numProcesses : Z) (r : report) :
  1 <= nsims -> 1 <= numProcesses ->
  main pipe nx ny probability nsims seed0 numProcesses = Ends (Ok r) ->
  Forall (fun w => (length (fst w) <= pipe)%nat)
    (run_workers nx ny probability (nsims / numProcesses) seed0 numProcesses) /\
  ndied (counters r) + nunsettled (counters r) + nstable (counters r)
    = len (concat (map fst (run_workers nx ny probability
                              (nsims / numProcesses) seed0 numProcesses))) /\
  (Forall (fun w => snd w = Ok tt)
     (run_workers nx ny probability (nsims / numProcesses) seed0 numProcesses) ->
   ndied (counters r) + nunsettled (counters r) + nstable (counters r)
     = numProcesses * (nsims / numProcesses) /\
   (ndied (counters r) + nunsettled (counters r) + nstable (counters r) = nsims
    <-> nsims mod numProcesses = 0)).
Proof.
  intros Hnsims Hprocs E.
  destruct (main_Ok _ _ _ _ _ _ _ _ E) as (_ & Hf & Hd & _).
  split; [exact Hf |].
  destruct (drain_spec _ _ _ _ Hd) as [Hcount _].
  assert (Hc : ndied (counters r) + nunsettled (counters r) + nstable (counters r)
               = len (concat (map fst (run_workers nx ny probability
                                         (nsims / numProcesses) seed0 numProcesses)))).
  { unfold counted, stats_init in Hcount. simpl in Hcount. lia. }
  split; [exact Hc |].
  intros Hall. destruct (dispatched_total _ _ _ _ _ _ Hall) as [_ Htot].
  rewrite Hc, Htot.
  assert (0 <= nsims / numProcesses) by (apply Z.div_pos; lia).
  pose proof (Z.div_mod nsims numProcesses ltac:(lia)).
  pose proof (Z.mod_pos_bound nsims numProcesses ltac:(lia)).
  split; [lia |]. split; intros; nia.
Qed.

Lemma C2_counters_sum_witness :
  exists r, main 2 1 1 0%float 5 1 2 = Ends (Ok r) /\
    ndied (counters r) + nunsettled (counters r) + nstable (counters r)
      = len (concat (map fst (run_workers 1 1 0%float (5 / 2) 1 2))).
Proof.
  assert (E : main 2 1 1 0%float 5 1 2 =
              Ends (Ok (mkReport (mkStats 4 0 0 0%float 0%float)
                          80%float 0%float 0%float 0%float 0%float)))
    by (vm_compute; reflexivity).
  eexists. split; [exact E |].
  destruct (C2_counters_sum 2 1 1 0%float 5 1 2 _ ltac:(lia) ltac:(lia) E)
    as (_ & H & _).
  exact H.
Defined.

(** With 5 simulations on 2 processes, and pipes that hold the two results
    of a worker, [main] returns and the counters add up to 4. *)
Lemma C2_counterexample :
  ~ (forall pipe nx ny probability nsims seed0 numProcesses r,
       1 <= nsims -> 1 <= numProcesses ->
       main pipe nx ny probability nsims seed0 numProcesses = Ends (Ok r) ->
       ndied (counters r) + nunsettled (counters r) + nstable (counters r) = nsims).
Proof.
  intros H.
  assert (E : main 2 1 1 0%float 5 1 2 =
              Ends (Ok (mkReport (mkStats 4 0 0 0%float 0%float)
                          80%float 0%float 0%float 0%float 0%float)))
    by (vm_compute; reflexivity).
  apply H in E; [| lia | lia]. simpl in E. discriminate.
Qed.

(** ** C3 *)



(** ** C4 *)

(** C4 (the code at its failing inputs): [tempGrid] has [MAX_Y] rows of
    [MAX_X] cells, numbered from 0, and is indexed by [1..nx] and [1..ny].
    With [nx = MAX_X = 500] or [ny = MAX_Y = 500], which the prompt loop of
    [main] accepts, the first time step of [gameOfLife] raises [IndexError],
    on every grid of the size a worker allocates that holds vegetation
    between 0 and 10. *)
Theorem C4_tempGrid_overrun (g : grid) (nx ny maxSteps maxUnchanged : Z) :
  wf (MAX_Y + 2) (MAX_X + 2) g -> in_range nx ny g ->
  1 <= nx <= MAX_X -> 1 <= ny <= MAX_Y -> nx = MAX_X \/ ny = MAX_Y ->
  2 <= maxSteps ->
  gameOfLife g nx ny maxSteps maxUnchanged = Raise IndexError.
Proof.
  intros Hg Hrange Hnx Hny Hmax Hsteps.
  apply (gameOfLife_overrun (MAX_Y + 2) (MAX_X + 2)); try assumption;
    unfold MAX_X, MAX_Y in *; lia.
Qed.

Lemma C4_tempGrid_overrun_witness :
  gameOfLife (zeros (MAX_X + 2) (MAX_Y + 2)) MAX_X 1 STEPS_MAX UNCHANGED_MAX
    = Raise IndexError.
Proof.
  apply C4_tempGrid_overrun.
  - apply wf_worker_grid.
  - intros i j _ _. rewrite cell_zeros. lia.
  - unfold MAX_X. lia.
  - unfold MAX_Y. lia.
  - left. reflexivity.
  - unfold STEPS_MAX. lia.
Defined.

(** The same by evaluation, one level up: the worker process ends with the
    exception and its queue stays empty. *)
Lemma worker_overrun_evaluated :
  worker MAX_X 1 STEPS_MAX UNCHANGED_MAX 0%float 1 1 1 = ([], Raise IndexError).
Proof. vm_compute. reflexivity. Qed.

(** ** C5 *)

(** C5 (the code at its failing input): [rand1 (-1)] is negative.  The
    truncation toward zero keeps the sign of a negative seed through the
    five passes. *)
Theorem C5_rand1_negative :
  exists r, rand1 (-1) = Ok r /\ (r <? 0)%float = true.
Proof. eexists. split; vm_compute; reflexivity. Qed.

(** On the seeds -1024 to -1 the result is negative. *)
Lemma rand1_negative_sample :
  forallb (fun s => match rand1 s with
                    | Ok r => (r <? 0)%float
                    | _ => false
                    end) (xrange (-1024) 0) = true.
Proof. vm_compute. reflexivity. Qed.

(** On the seeds 0 to 1023 the result is in [0, 1). *)
Lemma rand1_range_sample :
  forallb (fun s => match rand1 s with
                    | Ok r => (0 <=? r)%float && (r <? 1)%float
                    | _ => false
                    end) (xrange 0 1024) = true.
Proof. vm_compute. reflexivity. Qed.

(** ** C6 *)

(** C6: one time step gives every interior cell, from its old value [c] and
    the sum [n] of its eight neighbours on the torus in the old grid, the
    value [max (c - 1) 0] if [n >= 25] or [n <= 3], [min (c + 1) 10] if
    else [n <= 15], and [c] otherwise; the values are those of the scratch
    buffer, computed from the old grid alone and then copied back. *)
Theorem C6_update_rule (R C Rt Ct nx ny : Z) (g t : grid) :
  1 <= nx -> 1 <= ny -> nx + 1 < R -> ny + 1 < C -> nx < Rt -> ny < Ct ->
  wf R C g -> wf Rt Ct t ->
  exists g' t', time_step g t nx ny = Ok (g', t') /\
    forall i j, 1 <= i <= nx -> 1 <= j <= ny ->
      let c := cell g i j in
      let n := torus_neighbors nx ny g i j in
      cell t' i j =
        (if (25 <=? n) || (n <=? 3) then Z.max (c - 1) 0
         else if n <=? 15 then Z.min (c + 1) 10
         else c) /\
      cell g' i j = cell t' i j.
Proof.
  intros Hnx Hny HR HC HRt HCt Hg Ht.
  destruct (time_step_spec R C Rt Ct nx ny Hnx Hny HR HC HRt HCt g t Hg Ht)
    as (g' & t' & E & _ & _ & Hcells).
  exists g', t'. split; [exact E |].
  intros i j Hi Hj c n. destruct (Hcells i j Hi Hj) as [Hrule Hcopy].
  split; [| symmetry; exact Hcopy].
  rewrite Hcopy, Hrule. reflexivity.
Qed.

Lemma C6_update_rule_witness :
  exists g' t', time_step (zeros 3 3) (zeros 2 2) 1 1 = Ok (g', t') /\
    forall i j, 1 <= i <= 1 -> 1 <= j <= 1 ->
      let c := cell (zeros 3 3) i j in
      let n := torus_neighbors 1 1 (zeros 3 3) i j in
      cell t' i j =
        (if (25 <=? n) || (n <=? 3) then Z.max (c - 1) 0
         else if n <=? 15 then Z.min (c + 1) 10
         else c) /\
      cell g' i j = cell t' i j.
Proof.
  apply (C6_update_rule 3 3 2 2 1 1); try lia; apply wf_zeros; lia.
Defined.

(** ** C7 *)

(** C7: one pass of the loop body counts the interior total [v], compares
    it with the totals kept from the three previous passes, adds 1 to the
    streak on a match and resets it to 0 otherwise, sets [converged] exactly
    when the streak was incremented to [maxUnchanged] or more (for
    [maxUnchanged >= 1]: exactly when the streak is at least
    [maxUnchanged]), and shifts the three totals; the loop goes on exactly
    while it has not converged, the total is positive and [steps] is below
    [maxSteps]. *)
Theorem C7_convergence (R C Rt Ct nx ny maxSteps maxUnchanged : Z) (s : life) :
  1 <= nx -> 1 <= ny -> nx + 1 < R -> ny + 1 < C -> nx < Rt -> ny < Ct ->
  wf_life R C Rt Ct s ->
  exists s', loop_body nx ny maxUnchanged s = Ok s' /\
    let v := total (the_grid s) nx ny in
    let hit := (v =? oldVegies s) || (v =? old2Vegies s) || (v =? old3Vegies s) in
    vegies s' = v /\
    nUnchanged s' = (if hit then nUnchanged s + 1 else 0) /\
    (converged s = false ->
     (converged s' = true <-> hit = true /\ maxUnchanged <= nUnchanged s')) /\
    (converged s = false -> 1 <= maxUnchanged ->
     (converged s' = true <-> maxUnchanged <= nUnchanged s')) /\
    oldVegies s' = v /\ old2Vegies s' = oldVegies s /\ old3Vegies s' = old2Vegies s /\
    forall fuel,
      life_loop (S fuel) nx ny maxSteps maxUnchanged s' =
        if negb (converged s') && (0 <? vegies s') && (steps s' <? maxSteps)
        then (s'' <- loop_body nx ny maxUnchanged s' ;;
              life_loop fuel nx ny maxSteps maxUnchanged s'')
        else Ok s'.
Proof.
  intros Hnx Hny HR HC HRt HCt Hwf.
  destruct (loop_body_spec R C Rt Ct nx ny Hnx Hny HR HC HRt HCt maxUnchanged s Hwf)
    as (s' & E & _ & Hv & Hstreak & Ho1 & Ho2 & Ho3 & _).
  exists s'. split; [exact E |]. intros v hit.
  rewrite Hv in Hstreak, Ho1. fold v in Hstreak, Ho1, Hv.
  unfold streak in Hstreak. fold hit in Hstreak.
  split; [exact Hv |].
  assert (Hn : nUnchanged s' = if hit then nUnchanged s + 1 else 0)
    by (destruct hit; inversion Hstreak; reflexivity).
  assert (Hc : converged s = false ->
               (converged s' = true <-> hit = true /\ maxUnchanged <= nUnchanged s')).
  { intros Hs. rewrite Hn. destruct hit; simpl in Hstreak;
      injection Hstreak as _ Hc'; rewrite Hc', ?Hs.
    - destruct (Z.leb_spec maxUnchanged (nUnchanged s + 1)).
      + split; [intros _; split; [reflexivity | assumption] | reflexivity].
      + split; [discriminate | intros [_ ?]; lia].
    - split; [discriminate | intros [? _]; discriminate]. }
  split; [exact Hn |]. split; [exact Hc |].
  split.
  { intros Hs Hmax. rewrite (Hc Hs). split; [tauto |].
    intros Hle. split; [| exact Hle]. rewrite Hn in Hle.
    destruct hit; [reflexivity | lia]. }
  split; [exact Ho1 |]. split; [exact Ho2 |]. split; [exact Ho3 |].
  intros fuel. reflexivity.
Qed.

Lemma C7_convergence_witness :
  exists s',
    loop_body 1 1 10 (mkLife 1 false 0 (-1) (-1) (-1) 1 (zeros 3 3) (zeros 2 2))
      = Ok s' /\ vegies s' = total (zeros 3 3) 1 1.
Proof.
  destruct (C7_convergence 3 3 2 2 1 1 200 10
              (mkLife 1 false 0 (-1) (-1) (-1) 1 (zeros 3 3) (zeros 2 2)))
    as (s' & E & Hv & _); try lia.
  - split; apply wf_zeros; lia.
  - exists s'. split; [exact E | exact Hv].
Defined.

(** ** C8 *)




(** ** C9 *)

(** C9: whenever [main] returns its report, the stabilized count is the
    number of results that neither died nor reached the step cap, and the
    two sums are accumulated over those results alone; when that count is 0
    both averages are the initial 0.0, no division being made, and
    otherwise they are the two sums divided by the count.  With dimensions
    that fit the buffers and pipes that hold the results of a worker,
    [main] does return its report. *)
Theorem C9_averages_guarded (pipe : nat) (nx ny : Z) (probability : float)
  (nsims seed0 numProcesses : Z) :
  (forall r, main pipe nx ny probability nsims seed0 numProcesses = Ends (Ok r) ->
     let results :=
       concat (map fst (run_workers nx ny probability (nsims / numProcesses)
                          seed0 numProcesses)) in
     nstable (counters r) = len (filter (stabilized STEPS_MAX) results) /\
     fsum (map fst (filter (stabilized STEPS_MAX) results)) 0%float
       = Ok (totalStepsStable (counters r)) /\
     fsum (map snd (filter (stabilized STEPS_MAX) results)) 0%float
       = Ok (totalVegiesStable (counters r)) /\
     (nstable (counters r) = 0 ->
      avgStepsStable r = 0%float /\ avgVegiesStable r = 0%float) /\
     (0 < nstable (counters r) ->
      exists n, float_of_int (nstable (counters r)) = Ok n /\
        (n =? 0)%float = false /\
        avgStepsStable r = (totalStepsStable (counters r) / n)%float /\
        avgVegiesStable r = (totalVegiesStable (counters r) / n)%float)) /\
  (1 <= nx < MAX_Y -> 1 <= ny < MAX_X ->
   1 <= nsims < 2 ^ 53 -> 1 <= numProcesses ->
   nsims / numProcesses <= Z.of_nat pipe ->
   exists r, main pipe nx ny probability nsims seed0 numProcesses = Ends (Ok r)).
Proof.
  split.
  - intros r E results.
    destruct (main_Ok _ _ _ _ _ _ _ _ E) as (_ & _ & Hdrain & Hrep).
    fold results in Hdrain.
    destruct (report_of_fields _ _ _ Hrep) as (_ & Havg & _).
    destruct (drain_classes _ _ _ _ Hdrain) as (_ & _ & Hs & Hfs & Hfv).
    simpl in Hs, Hfs, Hfv.
    split; [exact Hs |]. split; [exact Hfs |]. split; [exact Hfv |].
    destruct (drain_spec _ _ _ _ Hdrain) as [_ Hok].
    specialize (Hok stats_ok_init). destruct Hok as (_ & _ & _ & Hzero).
    unfold averages in Havg. split.
    + intros Hz. rewrite Hz in Havg. cbn in Havg.
      destruct (Hzero Hz) as [E1 E2]. rewrite E1, E2 in Havg.
      inversion Havg. split; reflexivity.
    + intros Hpos. destruct (Z.ltb_spec 0 (nstable (counters r))); [| lia].
      destruct (float_of_int (nstable (counters r))) as [n | |] eqn:En;
        try discriminate.
      cbn [bind] in Havg. unfold fdiv in Havg.
      destruct (n =? 0)%float eqn:Hn; [discriminate |].
      cbn [bind] in Havg. inversion Havg.
      exists n. split; [reflexivity |]. split; [exact Hn |]. split; reflexivity.
  - intros Hnx Hny Hnsims Hprocs Hpipe.
    destruct (main_returns nx ny probability nsims seed0 numProcesses
                Hnx Hny Hnsims Hprocs pipe) as (r & E & _).
    + apply fits_run_workers. exact Hpipe.
    + exists r. exact E.
Qed.

Lemma C9_averages_guarded_witness :
  exists r, main 1 1 1 0%float 1 1 1 = Ends (Ok r) /\
    (nstable (counters r) = 0 ->
     avgStepsStable r = 0%float /\ avgVegiesStable r = 0%float).
Proof.
  destruct (C9_averages_guarded 1 1 1 0%float 1 1 1) as (H & Hret).
  destruct Hret as (r & E).
  - unfold MAX_Y. lia.
  - unfold MAX_X. lia.
  - assert (2 ^ 53 = 9007199254740992) by reflexivity. lia.
  - lia.
  - vm_compute. discriminate.
  - exists r. split; [exact E |]. destruct (H r E) as (_ & _ & _ & H0 & _). exact H0.
Defined.

(** ** C10 *)

(** C10: with [maxSteps <= 1] the loop is not entered: [gameOfLife] returns
    [(1, 1)] and the grid as it was given, whatever the grid is, and [main]'s
    classification of such a pair counts it as unsettled, not as died. *)
Theorem C10_step_cap (g : grid) (nx ny maxSteps maxUnchanged : Z) :
  maxSteps <= 1 ->
  gameOfLife g nx ny maxSteps maxUnchanged = Ok (g, (1, 1)) /\
  forall st, record_result maxSteps st (1, 1) =
    Ok (mkStats (ndied st) (nunsettled st + 1) (nstable st)
          (totalStepsStable st) (totalVegiesStable st)).
Proof.
  intros H. split; [apply gameOfLife_capped; exact H |].
  intros st. unfold record_result. simpl.
  destruct (Z.leb_spec maxSteps 1); [reflexivity | lia].
Qed.

Lemma C10_step_cap_witness :
  gameOfLife [] 3 3 1 10 = Ok ([], (1, 1)) /\
  forall st, record_result 1 st (1, 1) =
    Ok (mkStats (ndied st) (nunsettled st + 1) (nstable st)
          (totalStepsStable st) (totalVegiesStable st)).
Proof. apply (C10_step_cap [] 3 3 1 10). lia. Defined.

(** * Further properties of the program *)

(** X1: on a grid with room for the frame and with interior cells in 0..10,
    [gameOfLife] returns for every [maxSteps] and [maxUnchanged]: the step
    count is between 1 and [max 1 maxSteps], the vegetation total between 0
    and [10 * nx * ny], and the interior cells are still in 0..10. *)
Theorem X1_gameOfLife_bounded (R C nx ny maxSteps maxUnchanged : Z) (g : grid) :
  1 <= nx < MAX_Y -> 1 <= ny < MAX_X -> nx + 1 < R -> ny + 1 < C ->
  wf R C g -> in_range nx ny g ->
  exists g' st v, gameOfLife g nx ny maxSteps maxUnchanged = Ok (g', (st, v)) /\
    wf R C g' /\ in_range nx ny g' /\
    1 <= st <= Z.max 1 maxSteps /\
    0 <= v <= 10 * (nx * ny).
Proof.
  intros Hnx Hny HR HC Hg Hr.
  destruct (gameOfLife_returns R C nx ny maxSteps maxUnchanged
              Hnx Hny HR HC g Hg Hr)
    as (g' & st & v & E & Hg' & Hr' & Hst & Hv).
  exists g', st, v. repeat (split; [assumption |]).
  assert (1 <= nx * ny) by nia. lia.
Qed.

Lemma X1_gameOfLife_bounded_witness :
  exists g' st v, gameOfLife (zeros 3 3) 1 1 STEPS_MAX UNCHANGED_MAX = Ok (g', (st, v)) /\
    wf 3 3 g' /\ in_range 1 1 g' /\
    1 <= st <= Z.max 1 STEPS_MAX /\
    0 <= v <= 10 * (1 * 1).
Proof.
  apply (X1_gameOfLife_bounded 3 3 1 1 STEPS_MAX UNCHANGED_MAX (zeros 3 3)).
  - unfold MAX_Y. lia.
  - unfold MAX_X. lia.
  - lia.
  - lia.
  - apply wf_zeros; lia.
  - intros i j _ _. rewrite cell_zeros. lia.
Defined.

(** X2: the two wrapping loops of [gameOfLife] together make the frame a
    copy of the opposite edges, corners included: every cell of rows
    0..nx+1 and columns 0..ny+1 holds the interior cell at the same place
    on the torus.  The interior and the cells beyond the frame keep their
    values. *)
Theorem X2_wrap_frame (R C nx ny : Z) (g : grid) :
  1 <= nx -> 1 <= ny -> nx + 1 < R -> ny + 1 < C -> wf R C g ->
  exists g1 g2, wrap_columns g nx ny = Ok g1 /\ wrap_rows g1 nx ny = Ok g2 /\
    wf R C g2 /\
    (forall i j, 0 <= i <= nx + 1 -> 0 <= j <= ny + 1 ->
       cell g2 i j = cell g (torus nx i) (torus ny j)) /\
    (forall i j, 1 <= i <= nx -> 1 <= j <= ny -> cell g2 i j = cell g i j) /\
    (forall i j, 0 <= i -> 0 <= j -> nx + 1 < i \/ ny + 1 < j ->
       cell g2 i j = cell g i j).
Proof.
  intros Hnx Hny HR HC Hg.
  destruct (wrap_spec R C nx ny Hnx Hny HR HC g Hg) as (g1 & g2 & E1 & E2 & Hg2 & Hc).
  exists g1, g2. split; [exact E1 |]. split; [exact E2 |]. split; [exact Hg2 |].
  split; [| split].
  - intros i j Hi Hj. rewrite Hc by lia.
    rewrite <- !wrap_torus by lia.
    destruct (Z.leb_spec i (nx + 1)); [| lia].
    destruct (Z.leb_spec j (ny + 1)); [| lia]. reflexivity.
  - intros i j Hi Hj. rewrite Hc by lia.
    destruct (Z.leb_spec i (nx + 1)); [| lia].
    destruct (Z.leb_spec j (ny + 1)); [| lia]. simpl.
    unfold wrap.
    destruct (Z.eqb_spec i 0); [lia |]. destruct (Z.eqb_spec i (nx + 1)); [lia |].
    destruct (Z.eqb_spec j 0); [lia |]. destruct (Z.eqb_spec j (ny + 1)); [lia |].
    reflexivity.
  - intros i j Hi Hj Hout. rewrite Hc by lia.
    destruct (Z.leb_spec i (nx + 1)); destruct (Z.leb_spec j (ny + 1));
      simpl; try reflexivity. lia.
Qed.

Lemma X2_wrap_frame_witness :
  exists g1 g2, wrap_columns (zeros 3 3) 1 1 = Ok g1 /\ wrap_rows g1 1 1 = Ok g2 /\
    wf 3 3 g2 /\
    (forall i j, 0 <= i <= 1 + 1 -> 0 <= j <= 1 + 1 ->
       cell g2 i j = cell (zeros 3 3) (torus 1 i) (torus 1 j)) /\
    (forall i j, 1 <= i <= 1 -> 1 <= j <= 1 -> cell g2 i j = cell (zeros 3 3) i j) /\
    (forall i j, 0 <= i -> 0 <= j -> 1 + 1 < i \/ 1 + 1 < j ->
       cell g2 i j = cell (zeros 3 3) i j).
Proof.
  apply (X2_wrap_frame 3 3 1 1 (zeros 3 3)); try lia. apply wf_zeros; lia.
Defined.

(** X3: the loop of [gameOfLife] ends for one of three reasons: the
    vegetation is 0, the step count has reached [maxSteps], or [converged]
    was set with a streak of at least [maxUnchanged].  A result that [main]
    counts as stabilized comes from the third, and took at least
    [maxUnchanged + 1] steps. *)
Theorem X3_exit_reasons (R C nx ny maxSteps maxUnchanged : Z) (g : grid) :
  1 <= nx < MAX_Y -> 1 <= ny < MAX_X -> nx + 1 < R -> ny + 1 < C ->
  wf R C g -> in_range nx ny g ->
  exists s',
    life_loop (Z.to_nat maxSteps) nx ny maxSteps maxUnchanged (life_init g) = Ok s' /\
    gameOfLife g nx ny maxSteps maxUnchanged = Ok (the_grid s', (steps s', vegies s')) /\
    (vegies s' = 0 \/
     (0 < vegies s' /\ maxSteps <= steps s') \/
     (0 < vegies s' /\ steps s' < maxSteps /\
      converged s' = true /\ maxUnchanged <= nUnchanged s')) /\
    (stabilized maxSteps (steps s', vegies s') = true ->
     converged s' = true /\ maxUnchanged <= nUnchanged s' /\
     maxUnchanged + 1 <= steps s').
Proof.
  intros Hnx Hny HR HC Hg Hr.
  destruct (life_loop_inv
              (fun s => run_inv R C nx ny maxSteps s /\ exit_inv maxUnchanged s)
              nx ny maxSteps maxUnchanged) with
    (fuel := Z.to_nat maxSteps) (s := life_init g)
    as (s' & E & [Hinv [Hconv _]] & Hexit).
  - intros s Hs Hc. apply (exit_inv_body R C); assumption.
  - split.
    + unfold run_inv, life_init, wf_life. simpl.
      split; [split; [exact Hg | apply wf_tempGrid] |].
      split; [lia | split; [lia | exact Hr]].
    + split; [simpl; discriminate |]. intros _. left. repeat split.
  - simpl. lia.
  - exists s'. split; [exact E |]. split; [unfold gameOfLife; rewrite E; reflexivity |].
    destruct Hinv as (_ & _ & Hv & _).
    assert (Hcases : vegies s' = 0 \/
              (0 < vegies s' /\ maxSteps <= steps s') \/
              (0 < vegies s' /\ steps s' < maxSteps /\
               converged s' = true /\ maxUnchanged <= nUnchanged s')).
    { unfold loop_cond in Hexit.
      destruct (Z.eq_dec (vegies s') 0) as [-> | Hne]; [left; reflexivity |].
      right. destruct (Z.ltb_spec 0 (vegies s')); [| lia].
      destruct (Z.ltb_spec (steps s') maxSteps); [| left; lia].
      right. destruct (converged s') eqn:Ec; [| discriminate].
      repeat split; try assumption. apply Hconv. reflexivity. }
    split; [exact Hcases |].
    unfold stabilized, died. simpl. intros Hst.
    apply andb_prop in Hst. destruct Hst as [Hnz Hlt].
    apply negb_true_iff in Hnz, Hlt.
    apply Z.eqb_neq in Hnz. apply Z.leb_gt in Hlt.
    destruct Hcases as [? | [[_ ?] | (_ & _ & Hc & ?)]]; try lia.
    split; [exact Hc |]. specialize (Hconv Hc). lia.
Qed.

Lemma X3_exit_reasons_witness :
  exists s',
    life_loop (Z.to_nat STEPS_MAX) 1 1 STEPS_MAX UNCHANGED_MAX (life_init (zeros 3 3))
      = Ok s' /\
    gameOfLife (zeros 3 3) 1 1 STEPS_MAX UNCHANGED_MAX
      = Ok (the_grid s', (steps s', vegies s')).
Proof.
  destruct (X3_exit_reasons 3 3 1 1 STEPS_MAX UNCHANGED_MAX (zeros 3 3))
    as (s' & E1 & E2 & _).
  - unfold MAX_Y. lia.
  - unfold MAX_X. lia.
  - lia.
  - lia.
  - apply wf_zeros; lia.
  - intros i j _ _. rewrite cell_zeros. lia.
  - exists s'. split; [exact E1 | exact E2].
Defined.

(** X4: a population that starts with 1 in every interior cell grows to 2
    everywhere in the first time step and stays there: [gameOfLife] returns
    [maxUnchanged + 2] steps and the vegetation [2 * nx * ny], with 2 in
    every interior cell. *)
Theorem X4_full_grid_plateau (R C nx ny maxSteps maxUnchanged : Z) (g : grid) :
  1 <= nx < MAX_Y -> 1 <= ny < MAX_X -> nx + 1 < R -> ny + 1 < C ->
  wf R C g -> uniform nx ny g 1 ->
  1 <= maxUnchanged -> maxUnchanged + 2 < maxSteps ->
  exists g', gameOfLife g nx ny maxSteps maxUnchanged
             = Ok (g', (maxUnchanged + 2, 2 * (nx * ny))) /\
    uniform nx ny g' 2.
Proof.
  intros Hnx Hny HR HC Hg Hu Hm Hmax. unfold gameOfLife.
  assert (HN : 1 <= nx * ny) by nia.
  destruct (Z.to_nat maxSteps) as [| [| fuel]] eqn:Ef; try lia.
  rewrite life_loop_step
    by (unfold loop_cond, life_init; simpl;
        destruct (Z.ltb_spec 1 maxSteps); [reflexivity | lia]).
  destruct (loop_body_uniform R C nx ny maxUnchanged (life_init g) 1)
    as (s1 & E1 & Hwf1 & Hv1 & Hs1 & Ho1 & Ho12 & Ho13 & Hif1); try (assumption || lia).
  { split; [exact Hg | apply wf_tempGrid]. }
  rewrite E1. cbn [bind].
  rewrite Z.mul_1_l in Hv1, Hs1, Ho1.
  unfold streak, life_init in Hs1.
  cbn [oldVegies old2Vegies old3Vegies nUnchanged converged] in Hs1.
  destruct (Z.eqb_spec (nx * ny) (-1)); [lia |]. cbn [orb] in Hs1.
  injection Hs1 as Hn1 Hc1. rewrite Hc1 in Hif1. destruct Hif1 as [Hst1 Hu1].
  change (rule 1 (8 * 1)) with 2 in Hu1.
  unfold life_init in Hst1, Ho12, Ho13.
  cbn [steps oldVegies old2Vegies] in Hst1, Ho12, Ho13.
  rewrite life_loop_step
    by (unfold loop_cond; rewrite Hc1, Hv1, Hst1; cbn [negb andb];
        destruct (Z.ltb_spec 0 (nx * ny)); [| lia];
        destruct (Z.ltb_spec (1 + 1) maxSteps); [reflexivity | lia]).
  destruct (loop_body_uniform R C nx ny maxUnchanged s1 2)
    as (s2 & E2 & Hwf2 & Hv2 & Hs2 & Ho2 & _ & _ & Hif2); try (assumption || lia).
  rewrite E2. cbn [bind].
  unfold streak in Hs2. rewrite Ho1, Ho12, Ho13, Hc1 in Hs2.
  destruct (Z.eqb_spec (2 * (nx * ny)) (nx * ny)); [lia |].
  destruct (Z.eqb_spec (2 * (nx * ny)) (-1)); [lia |]. cbn [orb] in Hs2.
  injection Hs2 as Hn2 Hc2. rewrite Hc2 in Hif2. destruct Hif2 as [Hst2 Hu2].
  change (rule 2 (8 * 2)) with 2 in Hu2.
  destruct (plateau_loop R C nx ny maxSteps maxUnchanged 2)
    with (d := Z.to_nat (maxUnchanged - 1)) (fuel := fuel) (s := s2)
    as (s3 & E3 & Hst3 & Hv3 & _ & Hu3); try (assumption || lia).
  - reflexivity.
  - rewrite E3. cbn [bind]. exists (the_grid s3). split; [| exact Hu3].
    assert (Hst : steps s3 = maxUnchanged + 2) by lia.
    rewrite Hst, Hv3. reflexivity.
Qed.

Lemma X4_full_grid_plateau_witness :
  exists g', gameOfLife [[0; 0; 0]; [0; 1; 0]; [0; 0; 0]] 1 1 STEPS_MAX UNCHANGED_MAX
             = Ok (g', (UNCHANGED_MAX + 2, 2 * (1 * 1))) /\
    uniform 1 1 g' 2.
Proof.
  apply (X4_full_grid_plateau 3 3 1 1 STEPS_MAX UNCHANGED_MAX
           [[0; 0; 0]; [0; 1; 0]; [0; 0; 0]]).
  - unfold MAX_Y. lia.
  - unfold MAX_X. lia.
  - lia.
  - lia.
  - split; [reflexivity | repeat constructor].
  - intros i j Hi Hj. assert (i = 1) by lia. assert (j = 1) by lia. subst.
    reflexivity.
  - unfold UNCHANGED_MAX. lia.
  - unfold UNCHANGED_MAX, STEPS_MAX. lia.
Defined.

(** X7: when [numProcesses] divides [nsims] and every worker finishes, the
    run on one process finishes too and the results of the two runs are the
    same up to their order.  With pipes that hold [nsims] results both runs
    report, and the reports agree on the three counters and the three
    percentages; with pipes that hold the [nsims // numProcesses] results
    of a worker but not [nsims] results, the run on [numProcesses]
    processes reports and the run on one process waits in [join]. *)
Theorem X7_process_count (nx ny : Z) (prob : float) (nsims seed0 numProcesses : Z) :
  1 <= nx < MAX_Y -> 1 <= ny < MAX_X ->
  1 <= nsims < 2 ^ 53 -> 1 <= numProcesses ->
  nsims mod numProcesses = 0 ->
  Forall (fun w => snd w = Ok tt)
    (run_workers nx ny prob (nsims / numProcesses) seed0 numProcesses) ->
  Forall (fun w => snd w = Ok tt) (run_workers nx ny prob (nsims / 1) seed0 1) /\
  Permutation
    (concat (map fst (run_workers nx ny prob (nsims / numProcesses) seed0 numProcesses)))
    (concat (map fst (run_workers nx ny prob (nsims / 1) seed0 1))) /\
  forall pipe : nat,
    (nsims <= Z.of_nat pipe ->
     exists rP r1,
       main pipe nx ny prob nsims seed0 numProcesses = Ends (Ok rP) /\
       main pipe nx ny prob nsims seed0 1 = Ends (Ok r1) /\
       ndied (counters rP) = ndied (counters r1) /\
       nunsettled (counters rP) = nunsettled (counters r1) /\
       nstable (counters rP) = nstable (counters r1) /\
       percentDied rP = percentDied r1 /\
       percentUnsettled rP = percentUnsettled r1 /\
       percentStabilized rP = percentStabilized r1) /\
    (nsims / numProcesses <= Z.of_nat pipe < nsims ->
     (exists rP, main pipe nx ny prob nsims seed0 numProcesses = Ends (Ok rP)) /\
     main pipe nx ny prob nsims seed0 1 = Hangs).
Proof.
  intros Hnx Hny Hn HP Hmod Hall.
  assert (Hq : nsims = numProcesses * (nsims / numProcesses))
    by (apply Z.div_exact; lia).
  assert (Hq1 : 1 <= nsims / numProcesses) by nia.
  pose proof (trial_numbers_perm (nsims / numProcesses) numProcesses Hq1 ltac:(lia))
    as Hperm.
  rewrite <- Hq in Hperm. rewrite Z.div_1_r.
  destruct (run_workers_results nx ny prob _ seed0 numProcesses Hnx Hny Hall)
    as [HresP HretP].
  assert (Hall1 : Forall (fun w => snd w = Ok tt) (run_workers nx ny prob nsims seed0 1)).
  { apply run_workers_finish; try assumption. intros k Hk. apply HretP.
    apply (Permutation_in k (Permutation_sym Hperm)). exact Hk. }
  destruct (run_workers_results nx ny prob _ seed0 1 Hnx Hny Hall1) as [Hres1 _].
  assert (Hpq : Permutation
    (concat (map fst (run_workers nx ny prob (nsims / numProcesses) seed0 numProcesses)))
    (concat (map fst (run_workers nx ny prob nsims seed0 1)))).
  { rewrite HresP, Hres1. apply Permutation_map. exact Hperm. }
  split; [exact Hall1 |]. split; [exact Hpq |].
  assert (HfP : forall pipe, nsims / numProcesses <= Z.of_nat pipe ->
            Forall (fits pipe)
              (run_workers nx ny prob (nsims / numProcesses) seed0 numProcesses)).
  { intros pipe Hpipe. apply fits_run_workers. exact Hpipe. }
  intros pipe. split.
  - intros Hpipe.
    destruct (main_returns nx ny prob nsims seed0 numProcesses Hnx Hny Hn HP pipe)
      as (rP & EP & _ & _ & _ & _ & HdP & HuP & HsP); [apply HfP; nia |].
    destruct (main_returns nx ny prob nsims seed0 1 Hnx Hny Hn ltac:(lia) pipe)
      as (r1 & E1 & _ & _ & _ & _ & Hd1 & Hu1 & Hs1).
    { apply fits_run_workers. rewrite Z.div_1_r. exact Hpipe. }
    exists rP, r1. split; [exact EP |]. split; [exact E1 |].
    pose proof (main_counters _ _ _ _ _ _ _ _ EP) as DP.
    pose proof (main_counters _ _ _ _ _ _ _ _ E1) as D1.
    rewrite Z.div_1_r in D1.
    destruct (drain_perm_counters _ _ _ _ _ _ Hpq DP D1) as (Ed & Eu & Es).
    split; [exact Ed |]. split; [exact Eu |]. split; [exact Es |].
    rewrite Ed in HdP. rewrite Eu in HuP. rewrite Es in HsP.
    repeat split; congruence.
  - intros Hpipe. split.
    + destruct (main_returns nx ny prob nsims seed0 numProcesses Hnx Hny Hn HP pipe)
        as (rP & EP & _); [apply HfP; lia |].
      exists rP. exact EP.
    + apply (main_hangs nx ny prob nsims seed0 1 Hnx Hny ltac:(lia)).
      rewrite Z.div_1_r.
      destruct (dispatched_total _ _ _ _ _ _ Hall1) as [Hlen _].
      apply Exists_exists.
      exists (worker nx ny STEPS_MAX UNCHANGED_MAX prob seed0 nsims 1).
      pose proof (first_worker nx ny prob nsims seed0 1 ltac:(lia)) as Hin.
      split; [exact Hin |].
      rewrite Forall_forall in Hlen. pose proof (Hlen _ Hin) as Hl.
      unfold fits, len in *. lia.
Qed.

Lemma X7_process_count_witness :
  Forall (fun w => snd w = Ok tt) (run_workers 1 1 0%float (2 / 1) 1 1) /\
  Permutation
    (concat (map fst (run_workers 1 1 0%float (2 / 2) 1 2)))
    (concat (map fst (run_workers 1 1 0%float (2 / 1) 1 1))) /\
  main 1 1 1 0%float 2 1 1 = Hangs.
Proof.
  destruct (X7_process_count 1 1 0%float 2 1 2) as (H1 & H2 & H3).
  - unfold MAX_Y. lia.
  - unfold MAX_X. lia.
  - assert (2 ^ 53 = 9007199254740992) by reflexivity. lia.
  - lia.
  - reflexivity.
  - vm_compute. repeat constructor.
  - split; [exact H1 |]. split; [exact H2 |].
    destruct (H3 1%nat) as [_ H4]. apply H4. vm_compute.
    split; [discriminate | reflexivity].
Defined.

(** X5: the results in the queue of a worker that finished are those of its
    trials each run on a freshly allocated grid of zeros: what an earlier
    trial left in the grid that [worker] reuses has no influence on the
    next. *)
Theorem X5_worker_fresh_grids (nx ny maxSteps maxUnchanged : Z) (prob : float)
  (seed0 mySims myProcess : Z) :
  1 <= nx < MAX_Y -> 1 <= ny < MAX_X ->
  snd (worker nx ny maxSteps maxUnchanged prob seed0 mySims myProcess) = Ok tt ->
  exists runs : list (grid * (Z * Z)),
    Forall2 (fun i run =>
               trial nx ny maxSteps maxUnchanged prob seed0 mySims myProcess i
                 (zeros (MAX_X + 2) (MAX_Y + 2)) = Ok run)
      (xrange 0 mySims) runs /\
    fst (worker nx ny maxSteps maxUnchanged prob seed0 mySims myProcess) = map snd runs.
Proof.
  intros Hnx Hny Hok.
  destruct (worker_queue nx ny maxSteps maxUnchanged prob seed0 mySims myProcess
              Hnx Hny Hok) as [Hq Hall].
  exists (map (fun i =>
                 match trial nx ny maxSteps maxUnchanged prob seed0 mySims myProcess i
                         (zeros (MAX_X + 2) (MAX_Y + 2)) with
                 | Ok run => run
                 | _ => ([], (0, 0))
                 end) (xrange 0 mySims)).
  split.
  - apply Forall2_map_r. intros i Hi. apply in_xrange in Hi.
    destruct (Hall i ltac:(lia)) as (g' & r & E).
    rewrite <- (trial_number_eq _ _ _ _ _ _ mySims myProcess i) in E by reflexivity.
    rewrite E. reflexivity.
  - rewrite Hq, map_map. apply map_ext_in. intros i Hi. apply in_xrange in Hi.
    destruct (Hall i ltac:(lia)) as (g' & r & E).
    unfold fresh_result. rewrite E.
    rewrite <- (trial_number_eq _ _ _ _ _ _ mySims myProcess i) in E by reflexivity.
    rewrite E. reflexivity.
Qed.

Lemma X5_worker_fresh_grids_witness :
  exists runs : list (grid * (Z * Z)),
    Forall2 (fun i run =>
               trial 1 1 200 10 0%float 1 2 1 i (zeros (MAX_X + 2) (MAX_Y + 2)) = Ok run)
      (xrange 0 2) runs /\
    fst (worker 1 1 200 10 0%float 1 2 1) = map snd runs.
Proof.
  apply (X5_worker_fresh_grids 1 1 200 10 0%float 1 2 1).
  - unfold MAX_Y. lia.
  - unfold MAX_X. lia.
  - vm_compute. reflexivity.
Defined.

(** X6: the seeds of the trials of a run are the products [seed0 * k] for
    k from 1 to [numProcesses * simsPerProcess], each used by one trial;
    they are pairwise distinct when [seed0] is not 0.  The seed is what
    [worker] hands to [initializeGrid]. *)
Theorem X6_seeds_distinct (seed0 simsPerProcess numProcesses : Z) :
  0 <= simsPerProcess -> 0 <= numProcesses ->
  (forall s, In s (run_seeds seed0 simsPerProcess numProcesses) <->
             exists k, 1 <= k <= numProcesses * simsPerProcess /\ s = seed0 * k) /\
  len (run_seeds seed0 simsPerProcess numProcesses) = numProcesses * simsPerProcess /\
  (seed0 <> 0 -> NoDup (run_seeds seed0 simsPerProcess numProcesses)) /\
  (forall nx ny maxSteps maxUnchanged prob myProcess i g,
     trial nx ny maxSteps maxUnchanged prob seed0 simsPerProcess myProcess i g =
     (g1 <- initializeGrid g nx ny (trial_seed seed0 simsPerProcess myProcess i) prob ;;
      gameOfLife g1 nx ny maxSteps maxUnchanged)).
Proof.
  intros Hq HP. rewrite run_seeds_numbers.
  split; [| split; [| split]].
  - intros s. rewrite in_map_iff. split.
    + intros (k & <- & Hk). apply in_trial_numbers in Hk; try lia.
      exists k. split; [lia | reflexivity].
    + intros (k & Hk & ->). exists k. split; [reflexivity |].
      apply in_trial_numbers; lia.
  - unfold len. rewrite length_map.
    destruct (Z.eq_dec simsPerProcess 0) as [-> | Hne].
    + unfold trial_numbers. rewrite Z.mul_0_r.
      induction (xrange 0 numProcesses) as [| p l IH]; [reflexivity | exact IH].
    + rewrite (Permutation_length
                 (trial_numbers_perm simsPerProcess numProcesses ltac:(lia) HP)).
      unfold trial_numbers. change (xrange 0 1) with [0].
      cbn [flat_map]. rewrite app_nil_r, length_map, length_xrange. lia.
  - intros Hs. apply NoDup_map_in; [| apply NoDup_trial_numbers; exact Hq].
    intros a b _ _ E. nia.
  - intros. reflexivity.
Qed.

Lemma X6_seeds_distinct_witness :
  len (run_seeds 7 2 2) = 2 * 2 /\ (7 <> 0 -> NoDup (run_seeds 7 2 2)).
Proof.
  destruct (X6_seeds_distinct 7 2 2) as (_ & Hl & Hn & _); [lia | lia |].
  split; [exact Hl | exact Hn].
Defined.

(** X12: [initializeGrid] draws the cell [(i, j)] from [seed + ny * i + j]
    alone, so that two runs whose seeds differ by [d] plant the same cells
    [d] places apart: the cell of index [ny * i' + j'] in the run with
    [seed + d] equals the cell of index [ny * i' + j' + d] in the run with
    [seed]. *)
Theorem X12_shifted_seeds (R C nx ny seed d : Z) (prob : float)
  (g1 g2 g1' g2' : grid) :
  wf R C g1 -> wf R C g2 -> 0 <= nx < R -> 0 <= ny < C ->
  initializeGrid g1 nx ny seed prob = Ok g1' ->
  initializeGrid g2 nx ny (seed + d) prob = Ok g2' ->
  forall i j i' j', 1 <= i <= nx -> 1 <= j <= ny -> 1 <= i' <= nx -> 1 <= j' <= ny ->
    d + (ny * i' + j') = ny * i + j ->
    cell g2' i' j' = cell g1' i j.
Proof.
  intros Hg1 Hg2 Hnx Hny E1 E2 i j i' j' Hi Hj Hi' Hj' Hd.
  pose proof (initializeGrid_draws R C g1 g1' nx ny seed prob Hg1 Hnx Hny E1) as D1.
  pose proof (initializeGrid_draws R C g2 g2' nx ny (seed + d) prob Hg2 Hnx Hny E2) as D2.
  destruct (initializeGrid_spec R C g1 nx ny seed prob
              (fun i j => match rand1 (seed + (ny * i + j)) with
                          | Ok x => x | _ => 0%float end) Hg1 Hnx Hny)
    as (h1 & Eh1 & _ & Hc1).
  { intros a b Ha Hb. destruct (D1 a b Ha Hb) as (x & ->). reflexivity. }
  destruct (initializeGrid_spec R C g2 nx ny (seed + d) prob
              (fun i j => match rand1 (seed + d + (ny * i + j)) with
                          | Ok x => x | _ => 0%float end) Hg2 Hnx Hny)
    as (h2 & Eh2 & _ & Hc2).
  { intros a b Ha Hb. destruct (D2 a b Ha Hb) as (x & ->). reflexivity. }
  rewrite E1 in Eh1. inversion Eh1; subst h1.
  rewrite E2 in Eh2. inversion Eh2; subst h2.
  rewrite Hc1, Hc2 by lia.
  assert (Hin : forall a b, 1 <= a <= nx -> 1 <= b <= ny -> interior nx ny a b = true).
  { intros a b Ha Hb. unfold interior.
    destruct (Z.leb_spec 1 a); [| lia]. destruct (Z.leb_spec a nx); [| lia].
    destruct (Z.leb_spec 1 b); [| lia]. destruct (Z.leb_spec b ny); [reflexivity | lia]. }
  rewrite !Hin by assumption.
  replace (seed + d + (ny * i' + j')) with (seed + (ny * i + j)) by lia.
  reflexivity.
Qed.

Lemma X12_shifted_seeds_witness :
  exists g1' g2',
    initializeGrid (zeros 4 3) 1 2 7 0.5%float = Ok g1' /\
    initializeGrid (zeros 4 3) 1 2 (7 + 1) 0.5%float = Ok g2' /\
    cell g2' 1 1 = cell g1' 1 2.
Proof.
  assert (E1 : exists g, initializeGrid (zeros 4 3) 1 2 7 0.5%float = Ok g)
    by (eexists; vm_compute; reflexivity).
  assert (E2 : exists g, initializeGrid (zeros 4 3) 1 2 (7 + 1) 0.5%float = Ok g)
    by (eexists; vm_compute; reflexivity).
  destruct E1 as [g1' E1], E2 as [g2' E2].
  exists g1', g2'. split; [exact E1 |]. split; [exact E2 |].
  apply (X12_shifted_seeds 3 4 1 2 7 1 0.5%float (zeros 4 3) (zeros 4 3) g1' g2');
    try lia; try assumption; apply wf_zeros; lia.
Defined.

(** X10: the prompt loop of [main] returns the first pair of inputs with
    [nx <= MAX_X] and [ny <= MAX_Y], after skipping pairs that are too
    large, and leaves the rest of the input; nothing else is asked of the
    dimensions, so that [MAX_X], [MAX_Y], 0 and negative values pass. *)
Theorem X10_prompt_loop (inputs rest : list Z) (nx ny : Z) :
  read_dims inputs = Some (nx, ny, rest) <->
  exists rejected,
    inputs = typed rejected ++ nx :: ny :: rest /\
    Forall too_large rejected /\ nx <= MAX_X /\ ny <= MAX_Y.
Proof.
  unfold read_dims. split.
  - intros H. apply (prompt_dims_accepts (length inputs)) in H; [| lia].
    destruct H as (rej & E & Hrej & Hb).
    destruct rej as [| [c d] rej].
    + exfalso. simpl in E. inversion E; subst. unfold MAX_X in Hb. lia.
    + simpl in E. inversion E; subst. inversion Hrej; subst.
      exists rej. split; [reflexivity |]. split; assumption.
  - intros (rej & -> & Hrej & Hx & Hy). apply prompt_dims_skips; try assumption.
    unfold too_large, MAX_X, MAX_Y. simpl. lia.
Qed.

(** X8: for dimensions that fit the buffers, [main] ends with
    ZeroDivisionError exactly when [nsims] is 0, at the percentages, or
    [numProcesses] is 0, at [nsims // numProcesses]. *)
Theorem X8_zero_division (pipe : nat) (nx ny : Z) (probability : float)
  (nsims seed0 numProcesses : Z) :
  1 <= nx < MAX_Y -> 1 <= ny < MAX_X ->
  0 <= nsims < 2 ^ 53 -> 0 <= numProcesses ->
  (main pipe nx ny probability nsims seed0 numProcesses
     = Ends (Raise ZeroDivisionError) <->
   nsims = 0 \/ numProcesses = 0).
Proof.
  intros Hnx Hny Hn HP. split.
  - intros H.
    destruct (Z.eq_dec nsims 0) as [E | En]; [left; exact E |].
    destruct (Z.eq_dec numProcesses 0) as [E | Ep]; [right; exact E |].
    destruct (main_cases nx ny probability nsims seed0 numProcesses Hnx Hny
                ltac:(lia) ltac:(lia) pipe) as [Er | (r & Er)];
      rewrite Er in H; discriminate.
  - intros [-> | ->].
    + unfold main, floordiv.
      destruct (Z.eqb_spec numProcesses 0) as [_ | Hne]; [reflexivity |].
      cbv zeta. rewrite join_and_drain_fits.
      * rewrite run_workers_idle; [reflexivity |].
        rewrite Z.div_0_l by exact Hne. lia.
      * apply fits_run_workers. rewrite Z.div_0_l by exact Hne. lia.
    + reflexivity.
Qed.

Lemma X8_zero_division_witness :
  main 0 1 1 0%float 0 1 1 = Ends (Raise ZeroDivisionError) <-> 0 = 0 \/ 1 = 0.
Proof.
  apply (X8_zero_division 0 1 1 0%float 0 1 1).
  - unfold MAX_Y. lia.
  - unfold MAX_X. lia.
  - assert (2 ^ 53 = 9007199254740992) by reflexivity. lia.
  - lia.
Defined.

(** X9: with fewer simulations than processes, every worker is given 0
    trials and puts nothing in its queue, whatever the dimensions; [main]
    reports the counters 0 and 0.0 for the three percentages and the two
    averages. *)
Theorem X9_fewer_trials_than_processes (pipe : nat) (nx ny : Z)
  (probability : float) (nsims seed0 numProcesses : Z) :
  1 <= nsims < numProcesses -> nsims < 2 ^ 53 ->
  Forall (fun w => w = ([], Ok tt))
    (run_workers nx ny probability (nsims / numProcesses) seed0 numProcesses) /\
  main pipe nx ny probability nsims seed0 numProcesses =
    Ends (Ok (mkReport stats_init 0%float 0%float 0%float 0%float 0%float)).
Proof.
  intros Hn Hlt.
  assert (Hq : nsims / numProcesses = 0) by (apply Z.div_small; lia).
  split.
  - rewrite Hq. unfold run_workers. rewrite Forall_map. apply Forall_forall.
    intros p _. reflexivity.
  - unfold main, floordiv.
    destruct (Z.eqb_spec numProcesses 0) as [E | _]; [lia |].
    cbv zeta. rewrite join_and_drain_fits by (apply fits_run_workers; lia).
    rewrite run_workers_idle by lia.
    cbn [drain]. unfold report_of.
    change (averages stats_init) with (Ok (0%float, 0%float)).
    cbn [bind ndied nunsettled nstable stats_init fst snd].
    rewrite percent_zero by lia. reflexivity.
Qed.

Lemma X9_fewer_trials_than_processes_witness :
  Forall (fun w => w = ([], Ok tt)) (run_workers MAX_X MAX_Y 1%float (3 / 4) 1 4) /\
  main 0 MAX_X MAX_Y 1%float 3 1 4 =
    Ends (Ok (mkReport stats_init 0%float 0%float 0%float 0%float 0%float)).
Proof.
  apply (X9_fewer_trials_than_processes 0 MAX_X MAX_Y 1%float 3 1 4).
  - lia.
  - assert (2 ^ 53 = 9007199254740992) by reflexivity. lia.
Defined.

(** X11: when [nx] or [ny] is 0 or negative (and not below minus the size
    of the grid), a worker runs all its trials without an exception and
    every result is [(2, 0)]: two steps, no vegetation. *)
Theorem X11_degenerate_dimensions (nx ny : Z) (prob : float)
  (seed0 mySims myProcess : Z) :
  nx <= 0 \/ ny <= 0 ->
  - (MAX_Y + 2) <= nx <= MAX_X -> - (MAX_X + 2) <= ny <= MAX_Y ->
  snd (worker nx ny STEPS_MAX UNCHANGED_MAX prob seed0 mySims myProcess) = Ok tt /\
  fst (worker nx ny STEPS_MAX UNCHANGED_MAX prob seed0 mySims myProcess)
    = map (fun _ => (2, 0)) (xrange 0 mySims).
Proof.
  intros Hdeg Hnx Hny. unfold worker.
  assert (H : forall ks g q, wf (MAX_Y + 2) (MAX_X + 2) g ->
            worker_loop (trial nx ny STEPS_MAX UNCHANGED_MAX prob seed0 mySims myProcess)
              ks g q = (q ++ map (fun _ => (2, 0)) ks, Ok tt)).
  { induction ks as [| k ks IH]; intros g q Hg; cbn [worker_loop map].
    - rewrite app_nil_r. reflexivity.
    - unfold trial at 1.
      rewrite (initializeGrid_degenerate nx ny Hdeg). cbn [bind].
      destruct (gameOfLife_degenerate (MAX_Y + 2) (MAX_X + 2) nx ny Hdeg)
        with (g := g) (maxSteps := STEPS_MAX) (maxUnchanged := UNCHANGED_MAX)
        as (g' & -> & Hg'); try (unfold MAX_X, MAX_Y, STEPS_MAX in *; lia);
        [exact Hg |].
      rewrite IH by exact Hg'. rewrite <- app_assoc. reflexivity. }
  rewrite H by apply wf_worker_grid. split; reflexivity.
Qed.

Lemma X11_degenerate_dimensions_witness :
  snd (worker 0 (-3) STEPS_MAX UNCHANGED_MAX 0.5%float 1 2 1) = Ok tt /\
  fst (worker 0 (-3) STEPS_MAX UNCHANGED_MAX 0.5%float 1 2 1)
    = map (fun _ => (2, 0)) (xrange 0 2).
Proof.
  apply (X11_degenerate_dimensions 0 (-3) 0.5%float 1 2 1).
  - left. lia.
  - unfold MAX_X, MAX_Y. lia.
  - unfold MAX_X, MAX_Y. lia.
Defined.

(** X13: with [nx] or [ny] at the size of the scratch buffer, which the
    prompt accepts, and at least one trial per process, every worker ends
    with an exception in its first trial and puts nothing in its queue;
    [main] still returns, with the counters 0 and 0.0 for the percentages
    and the averages. *)
Theorem X13_overrun_report (pipe : nat) (nx ny : Z) (probability : float)
  (nsims seed0 numProcesses : Z) :
  1 <= nx <= MAX_X -> 1 <= ny <= MAX_Y -> MAX_Y <= nx \/ MAX_X <= ny ->
  1 <= numProcesses <= nsims -> nsims < 2 ^ 53 ->
  Forall (fun w => fst w = [] /\ exists e, snd w = Raise e)
    (run_workers nx ny probability (nsims / numProcesses) seed0 numProcesses) /\
  main pipe nx ny probability nsims seed0 numProcesses =
    Ends (Ok (mkReport stats_init 0%float 0%float 0%float 0%float 0%float)).
Proof.
  intros Hnx Hny Hover HP Hn.
  assert (Hq : 1 <= nsims / numProcesses).
  { apply Z.div_le_lower_bound; lia. }
  assert (Hw : Forall (fun w => fst w = [] /\ exists e, snd w = Raise e)
                 (run_workers nx ny probability (nsims / numProcesses) seed0
                    numProcesses)).
  { unfold run_workers. rewrite Forall_map. apply Forall_forall. intros p _.
    unfold worker. rewrite xrange_cons by lia. cbn [worker_loop].
    destruct (trial_overrun nx ny STEPS_MAX UNCHANGED_MAX probability seed0
                (nsims / numProcesses) (p + 1) 0 (zeros (MAX_X + 2) (MAX_Y + 2)))
      as (e & -> & _); try assumption.
    - unfold STEPS_MAX. lia.
    - apply wf_worker_grid.
    - intros i j _ _. rewrite cell_zeros. lia.
    - split; [reflexivity |]. exists e. reflexivity. }
  split; [exact Hw |].
  unfold main, floordiv.
  destruct (Z.eqb_spec numProcesses 0) as [E | _]; [lia |].
  cbv zeta. rewrite join_and_drain_fits.
  - assert (Hc : concat (map fst (run_workers nx ny probability (nsims / numProcesses)
                                    seed0 numProcesses)) = []).
    { induction Hw as [| w ws [Hw0 _] _ IH]; [reflexivity |].
      cbn [map concat]. rewrite Hw0, IH. reflexivity. }
    rewrite Hc. cbn [drain]. unfold report_of.
    change (averages stats_init) with (Ok (0%float, 0%float)).
    cbn [bind ndied nunsettled nstable stats_init fst snd].
    rewrite percent_zero by lia. reflexivity.
  - eapply Forall_impl; [| exact Hw]. intros w [Hw0 _]. unfold fits.
    rewrite Hw0. simpl. lia.
Qed.

Lemma X13_overrun_report_witness :
  Forall (fun w => fst w = [] /\ exists e, snd w = Raise e)
    (run_workers MAX_X 1 0%float (1 / 1) 1 1) /\
  main 0 MAX_X 1 0%float 1 1 1 =
    Ends (Ok (mkReport stats_init 0%float 0%float 0%float 0%float 0%float)).
Proof.
  apply (X13_overrun_report 0 MAX_X 1 0%float 1 1 1).
  - unfold MAX_X. lia.
  - unfold MAX_Y. lia.
  - left. unfold MAX_X, MAX_Y. lia.
  - lia.
  - assert (2 ^ 53 = 9007199254740992) by reflexivity. lia.
Defined.

(** X14: on any grid with room for the frame, whatever its cells hold,
    [gameOfLife] returns, and it writes nothing beyond rows 0..nx+1 and
    columns 0..ny+1 of the grid; of its scratch buffer it writes rows 1..nx
    and columns 1..ny only, so that row 0 and column 0 stay 0. *)
Theorem X14_gameOfLife_confined (R C nx ny maxSteps maxUnchanged : Z) (g : grid) :
  1 <= nx < MAX_Y -> 1 <= ny < MAX_X -> nx + 1 < R -> ny + 1 < C ->
  wf R C g ->
  exists s',
    life_loop (Z.to_nat maxSteps) nx ny maxSteps maxUnchanged (life_init g) = Ok s' /\
    gameOfLife g nx ny maxSteps maxUnchanged = Ok (the_grid s', (steps s', vegies s')) /\
    wf R C (the_grid s') /\
    confined nx ny g (the_grid s') /\
    confined_scratch nx ny (zeros MAX_X MAX_Y) (tempGrid s').
Proof.
  intros Hnx Hny HR HC Hg.
  destruct (life_loop_inv
              (fun s => wf_life R C MAX_Y MAX_X s /\ confined nx ny g (the_grid s) /\
                        confined_scratch nx ny (zeros MAX_X MAX_Y) (tempGrid s))
              nx ny maxSteps maxUnchanged) with
    (fuel := Z.to_nat maxSteps) (s := life_init g)
    as (s' & E & ([Hg' _] & Hc & Hct) & _).
  - intros s Hs Hcond. apply (loop_body_confined R C nx ny maxSteps maxUnchanged g);
      assumption.
  - split; [split; [exact Hg | apply wf_tempGrid] |].
    split; intros i j _ _ _; reflexivity.
  - simpl. lia.
  - exists s'. split; [exact E |]. unfold gameOfLife. rewrite E.
    split; [reflexivity |]. split; [exact Hg' |]. split; assumption.
Qed.

Lemma X14_gameOfLife_confined_witness :
  exists s',
    life_loop (Z.to_nat STEPS_MAX) 1 1 STEPS_MAX UNCHANGED_MAX (life_init (zeros 4 4))
      = Ok s' /\
    confined 1 1 (zeros 4 4) (the_grid s').
Proof.
  destruct (X14_gameOfLife_confined 4 4 1 1 STEPS_MAX UNCHANGED_MAX (zeros 4 4))
    as (s' & E & _ & _ & Hc & _).
  - unfold MAX_Y. lia.
  - unfold MAX_X. lia.
  - lia.
  - lia.
  - apply wf_zeros; lia.
  - exists s'. split; [exact E | exact Hc].
Defined.

(** X15: with the seed 0 every trial of every worker is seeded with 0, and
    all the results of a run whose workers finish are the same pair. *)
Theorem X15_seed_zero (nx ny : Z) (prob : float) (simsPerProcess numProcesses : Z) :
  1 <= nx < MAX_Y -> 1 <= ny < MAX_X ->
  Forall (fun w => snd w = Ok tt)
    (run_workers nx ny prob simsPerProcess 0 numProcesses) ->
  (forall mySims myProcess i, trial_seed 0 mySims myProcess i = 0) /\
  exists r,
    Forall (fun x => x = r)
      (concat (map fst (run_workers nx ny prob simsPerProcess 0 numProcesses))).
Proof.
  intros Hnx Hny Hall. split; [intros; reflexivity |].
  destruct (run_workers_results nx ny prob simsPerProcess 0 numProcesses Hnx Hny Hall)
    as [-> _].
  exists (fresh_result nx ny STEPS_MAX UNCHANGED_MAX prob 0 1).
  rewrite Forall_map. apply Forall_forall. intros k _.
  unfold fresh_result, trial. rewrite !Z.mul_0_l. reflexivity.
Qed.

Lemma X15_seed_zero_witness :
  exists r,
    Forall (fun x => x = r) (concat (map fst (run_workers 1 1 0.5%float 2 0 2))).
Proof.
  destruct (X15_seed_zero 1 1 0.5%float 2 2) as [_ H].
  - unfold MAX_Y. lia.
  - unfold MAX_X. lia.
  - vm_compute. repeat constructor.
  - exact H.
Defined.
